(** * Mantic.sh: structural scorer, sharded search and dependency graph

    A shallow embedding of [src/brain-scorer.ts], [src/parallel-mantic.ts],
    [src/search.worker.ts] and the dependency graph builder (the module
    [src/process-request.ts] imports as [./dependency-graph.js]), followed
    by the properties of the specification that were checked against it.
    The callers follow: the scoring step of [processRequest] and, from
    [src/context-intel.ts], the functions that choose the files of the graph
    and read the related files off it; the last part of the file holds
    further properties of the code.

    Conventions.  A JavaScript string is a [string]: a sequence of 8-bit
    code units (the Latin-1 range of UTF-16).  A JavaScript number that holds
    a score, a length or a limit is a [Z]; the ranks, which the code
    computes with a division, are binary64 numbers ([float]).
    [Map<string, _>] is a [gmap], [Set<string>] a [gset]. *)

From Stdlib Require Import ZArith NArith Ascii String List Bool Lia.
From Stdlib Require Import Floats Uint63 Sorting.Sorted.
From stdpp Require Import base option list strings gmap.

Local Open Scope string_scope.
Local Open Scope Z_scope.

(* ===================================================================== *)
(** * The JavaScript primitives the sources use                           *)
(* ===================================================================== *)

Module JS.

(** ** Characters *)

Definition code (c : ascii) : N := N_of_ascii c.

Definition in_range (lo hi : N) (c : ascii) : bool :=
  (lo <=? code c)%N && (code c <=? hi)%N.

(** [[a-z]], [[A-Z]], [[0-9]] and [\w] of a regular expression. *)
Definition is_lower (c : ascii) : bool := in_range 97 122 c.
Definition is_upper (c : ascii) : bool := in_range 65 90 c.
Definition is_digit (c : ascii) : bool := in_range 48 57 c.
Definition is_word (c : ascii) : bool :=
  is_lower c || is_upper c || is_digit c || (code c =? 95)%N.

(** [\s], which is also what [trim] strips: TAB, LF, VT, FF, CR, SPACE
    and NBSP are the white space and line terminators below U+0100. *)
Definition is_space (c : ascii) : bool :=
  in_range 9 13 c || (code c =? 32)%N || (code c =? 160)%N.

(** [String.prototype.toLowerCase] on one code unit: A-Z and the Latin-1
    capitals U+00C0..U+00DE (U+00D7, the multiplication sign, apart). *)
Definition lower_char (c : ascii) : ascii :=
  if is_upper c || (in_range 192 222 c && negb (code c =? 215)%N)
  then ascii_of_N (code c + 32)
  else c.

(** ** Strings *)

Fixpoint smap (f : ascii -> ascii) (s : string) : string :=
  match s with
  | EmptyString => EmptyString
  | String c s' => String (f c) (smap f s')
  end.

Fixpoint sfilter (p : ascii -> bool) (s : string) : string :=
  match s with
  | EmptyString => EmptyString
  | String c s' => if p c then String c (sfilter p s') else sfilter p s'
  end.

Fixpoint sall (p : ascii -> bool) (s : string) : bool :=
  match s with
  | EmptyString => true
  | String c s' => p c && sall p s'
  end.

Definition toLowerCase (s : string) : string := smap lower_char s.

Definition is_empty (s : string) : bool :=
  match s with EmptyString => true | _ => false end.

(** [s.length] *)
Definition slength (s : string) : Z := Z.of_nat (String.length s).

(** [s.startsWith(p)] *)
Fixpoint startsWith (s p : string) : bool :=
  match p with
  | EmptyString => true
  | String b p' =>
      match s with
      | EmptyString => false
      | String a s' => Ascii.eqb a b && startsWith s' p'
      end
  end.

(** [s.includes(t)] *)
Fixpoint includes (s t : string) : bool :=
  startsWith s t ||
  match s with
  | EmptyString => false
  | String _ s' => includes s' t
  end.

(** [s.endsWith(t)] *)
Fixpoint endsWith (s t : string) : bool :=
  String.eqb s t ||
  match s with
  | EmptyString => false
  | String _ s' => endsWith s' t
  end.

Fixpoint trimStart (s : string) : string :=
  match s with
  | EmptyString => EmptyString
  | String c s' => if is_space c then trimStart s' else s
  end.

Fixpoint trimEnd (s : string) : string :=
  match s with
  | EmptyString => EmptyString
  | String c s' =>
      let r := trimEnd s' in
      if is_space c && is_empty r then EmptyString else String c r
  end.

(** [s.trim()] *)
Definition trim (s : string) : string := trimEnd (trimStart s).

(** Prepends a character to the first piece of a split. *)
Definition cons_head (c : ascii) (l : list string) : list string :=
  match l with
  | [] => [String c EmptyString]
  | h :: t => String c h :: t
  end.

(** [s.split(/[...]/)] for a class [p] of single characters: every
    separator character ends a piece, so empty pieces are kept. *)
Fixpoint split_on (p : ascii -> bool) (s : string) : list string :=
  match s with
  | EmptyString => [EmptyString]
  | String c s' =>
      if p c then EmptyString :: split_on p s' else cons_head c (split_on p s')
  end.

(** [s.split(/[...]+/)]: a maximal run of separator characters ends one
    piece; [in_run] says that the previous character was a separator. *)
Fixpoint split_runs_from (p : ascii -> bool) (in_run : bool) (s : string)
  : list string :=
  match s with
  | EmptyString => [EmptyString]
  | String c s' =>
      if p c then
        if in_run then split_runs_from p true s'
        else EmptyString :: split_runs_from p true s'
      else cons_head c (split_runs_from p false s')
  end.

Definition split_runs (p : ascii -> bool) (s : string) : list string :=
  split_runs_from p false s.

(** [.filter(Boolean)] on an array of strings. *)
Definition filter_nonempty (l : list string) : list string :=
  List.filter (fun s => negb (is_empty s)) l.

(** [s.replace(/[...]+/g, ' ')]: each maximal run becomes one space. *)
Fixpoint collapse_runs_from (p : ascii -> bool) (in_run : bool) (s : string)
  : string :=
  match s with
  | EmptyString => EmptyString
  | String c s' =>
      if p c then
        if in_run then collapse_runs_from p true s'
        else String " " (collapse_runs_from p true s')
      else String c (collapse_runs_from p false s')
  end.

Definition collapse_runs (p : ascii -> bool) (s : string) : string :=
  collapse_runs_from p false s.

(** [s.replace(/([a-z])([A-Z])/g, '$1 $2')]: the scan resumes after the
    capital of a match. *)
Fixpoint split_camel (s : string) : string :=
  match s with
  | EmptyString => EmptyString
  | String a s1 =>
      match s1 with
      | EmptyString => s
      | String b s2 =>
          if is_lower a && is_upper b
          then String a (String " " (String b (split_camel s2)))
          else String a (split_camel s1)
      end
  end.

Definition is_dot (c : ascii) : bool := (code c =? 46)%N.

(** [s.replace(/\.[^.]+$/, '')]: the leftmost dot whose rest is not empty
    and has no dot starts the (only possible) match. *)
Fixpoint strip_last_ext (s : string) : string :=
  match s with
  | EmptyString => EmptyString
  | String c s' =>
      if is_dot c && negb (is_empty s') && sall (fun x => negb (is_dot x)) s'
      then EmptyString
      else String c (strip_last_ext s')
  end.

(** [arr[arr.length - 1]] and [arr[arr.length - 2]]; the sources only read
    them where they exist, [d] stands for [undefined]. *)
Definition last_or (d : string) (l : list string) : string := List.last l d.

Definition before_last_or (d : string) (l : list string) : string :=
  List.last (List.removelast l) d.

(** [arr.slice(start, end)] with integer arguments, a negative one counting
    from the end of the array. *)
Definition slice_index (len i : Z) : Z :=
  if i <? 0 then Z.max (len + i) 0 else Z.min i len.

Definition slice {A} (l : list A) (from to : Z) : list A :=
  let len := Z.of_nat (length l) in
  let k := slice_index len from in
  let final := slice_index len to in
  take (Z.to_nat (final - k)) (drop (Z.to_nat k) l).

(** [Array.prototype.sort(cmp)]: the sort is stable, and [cmp a b <= 0]
    keeps [a] before [b].  An element enters the sorted rest of the array
    in front of the first element it does not have to follow. *)
Fixpoint sort_insert {A} (cmp : A -> A -> Z) (x : A) (l : list A) : list A :=
  match l with
  | [] => [x]
  | y :: l' => if cmp x y <=? 0 then x :: l else y :: sort_insert cmp x l'
  end.

Fixpoint sort {A} (cmp : A -> A -> Z) (l : list A) : list A :=
  match l with
  | [] => []
  | x :: l' => sort_insert cmp x (sort cmp l')
  end.

End JS.

(* ===================================================================== *)
(** * Regular expressions                                                 *)
(* ===================================================================== *)

(** The fragment of the regular expressions of JavaScript that the sources
    use, with its backtracking semantics: alternatives are tried from the
    left, a quantifier is greedy, a group records the text it matched last,
    and [exec] starts at the leftmost position that leads to a match. *)

Module Regex.
Import JS.

Inductive regex : Type :=
| Eps
| Chr (p : ascii -> bool)
| Seq (r1 r2 : regex)
| Alt (r1 r2 : regex)
| Star (r : regex)
| Group (n : nat) (r : regex)
| Bol
| Eol
| WordBoundary.

Definition captures := list (nat * string).

(** [m[n]] of a match; [None] is [undefined]. *)
Fixpoint capture (n : nat) (caps : captures) : option string :=
  match caps with
  | [] => None
  | (i, s) :: caps' => if Nat.eqb i n then Some s else capture n caps'
  end.

Definition is_word_opt (c : option ascii) : bool :=
  match c with Some x => is_word x | None => false end.

Definition head_char (s : string) : option ascii :=
  match s with EmptyString => None | String c _ => Some c end.

(** The text between the suffix [s] and its own suffix [s']. *)
Definition consumed (s s' : string) : string :=
  String.substring 0 (String.length s - String.length s') s.

(** [rmatch r prev s caps k]: match [r] at the front of [s], the character
    before it being [prev], then continue with [k]; [None] when every way of
    matching fails.  An iteration of a star has to consume a character,
    which also bounds the number of iterations by the length of [s]. *)
Fixpoint rmatch {A} (r : regex) (prev : option ascii) (s : string)
    (caps : captures) (k : option ascii -> string -> captures -> option A)
  : option A :=
  match r with
  | Eps => k prev s caps
  | Chr p =>
      match s with
      | String c s' => if p c then k (Some c) s' caps else None
      | EmptyString => None
      end
  | Seq r1 r2 =>
      rmatch r1 prev s caps (fun prev' s' caps' => rmatch r2 prev' s' caps' k)
  | Alt r1 r2 =>
      match rmatch r1 prev s caps k with
      | Some x => Some x
      | None => rmatch r2 prev s caps k
      end
  | Star r1 =>
      (fix iterate (fuel : nat) (prev : option ascii) (s : string)
           (caps : captures) {struct fuel} : option A :=
         match fuel with
         | O => k prev s caps
         | S fuel' =>
             match
               rmatch r1 prev s caps
                 (fun prev' s' caps' =>
                    if Nat.ltb (String.length s') (String.length s)
                    then iterate fuel' prev' s' caps'
                    else None)
             with
             | Some x => Some x
             | None => k prev s caps
             end
         end) (String.length s) prev s caps
  | Group n r1 =>
      rmatch r1 prev s caps
        (fun prev' s' caps' => k prev' s' ((n, consumed s s') :: caps'))
  | Bol => match prev with None => k prev s caps | Some _ => None end
  | Eol => match s with EmptyString => k prev s caps | _ => None end
  | WordBoundary =>
      if xorb (is_word_opt prev) (is_word_opt (head_char s))
      then k prev s caps
      else None
  end.

(** The result of [re.exec(s)]: where the match starts, the matched text
    and the groups. *)
Record rmatch_result := MatchResult {
  m_index : nat;
  m_text : string;
  m_groups : captures
}.

Fixpoint exec_from (r : regex) (idx : nat) (prev : option ascii) (s : string)
  : option rmatch_result :=
  match rmatch r prev s [] (fun _ s' caps => Some (MatchResult idx (consumed s s') caps)) with
  | Some m => Some m
  | None =>
      match s with
      | EmptyString => None
      | String c s' => exec_from r (S idx) (Some c) s'
      end
  end.

Definition exec (r : regex) (s : string) : option rmatch_result :=
  exec_from r 0 None s.

(** [re.test(s)] *)
Definition test (r : regex) (s : string) : bool :=
  match exec r s with Some _ => true | None => false end.

(** [m[n]] for a group that took part in the match ([""] otherwise; the
    sources read such a group only after testing it). *)
Definition group (n : nat) (m : rmatch_result) : string :=
  default EmptyString (capture n (m_groups m)).

(** ** Building blocks *)

Definition chr (c : ascii) : regex := Chr (Ascii.eqb c).

(** A character of a pattern with the [i] flag: the letters A-Z and a-z
    match both cases, nothing above U+007F is folded onto them. *)
Definition fold_case (c : ascii) : ascii :=
  if is_upper c then ascii_of_N (code c + 32) else c.

Definition chr_ci (c : ascii) : regex :=
  Chr (fun x => Ascii.eqb (fold_case x) (fold_case c)).

Fixpoint lit (s : string) : regex :=
  match s with
  | EmptyString => Eps
  | String c EmptyString => chr c
  | String c s' => Seq (chr c) (lit s')
  end.

Fixpoint lit_ci (s : string) : regex :=
  match s with
  | EmptyString => Eps
  | String c EmptyString => chr_ci c
  | String c s' => Seq (chr_ci c) (lit_ci s')
  end.

Definition plus (r : regex) : regex := Seq r (Star r).
Definition opt (r : regex) : regex := Alt r Eps.

Fixpoint seqs (l : list regex) : regex :=
  match l with
  | [] => Eps
  | [r] => r
  | r :: l' => Seq r (seqs l')
  end.

(** [a|b|c]; the empty alternation does not occur. *)
Fixpoint alts (l : list regex) : regex :=
  match l with
  | [] => Eps
  | [r] => r
  | r :: l' => Alt r (alts l')
  end.

Definition ws : regex := Chr is_space.            (* \s *)
Definition word : regex := Chr is_word.           (* \w *)
Definition none_of (cs : string) : regex :=       (* [^...] *)
  Chr (fun x => negb (existsb (Ascii.eqb x) (list_ascii_of_string cs))).

(** [s.split(re)[0]]: the text before the first non-empty match of [re],
    the whole of [s] when there is none. *)
Definition before_first_match (r : regex) (s : string) : string :=
  match exec r s with
  | Some m => String.substring 0 (m_index m) s
  | None => s
  end.

End Regex.

(* ===================================================================== *)
(** * [src/brain-scorer.ts]                                               *)
(* ===================================================================== *)

Module ManticEngine.
Import JS Regex.

Record FileEntry := mkFileEntry {
  original : string;
  lower : string;
  normalized : string;
  fileName : string;
  fileNameLower : string;
  fileNameNormalized : string;
  parentDirLower : string;
  parentDirNormalized : string;
  pathParts : list string;
  ext : string;
  depth : Z
}.

Inductive MatchType := exact | filename | fuzzy.

Record SearchResult := mkSearchResult {
  file : string;
  score : Z;
  matchType : MatchType
}.

(** The keys of the object literal, in the order they were written. *)
Definition EXTENSION_WEIGHTS : list (string * Z) :=
  [ (".ts", 20); (".tsx", 20); (".js", 15); (".jsx", 15);
    (".rs", 20); (".go", 20); (".py", 15);
    (".prisma", 15); (".graphql", 10);
    (".css", 5); (".json", 5); (".md", 2) ].

(** [EXTENSION_WEIGHTS[key]]; [None] is [undefined]. *)
Fixpoint weight_of (key : string) (table : list (string * Z)) : option Z :=
  match table with
  | [] => None
  | (k, w) :: table' => if String.eqb k key then Some w else weight_of key table'
  end.

Definition DEFINITION_PATTERNS : list regex :=
  [ lit_ci ".model."; lit_ci ".schema."; lit_ci ".entity."; lit_ci ".type.";
    lit_ci ".interface."; lit_ci "/models/"; lit_ci "/schemas/";
    lit_ci "/entities/" ].

Definition IMPLEMENTATION_PATTERNS : list regex :=
  [ lit_ci ".service."; lit_ci ".controller."; lit_ci ".handler.";
    lit_ci ".manager."; lit_ci "/services/"; lit_ci "/controllers/" ].

Definition TEST_PATTERNS : list regex :=
  [ lit_ci ".test."; lit_ci ".spec."; lit_ci ".e2e.";
    seqs [lit_ci "/test"; opt (chr_ci "s"); chr "/"];
    lit_ci "__tests__" ].

(** The constructor: the extensions without their dot, the longer ones
    first, joined into [\.(...)\b] with the [i] flag. *)
Definition extension_alternatives : list string :=
  sort (fun a b => slength b - slength a)
       (map (fun e => String.substring 1 (String.length e - 1) e)
            (map fst EXTENSION_WEIGHTS)).

Definition extensionRegex : regex :=
  seqs [ chr "."; Group 1 (alts (map lit_ci extension_alternatives));
         WordBoundary ].

(** [/[-_\s]+/]: hyphen, underscore, white space. *)
Definition is_separator (c : ascii) : bool :=
  (code c =? 45)%N || (code c =? 95)%N || is_space c.

Definition normalizeSeparators (text : string) : string :=
  let withSpacesFromCamel := split_camel text in
  collapse_runs is_separator withSpacesFromCamel.

(** [/[/\\]/] *)
Definition is_path_separator (c : ascii) : bool :=
  (code c =? 47)%N || (code c =? 92)%N.

Definition index_entry (p : string) : FileEntry :=
  let parts := split_on is_path_separator p in
  let fileName := last_or EmptyString parts in
  let parentDir :=
    if (1 <? Z.of_nat (length parts)) then before_last_or EmptyString parts
    else EmptyString in
  let lower := toLowerCase p in
  {| original := p;
     lower := lower;
     normalized := normalizeSeparators lower;
     fileName := fileName;
     fileNameLower := toLowerCase fileName;
     fileNameNormalized := normalizeSeparators (toLowerCase fileName);
     parentDirLower := toLowerCase parentDir;
     parentDirNormalized := normalizeSeparators (toLowerCase parentDir);
     pathParts := map toLowerCase parts;
     ext := if includes fileName "."
            then "." ++ last_or EmptyString (split_on is_dot fileName)
            else EmptyString;
     depth := Z.of_nat (length parts) |}.

(** [buildIndex]: the new value of [this.index]. *)
Definition buildIndex (filePaths : list string) : list FileEntry :=
  map index_entry filePaths.

(** ** [scoreEntry], block by block *)

(** A0: a single short lower-case term that is a component of the path. *)
Definition directoryBoost (entry : FileEntry) (terms : list string)
    (originalQuery : string) : Z :=
  let isSingleTermQuery :=
    negb (includes originalQuery " ")
    && String.eqb originalQuery (toLowerCase originalQuery) in
  match terms with
  | [term] =>
      if isSingleTermQuery && (slength term <=? 4) then
        if existsb (fun part => String.eqb part term) (pathParts entry)
        then 8000 else 0
      else 0
  | _ => 0
  end.

(** C: the extension the query asks for, [Some requestedExt]. *)
Definition requestedExt (originalQuery : string) : option string :=
  match exec extensionRegex originalQuery with
  | Some queryExtMatch => Some ("." ++ toLowerCase (group 1 queryExtMatch))
  | None => None
  end.

Definition extensionDisqualified (entry : FileEntry) (originalQuery : string)
  : bool :=
  match requestedExt originalQuery with
  | Some requested => negb (String.eqb (ext entry) requested)
  | None => false
  end.

(** D: soft AND over the normalized path. *)
Definition softAndTerm (entry : FileEntry) (term : string) : Z :=
  if includes (normalized entry) term then 10 else -50.

Definition softAnd (entry : FileEntry) (terms : list string) : Z :=
  fold_left (fun score term => score + softAndTerm entry term) terms 0.

(** D: the inner loop over the components of the path, from index [idx],
    with the current value of [matchIndex]; the result is [matchIndex] and
    [isExactMatch] when the loop ends or breaks. *)
Fixpoint findPathPart (term : string) (lastMatchIndex idx : Z)
    (parts : list string) (matchIndex : Z) : Z * bool :=
  match parts with
  | [] => (matchIndex, false)
  | part :: rest =>
      if idx <=? lastMatchIndex then
        findPathPart term lastMatchIndex (idx + 1) rest matchIndex
      else if String.eqb part term then (idx, true)
      else if (matchIndex =? -1)
              && (startsWith part (term ++ "_") || startsWith part (term ++ "-")
                  || startsWith part (term ++ ".")) then
        findPathPart term lastMatchIndex (idx + 1) rest idx
      else if (matchIndex =? -1) && (4 <=? slength term) && includes part term then
        findPathPart term lastMatchIndex (idx + 1) rest idx
      else
        findPathPart term lastMatchIndex (idx + 1) rest matchIndex
  end.

Record PathState := mkPathState {
  pathScore : Z;
  lastMatchIndex : Z;
  consecutiveMatches : Z
}.

Definition pathStep (entry : FileEntry) (st : PathState) (term : string)
  : PathState :=
  let '(matchIndex, isExactMatch) :=
    findPathPart term (lastMatchIndex st) 0 (pathParts entry) (-1) in
  if lastMatchIndex st <? matchIndex then
    let consecutive := consecutiveMatches st + 1 in
    let bonus := 25 * consecutive in
    let bonus := if isExactMatch then bonus + 10 else bonus in
    mkPathState (pathScore st + bonus) matchIndex consecutive
  else
    mkPathState (pathScore st) (lastMatchIndex st) 0.

(** [parts.findIndex((part, pidx) => pidx > startIdx && part === term)],
    the scan being at index [pidx]. *)
Fixpoint findIndexAfter (term : string) (startIdx pidx : Z)
    (parts : list string) : Z :=
  match parts with
  | [] => -1
  | part :: rest =>
      if (startIdx <? pidx) && String.eqb part term then pidx
      else findIndexAfter term startIdx (pidx + 1) rest
  end.

Fixpoint allConsecutive (parts : list string) (startIdx : Z)
    (terms : list string) : bool :=
  match terms with
  | [] => true
  | term :: terms' =>
      let idx := findIndexAfter term startIdx 0 parts in
      if (idx =? -1) || (negb (startIdx =? -1) && negb (idx =? startIdx + 1))
      then false
      else allConsecutive parts idx terms'
  end.

Definition pathSequence (entry : FileEntry) (terms : list string)
    (originalQuery : string) : Z :=
  let queryHasSlashes := includes originalQuery "/" in
  let nterms := Z.of_nat (length terms) in
  if queryHasSlashes || (3 <=? nterms) then
    let st := fold_left (pathStep entry) terms (mkPathState 0 (-1) 0) in
    let score := pathScore st in
    if (consecutiveMatches st =? nterms) && (3 <=? nterms) then
      if allConsecutive (pathParts entry) (-1) terms then score + 100 else score
    else score
  else 0.

(** E: [/[\s_\-\.]+/] *)
Definition is_word_separator (c : ascii) : bool :=
  is_space c || (code c =? 95)%N || (code c =? 45)%N || is_dot c.

(** E: the points of one term and whether it counts for [termsInStructure]. *)
Definition structuralTerm (entry : FileEntry) (term : string) : Z * bool :=
  let filenameWords := split_runs is_word_separator (fileNameNormalized entry) in
  let filenameHasTerm :=
    existsb (fun word => String.eqb word term || startsWith word term)
            filenameWords in
  if filenameHasTerm then (30, true)
  else if String.eqb (parentDirLower entry) term then (60, true)
  else if includes (parentDirNormalized entry) term then (30, true)
  else (5, false).

Definition structuralSpecificity (entry : FileEntry) (terms : list string) : Z :=
  let '(score, termsInStructure) :=
    fold_left
      (fun acc term =>
         let '(points, structural) := structuralTerm entry term in
         (fst acc + points, if structural then snd acc + 1 else snd acc))
      terms (0, 0) in
  if termsInStructure =? Z.of_nat (length terms) then score + 50 else score.

(** D: adjacency of the query inside the path, spaces removed. *)
Definition adjacencyBonus (entry : FileEntry) (normalizedQuery : string) : Z :=
  let normalizedQueryNoSpaces := sfilter (fun c => negb (is_space c)) normalizedQuery in
  if includes (sfilter (fun c => negb (is_space c)) (normalized entry))
              normalizedQueryNoSpaces
  then 20 else 0.

(** E: [EXTENSION_WEIGHTS[entry.ext] || 0] *)
Definition extensionWeight (entry : FileEntry) : Z :=
  default 0 (weight_of (ext entry) EXTENSION_WEIGHTS).

(** F: definition, implementation and test files. *)
Definition definitionBoost (entry : FileEntry) : Z :=
  let original := original entry in
  let boost :=
    if existsb (fun pattern => test pattern original) DEFINITION_PATTERNS then 40
    else if existsb (fun pattern => test pattern original) IMPLEMENTATION_PATTERNS
         then 20
    else 0 in
  if existsb (fun pattern => test pattern original) TEST_PATTERNS
  then boost - 60 else boost.

Definition scoreEntry (entry : FileEntry) (terms : list string)
    (fullQueryLower originalQuery : string) : Z :=
  let score := 0 in
  let normalizedQuery := toLowerCase (normalizeSeparators originalQuery) in
  let score := score + directoryBoost entry terms originalQuery in
  if String.eqb (fileNameLower entry) fullQueryLower then 10000
  else if String.eqb (fileNameNormalized entry) normalizedQuery then 9000
  else
    let fileNameWithoutExt := toLowerCase (strip_last_ext (fileName entry)) in
    let queryWithoutExt := strip_last_ext fullQueryLower in
    if String.eqb fileNameWithoutExt queryWithoutExt then 5000
    else if extensionDisqualified entry originalQuery then 0
    else
      let score := score + softAnd entry terms in
      let score := score + 50 in
      let score := score + pathSequence entry terms originalQuery in
      let score := score + structuralSpecificity entry terms in
      let score := score + adjacencyBonus entry normalizedQuery in
      let score := score + extensionWeight entry in
      let score := score + definitionBoost entry in
      Z.max 0 score.

(** ** [search] *)

(** The comparator of [results.sort]: score descending, then the length of
    the path ascending. *)
Definition compareResults (a b : SearchResult) : Z :=
  if negb (score b =? score a) then score b - score a
  else slength (file a) - slength (file b).

Definition queryTerms (queryLower : string) : list string :=
  filter_nonempty (split_runs is_space queryLower).

(** The body of the loop over the index: the result pushed for [entry],
    if any. *)
Definition scoreResult (terms : list string) (queryLower queryTrimmed : string)
    (entry : FileEntry) : option SearchResult :=
  let score := scoreEntry entry terms queryLower queryTrimmed in
  if 0 <? score then
    Some {| file := original entry;
            score := score;
            matchType := if 150 <? score then exact else fuzzy |}
  else None.

Definition search (index : list FileEntry) (query : string) (limit : Z)
  : list SearchResult :=
  if is_empty query then [] else
  let queryTrimmed := trim query in
  let queryNormalized := normalizeSeparators queryTrimmed in
  let queryLower := toLowerCase queryNormalized in
  let terms := queryTerms queryLower in
  if Nat.eqb (length terms) 0 then [] else
  let results := omap (scoreResult terms queryLower queryTrimmed) index in
  slice (sort compareResults results) 0 limit.

End ManticEngine.

(* ===================================================================== *)
(** * [src/search.worker.ts] and [src/parallel-mantic.ts]                 *)
(* ===================================================================== *)

Module ParallelMantic.
Import JS ManticEngine.

(** What happens in a worker thread during one call of [search]: it runs
    the handler to its end, [engine.search] throws inside the handler, or
    the thread itself fails and its [Worker] emits ['error']. *)
Inductive Behaviour :=
| Runs
| SearchThrows (e : string)
| ThreadFails (e : string).

(** The completion of a JavaScript call under [try]. *)
Inductive Completion (A : Type) :=
| Normal (a : A)
| Throw (e : string).
Arguments Normal {A} a.
Arguments Throw {A} e.

(** What the main thread receives from a [Worker]. *)
Inductive WorkerEvent :=
| message (results : list SearchResult)
| error (e : string).

Inductive Promise (A : Type) :=
| Resolved (a : A)
| Rejected (e : string).
Arguments Resolved {A} a.
Arguments Rejected {A} e.

(** [Promise.all]: the list of the values, or a rejection as soon as there
    is one. *)
Fixpoint Promise_all {A} (ps : list (Promise A)) : Promise (list A) :=
  match ps with
  | [] => Resolved []
  | Rejected e :: _ => Rejected e
  | Resolved a :: ps' =>
      match Promise_all ps' with
      | Resolved l => Resolved (a :: l)
      | Rejected e => Rejected e
      end
  end.

(** A worker: the index its engine built from [workerData.files] when the
    thread started, and how the thread behaves. *)
Record Worker := mkWorker {
  engine : list FileEntry;
  behaviour : Behaviour
}.

(** [engine.search(task.query, task.limit)] inside the handler. *)
Definition engine_search (w : Worker) (query : string) (limit : Z)
  : Completion (list SearchResult) :=
  match behaviour w with
  | SearchThrows e => Throw e
  | _ => Normal (ManticEngine.search (engine w) query limit)
  end.

(** [parentPort.on('message', ...)]: the handler posts the results back,
    and an empty array from its [catch]. *)
Definition on_message (w : Worker) (query : string) (limit : Z)
  : list SearchResult :=
  match engine_search w query limit with
  | Normal results => results
  | Throw _ => []
  end.

(** The event the main thread sees after [worker.postMessage]. *)
Definition worker_event (w : Worker) (query : string) (limit : Z)
  : WorkerEvent :=
  match behaviour w with
  | ThreadFails e => error e
  | _ => message (on_message w query limit)
  end.

(** [os.cpus().length || 4] *)
Definition cpuCount (cpus : Z) : Z := if cpus =? 0 then 4 else cpus.

Definition workerCount (cpus : Z) : Z := Z.max 2 (cpuCount cpus - 1).

(** [Math.ceil(allFiles.length / workerCount)]; the quotient of two
    array lengths is rounded up exactly. *)
Definition chunkSize {A} (allFiles : list A) (cpus : Z) : Z :=
  (Z.of_nat (length allFiles) + workerCount cpus - 1) / workerCount cpus.

(** The chunks of [initWorkers], the empty ones skipped. *)
Definition chunks {A} (allFiles : list A) (cpus : Z) : list (list A) :=
  let chunkSize := chunkSize allFiles cpus in
  List.filter
    (fun chunk => negb (Nat.eqb (length chunk) 0))
    (map (fun i =>
            let start := i * chunkSize in
            let final := start + chunkSize in
            slice allFiles start final)
         (map Z.of_nat (seq 0 (Z.to_nat (workerCount cpus))))).

(** [initWorkers]: one worker per chunk; [behaviours] says how the thread
    of the worker created at each position behaves. *)
Definition initWorkers (allFiles : list string) (cpus : Z)
    (behaviours : nat -> Behaviour) : list Worker :=
  imap (fun n chunk => mkWorker (buildIndex chunk) (behaviours n))
       (chunks allFiles cpus).

(** The promise made for one worker. *)
Definition worker_promise (w : Worker) (query : string) (limit : Z)
  : Promise (list SearchResult) :=
  match worker_event w query limit with
  | message results => Resolved results
  | error e => Rejected e
  end.

Definition search (workers : list Worker) (query : string) (limit : Z)
  : Promise (list SearchResult) :=
  if is_empty query then Resolved [] else
  let promises := map (fun worker => worker_promise worker query limit) workers in
  match Promise_all promises with
  | Rejected e => Rejected e
  | Resolved resultsArrays =>
      let merged := concat resultsArrays in
      Resolved (slice (sort compareResults merged) 0 limit)
  end.

End ParallelMantic.

(* ===================================================================== *)
(** * Node's [path] module                                                *)
(* ===================================================================== *)

(** [resolveImportPath] and [extractImports] call three functions of the
    [path] module of Node.js.  They are an interface here; [posix] follows
    the POSIX implementation of Node. *)

Module NodePath.
Import JS.

Class PathModule := {
  dirname : string -> string;
  join : string -> string -> string;
  extname : string -> string
}.

Definition is_slash (c : ascii) : bool := (code c =? 47)%N.

Fixpoint join_with (sep : string) (l : list string) : string :=
  match l with
  | [] => EmptyString
  | [s] => s
  | s :: l' => s ++ sep ++ join_with sep l'
  end.

(** [normalizeString]: the segments kept so far, the last one first. *)
Definition normalize_step (allowAboveRoot : bool) (kept : list string)
    (segment : string) : list string :=
  if is_empty segment || String.eqb segment "." then kept
  else if String.eqb segment ".." then
    match kept with
    | [] => if allowAboveRoot then [".."] else []
    | last_kept :: rest =>
        if String.eqb last_kept ".."
        then (if allowAboveRoot then ".." :: kept else kept)
        else rest
    end
  else segment :: kept.

Definition normalizeString (p : string) (allowAboveRoot : bool) : string :=
  join_with "/"
    (rev (fold_left (normalize_step allowAboveRoot) (split_on is_slash p) [])).

Definition posix_normalize (p : string) : string :=
  if is_empty p then "." else
  let isAbsolute := startsWith p "/" in
  let trailingSeparator := endsWith p "/" in
  let q := normalizeString p (negb isAbsolute) in
  if is_empty q then
    if isAbsolute then "/" else if trailingSeparator then "./" else "."
  else
    let q := if trailingSeparator then q ++ "/" else q in
    if isAbsolute then "/" ++ q else q.

Definition posix_join (a b : string) : string :=
  match List.filter (fun s => negb (is_empty s)) [a; b] with
  | [] => "."
  | parts => posix_normalize (join_with "/" parts)
  end.

(** The scan of [dirname] from the end of the path down to index 1; the
    characters come last first, [i] is the index of the first of them. *)
Fixpoint dirname_end (chars : list ascii) (i : nat) (matchedSlash : bool)
  : option nat :=
  match chars with
  | [] => None
  | c :: rest =>
      if is_slash c then
        if negb matchedSlash then Some i
        else dirname_end rest (i - 1) matchedSlash
      else dirname_end rest (i - 1) false
  end.

Definition posix_dirname (p : string) : string :=
  match p with
  | EmptyString => "."
  | String c0 rest =>
      let hasRoot := is_slash c0 in
      match dirname_end (rev (list_ascii_of_string rest)) (String.length rest) true with
      | None => if hasRoot then "/" else "."
      | Some final =>
          if hasRoot && Nat.eqb final 1 then "//"
          else String.substring 0 final p
      end
  end.

(** The last component of a path, slashes at its end ignored. *)
Definition posix_basename (p : string) : string :=
  last_or EmptyString (filter_nonempty (split_on is_slash p)).

(** The index of the last dot of [s], counting from [i]. *)
Fixpoint last_dot_from (s : string) (i : nat) : option nat :=
  match s with
  | EmptyString => None
  | String c s' =>
      match last_dot_from s' (S i) with
      | Some j => Some j
      | None => if is_dot c then Some i else None
      end
  end.

Definition posix_extname (p : string) : string :=
  let base := posix_basename p in
  if String.eqb base ".." then EmptyString
  else
    match last_dot_from base 0 with
    | None | Some O => EmptyString
    | Some startDot =>
        String.substring startDot (String.length base - startDot) base
    end.

Definition posix : PathModule :=
  {| dirname := posix_dirname; join := posix_join; extname := posix_extname |}.

End NodePath.

(* ===================================================================== *)
(** * The dependency graph builder ([dependency-graph.ts])                *)
(* ===================================================================== *)

Module DependencyGraph.
Import JS Regex NodePath.

Record ImportStatement := mkImport {
  source : string;
  importedNames : list string;
  isDefault : bool;
  isDynamic : bool;
  line : Z
}.

Record FileNode := mkFileNode {
  path : string;
  imports : list ImportStatement;
  exports : list string;
  dependents : list string
}.

Record Graph := mkGraph {
  nodes : gmap string FileNode;
  reverseLookup : gmap string (gset string)
}.

(** ** The patterns of [extractImports] *)

Definition squote : ascii := "'"%char.
Definition dquote : ascii := "034"%char.

(** A single or double quote, written [Q] in the patterns below, and any
    other character, written [[^Q]]. *)
Definition quote : regex := Chr (fun c => Ascii.eqb c squote || Ascii.eqb c dquote).
Definition not_quote : regex :=
  Chr (fun c => negb (Ascii.eqb c squote || Ascii.eqb c dquote)).

(** [\s+from\s+Q([^Q]+)Q], the module being group [n]. *)
Definition from_clause (n : nat) : list regex :=
  [ plus ws; lit "from"; plus ws; quote; Group n (plus not_quote); quote ].

(** [/import\s+(\w+)\s+from\s+Q([^Q]+)Q/] *)
Definition defaultPattern : regex :=
  seqs ([ lit "import"; plus ws; Group 1 (plus word) ] ++ from_clause 2).

(** [/import\s+\{\s*([^}]+)\s*\}\s+from\s+Q([^Q]+)Q/] *)
Definition namedPattern : regex :=
  seqs ([ lit "import"; plus ws; chr "{"; Star ws;
          Group 1 (plus (none_of "}")); Star ws; chr "}" ] ++ from_clause 2).

(** [/import\s+\*\s+as\s+(\w+)\s+from\s+Q([^Q]+)Q/] *)
Definition starPattern : regex :=
  seqs ([ lit "import"; plus ws; chr "*"; plus ws; lit "as"; plus ws;
          Group 1 (plus word) ] ++ from_clause 2).

(** [/import\(Q([^Q]+)Q\)/] *)
Definition dynamicPattern : regex :=
  seqs [ lit "import("; quote; Group 1 (plus not_quote); quote; chr ")" ].

(** [/(?:const|let|var)\s+(?:\{([^}]+)\}|(\w+))\s*=\s*require\(Q([^Q]+)Q\)/] *)
Definition requirePattern : regex :=
  seqs [ alts [lit "const"; lit "let"; lit "var"]; plus ws;
         alts [ seqs [chr "{"; Group 1 (plus (none_of "}")); chr "}"];
                Group 2 (plus word) ];
         Star ws; chr "="; Star ws; lit "require("; quote;
         Group 3 (plus not_quote); quote; chr ")" ].

(** [[\w\.]] and [.], which matches no line terminator. *)
Definition module_char : regex := Chr (fun c => is_word c || is_dot c).
Definition any_char : regex :=
  Chr (fun c => negb ((code c =? 10)%N || (code c =? 13)%N)).

(** [/^from\s+([\w\.]+)\s+import\s+(.+)$/] *)
Definition fromImportPattern : regex :=
  seqs [ Bol; lit "from"; plus ws; Group 1 (plus module_char); plus ws;
         lit "import"; plus ws; Group 2 (plus any_char); Eol ].

(** [/^import\s+([\w\.]+)/] *)
Definition importPattern : regex :=
  seqs [ Bol; lit "import"; plus ws; Group 1 (plus module_char) ].

(** [/\s+as\s+/] *)
Definition asPattern : regex := seqs [ plus ws; lit "as"; plus ws ].

Definition is_comma (c : ascii) : bool := (code c =? 44)%N.

(** [names.split(',').map(n => n.trim().split(/\s+as\s+/)[0])] *)
Definition namesWithoutAlias (names : string) : list string :=
  map (fun n => before_first_match asPattern (trim n)) (split_on is_comma names).

(** [content.split(/\r?\n/)] *)
Fixpoint split_lines (s : string) : list string :=
  match s with
  | EmptyString => [EmptyString]
  | String c s' =>
      if (code c =? 10)%N then EmptyString :: split_lines s'
      else
        match s' with
        | String c' s'' =>
            if (code c =? 13)%N && (code c' =? 10)%N
            then EmptyString :: split_lines s''
            else cons_head c (split_lines s')
        | EmptyString => cons_head c (split_lines s')
        end
  end.

(** ** The recognizers, in the order of the loop body.  Each one is the
    statement pushed for [line] at index [lineNum], if its pattern
    matches. *)

Definition isCommentLine (line : string) : bool :=
  startsWith (trim line) "//" || startsWith (trim line) "*"
  || startsWith (trim line) "/*".

Definition recognizeDefault (line : string) (lineNum : Z) : option ImportStatement :=
  match exec defaultPattern line with
  | Some defaultMatch =>
      Some {| source := group 2 defaultMatch;
              importedNames := [group 1 defaultMatch];
              isDefault := true; isDynamic := false; line := lineNum + 1 |}
  | None => None
  end.

Definition recognizeNamed (line : string) (lineNum : Z) : option ImportStatement :=
  match exec namedPattern line with
  | Some namedMatch =>
      Some {| source := group 2 namedMatch;
              importedNames := namesWithoutAlias (group 1 namedMatch);
              isDefault := false; isDynamic := false; line := lineNum + 1 |}
  | None => None
  end.

Definition recognizeStar (line : string) (lineNum : Z) : option ImportStatement :=
  if startsWith (trim line) "import * as" then
    match exec starPattern line with
    | Some starMatch =>
        Some {| source := group 2 starMatch;
                importedNames := [group 1 starMatch];
                isDefault := false; isDynamic := false; line := lineNum + 1 |}
    | None => None
    end
  else None.

Definition recognizeDynamic (line : string) (lineNum : Z) : option ImportStatement :=
  match exec dynamicPattern line with
  | Some dynamicMatch =>
      Some {| source := group 1 dynamicMatch;
              importedNames := [];
              isDefault := false; isDynamic := true; line := lineNum + 1 |}
  | None => None
  end.

Definition recognizeRequire (line : string) (lineNum : Z) : option ImportStatement :=
  match exec requirePattern line with
  | Some requireMatch =>
      let destructured := capture 1 (m_groups requireMatch) in
      let names :=
        match destructured with
        | Some names => map trim (split_on is_comma names)
        | None => [group 2 requireMatch]
        end in
      Some {| source := group 3 requireMatch;
              importedNames := names;
              isDefault := negb (bool_decide (is_Some destructured));
              isDynamic := false; line := lineNum + 1 |}
  | None => None
  end.

Definition recognizeFromImport (line : string) (lineNum : Z) : option ImportStatement :=
  match exec fromImportPattern (trim line) with
  | Some fromImportMatch =>
      Some {| source := group 1 fromImportMatch;
              importedNames := namesWithoutAlias (group 2 fromImportMatch);
              isDefault := false; isDynamic := false; line := lineNum + 1 |}
  | None => None
  end.

Definition recognizeImport (line : string) (lineNum : Z) : option ImportStatement :=
  match exec importPattern (trim line) with
  | Some importMatch =>
      Some {| source := group 1 importMatch;
              importedNames := [];
              isDefault := true; isDynamic := false; line := lineNum + 1 |}
  | None => None
  end.

(** The body of the loop over the lines: what is pushed for one line. *)
Definition importOfLine (filepath line : string) (lineNum : Z)
  : option ImportStatement :=
  if isCommentLine line then None
  else
    match recognizeDefault line lineNum with
    | Some statement => Some statement
    | None =>
    match recognizeNamed line lineNum with
    | Some statement => Some statement
    | None =>
    match recognizeStar line lineNum with
    | Some statement => Some statement
    | None =>
    match recognizeDynamic line lineNum with
    | Some statement => Some statement
    | None =>
    match recognizeRequire line lineNum with
    | Some statement => Some statement
    | None =>
        if endsWith filepath ".py" then
          match recognizeFromImport line lineNum with
          | Some statement => Some statement
          | None => recognizeImport line lineNum
          end
        else None
    end end end end end.

(** The loop over [lines], from index [lineNum] on. *)
Fixpoint scanLines (filepath : string) (lines : list string) (lineNum : Z)
  : list ImportStatement :=
  match lines with
  | [] => []
  | line :: lines' =>
      match importOfLine filepath line lineNum with
      | Some statement => statement :: scanLines filepath lines' (lineNum + 1)
      | None => scanLines filepath lines' (lineNum + 1)
      end
  end.

Section WithFiles.

Context {node_path : PathModule}.

(** [fs.readFile(fullPath, 'utf-8')]: the content of a file, [None] when
    reading it throws. *)
Variable readFile : string -> option string.

(** [extractExports(filepath, cwd)]: the exported names play no part in
    the properties below and are not modelled further. *)
Variable extractExports : string -> string -> list string.

Definition extractImports (filepath cwd : string) : list ImportStatement :=
  let fullPath := join cwd filepath in
  match readFile fullPath with
  | Some content => scanLines filepath (split_lines content) 0
  | None => []
  end.

(** [allFiles.includes(testPath)] for each suffix in turn. *)
Fixpoint probe (candidatePath : string) (suffixes allFiles : list string)
  : option string :=
  match suffixes with
  | [] => None
  | suffix :: suffixes' =>
      let testPath := candidatePath ++ suffix in
      if existsb (String.eqb testPath) allFiles then Some testPath
      else probe candidatePath suffixes' allFiles
  end.

Definition resolveImportPath (importSource importerPath : string)
    (allFiles : list string) (cwd : string) : option string :=
  if negb (startsWith importSource ".") && negb (startsWith importSource "@/")
  then None
  else
    let resolvedSource :=
      if startsWith importSource "@/"
      then "src/" ++ String.substring 2 (String.length importSource - 2) importSource
      else importSource in
    let importerDir := dirname importerPath in
    let candidatePath := join importerDir resolvedSource in
    let currentExt := extname candidatePath in
    let candidatePath :=
      if negb (is_empty currentExt)
      then String.substring 0 (String.length candidatePath - String.length currentExt)
                            candidatePath
      else candidatePath in
    let extensions := [".ts"; ".tsx"; ".js"; ".jsx"; ".mjs"; ""] in
    let indexFiles := ["/index.ts"; "/index.tsx"; "/index.js"; "/index.jsx"] in
    match probe candidatePath extensions allFiles with
    | Some testPath => Some testPath
    | None => probe candidatePath indexFiles allFiles
    end.

(** One batch: a node is set for each of its files. *)
Definition addNodes (cwd : string) (batch : list string)
    (nodes : gmap string FileNode) : gmap string FileNode :=
  fold_left
    (fun nodes filepath =>
       <[filepath := {| path := filepath;
                        imports := extractImports filepath cwd;
                        exports := extractExports filepath cwd;
                        dependents := [] |}]> nodes)
    batch nodes.

(** [for (let i = 0; i < files.length; i += maxConcurrency)]; [None] when
    the loop has not ended after [fuel] iterations. *)
Fixpoint processBatches (fuel : nat) (files : list string) (cwd : string)
    (maxConcurrency i : Z) (nodes : gmap string FileNode)
  : option (gmap string FileNode) :=
  if i <? Z.of_nat (length files) then
    match fuel with
    | O => None
    | S fuel' =>
        let batch := slice files i (i + maxConcurrency) in
        processBatches fuel' files cwd maxConcurrency (i + maxConcurrency)
                       (addNodes cwd batch nodes)
    end
  else Some nodes.

(** The body of the loop over the imports of [filepath]. *)
Definition addImporter (files : list string) (cwd filepath : string)
    (reverseLookup : gmap string (gset string)) (imp : ImportStatement)
  : gmap string (gset string) :=
  match resolveImportPath (source imp) filepath files cwd with
  | Some resolved =>
      if is_empty resolved then reverseLookup
      else <[resolved := default ∅ (reverseLookup !! resolved) ∪ {[filepath]}]>
             reverseLookup
  | None => reverseLookup
  end.

Definition buildReverseLookup (files : list string) (cwd : string)
    (nodes : gmap string FileNode) : gmap string (gset string) :=
  fold_left
    (fun reverseLookup '(filepath, node) =>
       fold_left (addImporter files cwd filepath) (imports node) reverseLookup)
    (map_to_list nodes) ∅.

(** The order in which [nodes.entries()] visits the files: a [Map] keeps
    its keys in the order of their first insertion, which is the order of
    their first occurrence in [files]. *)
Definition scanOrder (files : list string) : list string :=
  fold_left
    (fun order filepath =>
       if existsb (String.eqb filepath) order then order
       else (order ++ [filepath])%list)
    files [].

(** [Array.from(dependentSet)]: the members of the set in the order of
    their insertion.  The loop above adds an importer to the sets when it
    visits the node of the importer, so that the members of every set were
    inserted in the order [order] of that visit. *)
Definition dependentsIn (order : list string) (dependentSet : gset string)
  : list string :=
  List.filter (fun importer => bool_decide (importer ∈ dependentSet)) order.

(** [node.dependents = Array.from(dependentSet)] for every key of the
    reverse lookup that has a node. *)
Definition populateDependents (order : list string)
    (reverseLookup : gmap string (gset string))
    (nodes : gmap string FileNode) : gmap string FileNode :=
  fold_left
    (fun nodes '(filepath, dependentSet) =>
       match nodes !! filepath with
       | Some node =>
           <[filepath := {| path := path node; imports := imports node;
                            exports := exports node;
                            dependents := dependentsIn order dependentSet |}]>
             nodes
       | None => nodes
       end)
    (map_to_list reverseLookup) nodes.

Definition buildDependencyGraphFuel (fuel : nat) (files : list string)
    (cwd : string) (maxConcurrency : Z) : option Graph :=
  match processBatches fuel files cwd maxConcurrency 0 ∅ with
  | Some nodes =>
      let reverseLookup := buildReverseLookup files cwd nodes in
      Some {| nodes := populateDependents (scanOrder files) reverseLookup nodes;
              reverseLookup := reverseLookup |}
  | None => None
  end.

(** [buildDependencyGraph]: with a positive [maxConcurrency] the loop over
    the batches ends within [files.length] iterations. *)
Definition buildDependencyGraph (files : list string) (cwd : string)
    (maxConcurrency : Z) : option Graph :=
  buildDependencyGraphFuel (length files) files cwd maxConcurrency.

End WithFiles.

(** ** [calculateImportRanks] *)

(** A count as a JavaScript number (exact below 2^53). *)
Definition to_number (n : nat) : float :=
  PrimFloat.of_uint63 (Uint63.of_Z (Z.of_nat n)).

(** An integer of magnitude below 2^53 as a JavaScript number. *)
Definition Z_to_number (z : Z) : float :=
  if z <? 0 then PrimFloat.opp (PrimFloat.of_uint63 (Uint63.of_Z (- z)))
  else PrimFloat.of_uint63 (Uint63.of_Z z).

(** [Math.round]: the nearest integer, the one towards plus infinity of two
    that are equally near; computed exactly on mantissa and exponent. *)
Definition Math_round (x : float) : float :=
  match Prim2SF x with
  | S754_finite negative mantissa exponent =>
      if 0 <=? exponent then x
      else
        let numerator := if negative then Z.neg mantissa else Z.pos mantissa in
        let denominator := 2 ^ (- exponent) in
        let rounded := (2 * numerator + denominator) / (2 * denominator) in
        if (rounded =? 0) && negative then PrimFloat.opp PrimFloat.zero
        else Z_to_number rounded
  | _ => x
  end.

(** [Math.max(...counts)] of a non-empty array of counts. *)
Definition maxCount (counts : list nat) : nat := foldr Nat.max 0%nat counts.

Definition normalizedRank (count maxDependents : nat) : float :=
  Math_round (to_number count / to_number maxDependents * 100)%float.

Definition calculateImportRanks (graph : Graph) : gmap string float :=
  let ranks : gmap string float := ∅ in
  let dependentCounts :=
    map (fun '(filepath, dependents) => (filepath, size dependents))
        (map_to_list (reverseLookup graph)) in
  if Nat.eqb (length dependentCounts) 0 then ranks
  else
    let maxDependents := maxCount (map snd dependentCounts) in
    fold_left
      (fun ranks '(filepath, count) =>
         <[filepath := normalizedRank count maxDependents]> ranks)
      dependentCounts ranks.

End DependencyGraph.

(* ===================================================================== *)
(** * [src/brain-scorer.ts]: [rankFiles]                                  *)
(* ===================================================================== *)

Module RankFiles.
Import JS ManticEngine.

(** The fields of [IntentAnalysis] that the sources read; an
    [originalPrompt] of [None] is [undefined]. *)
Record IntentAnalysis := mkIntent {
  keywords : list string;
  originalPrompt : option string
}.

Record FileScore := mkFileScore {
  fsPath : string;
  fsScore : Z;
  reasons : list string
}.

(** [intent.originalPrompt || keywords.join(' ')] *)
Definition rankQuery (keywords : list string) (intent : IntentAnalysis) : string :=
  match originalPrompt intent with
  | Some prompt =>
      if is_empty prompt then NodePath.join_with " " keywords else prompt
  | None => NodePath.join_with " " keywords
  end.

Definition toFileScore (r : SearchResult) : FileScore :=
  {| fsPath := file r;
     fsScore := score r;
     reasons := match matchType r with
                | exact => ["exact-match"]
                | filename => ["filename-match"]
                | fuzzy => ["keyword-match"]
                end |}.

(** [rankFiles]: the new value of [this.index] and the scores; [search]
    runs with its default limit of 100. *)
Definition rankFiles (index : list FileEntry) (files keywords : list string)
    (intent : IntentAnalysis) : list FileEntry * list FileScore :=
  let index :=
    if Nat.eqb (length index) 0 || negb (Nat.eqb (length index) (length files))
    then buildIndex files
    else index in
  let query := rankQuery keywords intent in
  let results := search index query 100 in
  (index, map toFileScore results).

End RankFiles.

(* ===================================================================== *)
(** * [src/process-request.ts]: the scoring step of [processRequest]      *)
(* ===================================================================== *)

Module ProcessRequest.
Import JS ManticEngine ParallelMantic RankFiles.

(** An element of [rawResults], of type [any]: the engine of the workers
    returns [{file, score, matchType}], [rankFiles] and the scanner
    [{path, score, reasons}]; [None] is a missing field. *)
Record RawResult := mkRawResult {
  rawPath : option string;
  rawFile : option string;
  rawScore : Z;
  rawReasons : option (list string);
  rawMatchType : option MatchType
}.

Definition ofSearchResult (r : SearchResult) : RawResult :=
  {| rawPath := None; rawFile := Some (file r); rawScore := score r;
     rawReasons := None; rawMatchType := Some (matchType r) |}.

Definition ofFileScore (fs : FileScore) : RawResult :=
  {| rawPath := Some (fsPath fs); rawFile := None; rawScore := fsScore fs;
     rawReasons := Some (reasons fs); rawMatchType := None |}.

Definition matchTypeString (m : MatchType) : string :=
  match m with
  | exact => "exact"
  | filename => "filename"
  | fuzzy => "fuzzy"
  end.

(** [scoredFilesFn] of the branch for more than 50000 files;
    [parallelEngine.search(query)] runs with its default limit of 50. *)
Definition scoredFilesFn_parallel (allFiles : list string)
    (intentAnalysis : IntentAnalysis) (cpus : Z) (behaviours : nat -> Behaviour)
  : Promise (list RawResult) :=
  let parallelEngine := initWorkers allFiles cpus behaviours in
  let query := rankQuery (keywords intentAnalysis) intentAnalysis in
  match ParallelMantic.search parallelEngine query 50 with
  | Resolved results => Resolved (map ofSearchResult results)
  | Rejected e => Rejected e
  end.

(** [scoredFilesFn] of the other branch; [scoredFiles] is
    [projectContext.scoredFiles]. *)
Definition scoredFilesFn_standard (scoredFiles : option (list RawResult))
    (allFiles : list string) (intentAnalysis : IntentAnalysis)
  : Promise (list RawResult) :=
  match scoredFiles with
  | Some (sf :: rest) => Resolved (sf :: rest)
  | _ =>
      Resolved
        (map ofFileScore
             (snd (rankFiles [] allFiles (keywords intentAnalysis) intentAnalysis)))
  end.

Definition scoredFilesFn (scoredFiles : option (list RawResult))
    (allFiles : list string) (intentAnalysis : IntentAnalysis)
    (cpus : Z) (behaviours : nat -> Behaviour) : Promise (list RawResult) :=
  if 50000 <? Z.of_nat (length allFiles)
  then scoredFilesFn_parallel allFiles intentAnalysis cpus behaviours
  else scoredFilesFn_standard scoredFiles allFiles intentAnalysis.

(** [Math.max(...numbers)] of a non-empty array. *)
Definition Math_max (numbers : list Z) : Z :=
  match numbers with
  | [] => 0
  | n :: numbers' => fold_left Z.max numbers' n
  end.

Definition maxScore (rawResults : list RawResult) : Z :=
  if 0 <? Z.of_nat (length rawResults)
  then Math_max (map rawScore rawResults)
  else 0.

(** [sf.path || sf.file]; [None] is [undefined]. *)
Definition pathStr (sf : RawResult) : option string :=
  match rawPath sf with
  | Some p => if is_empty p then rawFile sf else Some p
  | None => rawFile sf
  end.

Definition scoreVal (sf : RawResult) : Z := rawScore sf.

(** [sf.reasons || (sf.matchType ? [sf.matchType] : [])] *)
Definition reasonsOf (sf : RawResult) : list string :=
  match rawReasons sf with
  | Some reasons => reasons
  | None =>
      match rawMatchType sf with
      | Some m => [matchTypeString m]
      | None => []
      end
  end.

End ProcessRequest.

(* ===================================================================== *)
(** * [getQuickImportRanks]                                               *)
(* ===================================================================== *)

Module QuickImportRanks.
Import JS Regex NodePath DependencyGraph.

Section WithFiles.
Context {node_path : PathModule}.
Variable readFile : string -> option string.

(** The filter of [codeFiles]. *)
Definition isCodeFile (f : string) : bool :=
  endsWith f ".ts" || endsWith f ".tsx" ||
  endsWith f ".js" || endsWith f ".jsx" ||
  endsWith f ".py".

Definition filesToScan (files : list string) : list string :=
  slice (List.filter isCodeFile files) 0 1000.

(** The body of the loop over the imports of [filepath]:
    [importCounts.set(resolved, (importCounts.get(resolved) || 0) + 1)]. *)
Definition countImport (files : list string) (cwd filepath : string)
    (importCounts : gmap string nat) (imp : ImportStatement)
  : gmap string nat :=
  match resolveImportPath (source imp) filepath files cwd with
  | Some resolved =>
      if is_empty resolved then importCounts
      else <[resolved := (default 0 (importCounts !! resolved) + 1)%nat]>
             importCounts
  | None => importCounts
  end.

(** The first loop; [extractImports] catches its own errors, so that the
    [catch] of the loop body is never entered. *)
Definition importCountsOf (files : list string) (cwd : string) : gmap string nat :=
  fold_left
    (fun importCounts filepath =>
       fold_left (countImport files cwd filepath)
                 (extractImports readFile filepath cwd) importCounts)
    (filesToScan files) ∅.

Definition getQuickImportRanks (files : list string) (cwd : string)
  : gmap string float :=
  let importCounts := importCountsOf files cwd in
  let ranks : gmap string float := ∅ in
  if Nat.eqb (size importCounts) 0 then ranks
  else
    let maxCount := maxCount (map snd (map_to_list importCounts)) in
    fold_left
      (fun ranks '(filepath, count) =>
         <[filepath := normalizedRank count maxCount]> ranks)
      (map_to_list importCounts) ranks.

End WithFiles.

End QuickImportRanks.

(* ===================================================================== *)
(** * [src/context-intel.ts]: the files around the working set            *)
(* ===================================================================== *)

Module ContextIntel.
Import JS Regex NodePath DependencyGraph.

Inductive Priority := critical | high | medium | low.

Record RelatedFile := mkRelatedFile {
  rfPath : string;
  rfReason : string;
  rfPriority : Priority;
  rfLine : option Z
}.

(** [s.replace(/\\/g, '/')] *)
Definition forwardSlashes (s : string) : string :=
  smap (fun c => if (code c =? 92)%N then "/"%char else c) s.

(** [set.add(x)] on a [Set] of strings, kept in the order of insertion. *)
Definition set_add (x : string) (set : list string) : list string :=
  if existsb (String.eqb x) set then set else (set ++ [x])%list.

(** [new Set(array)] *)
Definition set_of (array : list string) : list string :=
  fold_left (fun set x => set_add x set) array [].

(** The files at or below the directory. *)
Definition inDirectory (normalizedDir file : string) : bool :=
  let normalizedFile := forwardSlashes file in
  String.eqb normalizedFile normalizedDir
  || startsWith normalizedFile (normalizedDir ++ "/").

(** The inner loop of [getRelevantFilesForGraph], which ends at the first
    addition that leaves more than 500 files in the set. *)
Fixpoint addCandidates (normalizedDir : string) (allFiles relevant : list string)
  : list string :=
  match allFiles with
  | [] => relevant
  | candidate :: rest =>
      if inDirectory normalizedDir candidate
         && negb (includes candidate "node_modules")
      then
        let relevant := set_add candidate relevant in
        if 500 <? Z.of_nat (length relevant) then relevant
        else addCandidates normalizedDir rest relevant
      else addCandidates normalizedDir rest relevant
  end.

Definition priorityOrder (p : Priority) : Z :=
  match p with
  | critical => 0
  | high => 1
  | medium => 2
  | low => 3
  end.

Section WithPath.
Context {node_path : PathModule}.

(** [path.basename(p, ext)]; an empty [ext] stands for the call with one
    argument, which Node treats alike. *)
Variable basename : string -> string -> string.

Definition getRelevantFilesForGraph (workingSet allFiles : list string)
  : list string :=
  fold_left
    (fun relevant file =>
       let dir := dirname file in
       let normalizedDir := forwardSlashes dir in
       addCandidates normalizedDir allFiles relevant)
    workingSet (set_of workingSet).

(** [resolveImport] of the class, which tries five suffixes on the joined
    path as it is. *)
Definition resolveImport (importSource importerPath : string)
    (allFiles : list string) : option string :=
  if negb (startsWith importSource ".") && negb (startsWith importSource "@/")
  then None
  else
    let resolvedSource :=
      if startsWith importSource "@/"
      then "src/" ++ String.substring 2 (String.length importSource - 2) importSource
      else importSource in
    let importerDir := dirname importerPath in
    let candidatePath := join importerDir resolvedSource in
    let extensions := [".ts"; ".tsx"; ".js"; ".jsx"; ""] in
    probe candidatePath extensions allFiles.

Definition findTestFiles (filepath : string) (allFiles : list string)
  : list string :=
  let baseName := basename filepath (extname filepath) in
  let patterns :=
    [baseName ++ ".test."; baseName ++ ".spec."; "__tests__/" ++ baseName] in
  List.filter (fun file => existsb (fun p => includes file p) patterns) allFiles.

Definition findConfigFiles (filepath : string) (allFiles : list string)
  : list string :=
  let dir := dirname filepath in
  let configPatterns := [".env"; "config"; "setup"] in
  let configs :=
    List.filter
      (fun file =>
         inDirectory (forwardSlashes dir) file
         && existsb (fun p => includes file p) configPatterns)
      allFiles in
  slice configs 0 3.

(** [related] and [seen] in the loops of [findRelatedFiles]. *)
Definition Found : Type := list RelatedFile * gset string.

(** [if (!seen.has(p)) { related.push(...); seen.add(p); }] *)
Definition pushUnseen (file : RelatedFile) (found : Found) : Found :=
  let '(related, seen) := found in
  if decide (rfPath file ∈ seen) then found
  else ((related ++ [file])%list, seen ∪ {[rfPath file]}).

(** The body of the loop over the working set. *)
Definition relatedTo (graph : Graph) (allFiles : list string)
    (found : Found) (filepath : string) : Found :=
  match nodes graph !! filepath with
  | None => found
  | Some node =>
      let found :=
        fold_left
          (fun found dependent =>
             pushUnseen {| rfPath := dependent;
                           rfReason := "imports " ++ basename filepath EmptyString;
                           rfPriority := critical;
                           rfLine := None |} found)
          (slice (dependents node) 0 5) found in
      let found :=
        fold_left
          (fun found imp =>
             match resolveImport (source imp) filepath allFiles with
             | Some resolvedPath =>
                 if is_empty resolvedPath then found
                 else pushUnseen {| rfPath := resolvedPath;
                                    rfReason := "dependency";
                                    rfPriority := high;
                                    rfLine := Some (line imp) |} found
             | None => found
             end)
          (slice (imports node) 0 5) found in
      let found :=
        fold_left
          (fun found testFile =>
             pushUnseen {| rfPath := testFile; rfReason := "tests";
                           rfPriority := medium; rfLine := None |} found)
          (findTestFiles filepath allFiles) found in
      fold_left
        (fun found configFile =>
           pushUnseen {| rfPath := configFile; rfReason := "configuration";
                         rfPriority := low; rfLine := None |} found)
        (slice (findConfigFiles filepath allFiles) 0 2) found
  end.

Definition findRelatedFiles (workingSet : list string) (graph : Graph)
    (allFiles : list string) : list RelatedFile :=
  let '(related, _) :=
    fold_left (relatedTo graph allFiles) workingSet
              ([], list_to_set workingSet) in
  let related :=
    sort (fun a b => priorityOrder (rfPriority a) - priorityOrder (rfPriority b))
         related in
  slice related 0 10.

End WithPath.

End ContextIntel.

(* ===================================================================== *)
(** * Lemmas                                                              *)
(* ===================================================================== *)

(** * Separator normalization *)

Module NormalizeFacts.
Import JS ManticEngine.

(** No lower-case letter is directly followed by a capital. *)
Fixpoint no_camel (s : string) : bool :=
  match s with
  | EmptyString => true
  | String a s1 =>
      match s1 with
      | EmptyString => true
      | String b _ => negb (is_lower a && is_upper b) && no_camel s1
      end
  end.

(** Every separator is a single space between two other characters or at
    an end of the string. *)
Fixpoint single_spaced (s : string) : bool :=
  match s with
  | EmptyString => true
  | String a s1 =>
      (if is_separator a then Ascii.eqb a " " else true)
      && match s1 with
         | EmptyString => true
         | String b _ => negb (is_separator a && is_separator b)
         end
      && single_spaced s1
  end.

Lemma lower_not_upper c : is_lower c = true -> is_upper c = false.
Proof.
  unfold is_lower, is_upper, in_range. intros H.
  apply andb_prop in H as [H1 H2]. apply N.leb_le in H1.
  apply andb_false_iff. right. apply N.leb_gt. lia.
Qed.

Lemma split_camel_head s :
  Regex.head_char (split_camel s) = Regex.head_char s.
Proof.
  destruct s as [|a [|b s2]]; simpl; try reflexivity.
  destruct (is_lower a && is_upper b); reflexivity.
Qed.

Lemma no_camel_cons a s :
  no_camel (String a s) =
  match Regex.head_char s with
  | Some b => negb (is_lower a && is_upper b) && no_camel s
  | None => true
  end.
Proof. destruct s; reflexivity. Qed.

Lemma split_camel_cons2 a b s2 :
  split_camel (String a (String b s2)) =
  if is_lower a && is_upper b
  then String a (String " " (String b (split_camel s2)))
  else String a (split_camel (String b s2)).
Proof. reflexivity. Qed.

Lemma split_camel_no_camel_bounded n : forall s,
  (String.length s <= n)%nat -> no_camel (split_camel s) = true.
Proof.
  induction n as [|n IH]; intros s Hn.
  - destruct s; [reflexivity | simpl in Hn; lia].
  - destruct s as [|a [|b s2]]; try reflexivity.
    simpl in Hn. rewrite split_camel_cons2.
    destruct (is_lower a && is_upper b) eqn:E.
    + apply andb_prop in E as [_ Hb].
      rewrite no_camel_cons. cbn [Regex.head_char].
      replace (is_upper " ") with false by reflexivity.
      rewrite andb_false_r. cbn [negb andb].
      rewrite no_camel_cons. cbn [Regex.head_char].
      replace (is_lower " ") with false by reflexivity. cbn [negb andb].
      rewrite no_camel_cons, split_camel_head.
      destruct (Regex.head_char s2) as [c|] eqn:Hc; [|reflexivity].
      assert (is_lower b = false) as ->.
      { destruct (is_lower b) eqn:Hl; [|reflexivity].
        apply lower_not_upper in Hl. congruence. }
      cbn [negb andb]. apply IH. lia.
    + rewrite no_camel_cons, split_camel_head. cbn [Regex.head_char].
      rewrite E. cbn [negb andb]. apply IH. simpl. lia.
Qed.

Lemma split_camel_no_camel s : no_camel (split_camel s) = true.
Proof. apply (split_camel_no_camel_bounded (String.length s)). lia. Qed.

Lemma no_camel_fixed s : no_camel s = true -> split_camel s = s.
Proof.
  induction s as [|a s1 IH]; [reflexivity|].
  destruct s1 as [|b s2]; [reflexivity|].
  intros H. change (no_camel (String a (String b s2)))
    with (negb (is_lower a && is_upper b) && no_camel (String b s2)) in H.
  apply andb_prop in H as [H1 H2]. apply negb_true_iff in H1.
  rewrite split_camel_cons2, H1, IH; auto.
Qed.

Lemma collapse_true_head s :
  match Regex.head_char (collapse_runs_from is_separator true s) with
  | Some c => is_separator c = false
  | None => True
  end.
Proof.
  induction s as [|a s IH]; simpl; [exact I|].
  destruct (is_separator a) eqn:E; [exact IH|]. simpl. exact E.
Qed.

Lemma collapse_false_head s :
  Regex.head_char (collapse_runs_from is_separator false s) =
  match Regex.head_char s with
  | Some c => Some (if is_separator c then " "%char else c)
  | None => None
  end.
Proof. destruct s as [|a s]; simpl; [reflexivity|]. destruct (is_separator a); reflexivity. Qed.

Lemma single_spaced_cons a s :
  single_spaced (String a s) =
  (if is_separator a then Ascii.eqb a " " else true)
  && match Regex.head_char s with
     | Some b => negb (is_separator a && is_separator b)
     | None => true
     end
  && single_spaced s.
Proof. destruct s; reflexivity. Qed.

Lemma collapse_single_spaced s : forall in_run,
  single_spaced (collapse_runs_from is_separator in_run s) = true.
Proof.
  induction s as [|a s IH]; intros in_run; [reflexivity|].
  cbn [collapse_runs_from]. destruct (is_separator a) eqn:E.
  - destruct in_run; [apply IH|].
    rewrite single_spaced_cons, IH.
    pose proof (collapse_true_head s) as Hh.
    destruct (Regex.head_char _) as [c|]; [rewrite Hh|];
      reflexivity.
  - rewrite single_spaced_cons, E, IH.
    destruct (Regex.head_char _); reflexivity.
Qed.

Lemma collapse_no_camel s : forall in_run,
  no_camel s = true ->
  no_camel (collapse_runs_from is_separator in_run s) = true.
Proof.
  induction s as [|a s IH]; intros in_run H; [reflexivity|].
  rewrite no_camel_cons in H.
  assert (no_camel s = true) as Hs.
  { destruct (Regex.head_char s) eqn:Hc.
    - apply andb_prop in H as [_ H]. exact H.
    - destruct s; [reflexivity | discriminate]. }
  cbn [collapse_runs_from]. destruct (is_separator a) eqn:E.
  - destruct in_run; [apply IH; exact Hs|].
    rewrite no_camel_cons.
    destruct (Regex.head_char (collapse_runs_from is_separator true s));
      [|reflexivity].
    replace (is_lower " ") with false by reflexivity.
    cbn [negb andb]. apply IH; exact Hs.
  - rewrite no_camel_cons, collapse_false_head.
    destruct (Regex.head_char s) as [b|] eqn:Hc; [|reflexivity].
    rewrite IH by exact Hs. rewrite andb_true_r.
    destruct (is_separator b).
    + replace (is_upper " ") with false by reflexivity.
      rewrite andb_false_r. reflexivity.
    + apply andb_prop in H as [H _]. exact H.
Qed.

Lemma single_spaced_fixed s :
  single_spaced s = true -> collapse_runs_from is_separator false s = s.
Proof.
  induction s as [|a s IH]; [reflexivity|].
  rewrite single_spaced_cons. intros H.
  apply andb_prop in H as [H Hs]. apply andb_prop in H as [Ha Hn].
  cbn [collapse_runs_from]. destruct (is_separator a) eqn:E.
  - apply Ascii.eqb_eq in Ha. subst a. f_equal.
    destruct s as [|b s']; [reflexivity|].
    cbn [Regex.head_char andb] in Hn. apply negb_true_iff in Hn.
    specialize (IH Hs). cbn [collapse_runs_from] in IH |- *.
    rewrite Hn in IH |- *. exact IH.
  - f_equal. apply IH. exact Hs.
Qed.

Lemma normalizeSeparators_normal s :
  no_camel (normalizeSeparators s) = true
  /\ single_spaced (normalizeSeparators s) = true.
Proof.
  unfold normalizeSeparators, collapse_runs. split.
  - apply collapse_no_camel, split_camel_no_camel.
  - apply collapse_single_spaced.
Qed.

Lemma normalizeSeparators_fixed s :
  no_camel s = true -> single_spaced s = true -> normalizeSeparators s = s.
Proof.
  intros H1 H2. unfold normalizeSeparators, collapse_runs.
  rewrite (no_camel_fixed s H1). apply single_spaced_fixed, H2.
Qed.

Lemma normalizeSeparators_idempotent_all x :
  normalizeSeparators (normalizeSeparators x) = normalizeSeparators x.
Proof.
  destruct (normalizeSeparators_normal x) as [H1 H2].
  apply normalizeSeparators_fixed; assumption.
Qed.

End NormalizeFacts.

(** * Stable sorting, merging and truncation *)

Module SortFacts.
Import JS.

Lemma Sorted_take {A} (R : A -> A -> Prop) k : forall l,
  Sorted R l -> Sorted R (take k l).
Proof.
  induction k as [|k IH]; intros l Hl; [constructor|].
  destruct Hl as [|x l Hl Hx]; [constructor|].
  cbn [take]. constructor; [apply IH, Hl|].
  destruct Hx as [|y l' Hy]; [rewrite take_nil; constructor|].
  destruct k; constructor. exact Hy.
Qed.

Lemma Sorted_drop {A} (R : A -> A -> Prop) k : forall l,
  Sorted R l -> Sorted R (drop k l).
Proof.
  induction k as [|k IH]; intros l Hl; [exact Hl|].
  destruct Hl as [|x l Hl Hx]; [constructor|]. apply IH, Hl.
Qed.

Section Sorting.
Context {A : Type} (cmp : A -> A -> Z).

(** A comparator that orders the elements: a total preorder. *)
Hypothesis cmp_trans : forall a b c, cmp a b <= 0 -> cmp b c <= 0 -> cmp a c <= 0.
Hypothesis cmp_total : forall a b, cmp a b <= 0 \/ cmp b a <= 0.

Definition precedes (a b : A) : Prop := cmp a b <= 0.

(** The stable merge of two lists, the left one first on ties. *)
Fixpoint merge (l1 : list A) : list A -> list A :=
  fix merge_right (l2 : list A) : list A :=
    match l1, l2 with
    | [], _ => l2
    | _, [] => l1
    | a :: l1', b :: l2' =>
        if cmp a b <=? 0 then a :: merge l1' l2 else b :: merge_right l2'
    end.

Lemma merge_nil_l l : merge [] l = l.
Proof. destruct l; reflexivity. Qed.

Lemma merge_nil_r l : merge l [] = l.
Proof. destruct l; reflexivity. Qed.

Lemma merge_cons a l1 b l2 :
  merge (a :: l1) (b :: l2) =
  if cmp a b <=? 0 then a :: merge l1 (b :: l2) else b :: merge (a :: l1) l2.
Proof. reflexivity. Qed.

Lemma sort_insert_merge x : forall l1 l2,
  sort_insert cmp x (merge l1 l2) = merge (sort_insert cmp x l1) l2.
Proof.
  induction l1 as [|a l1 IH1]; intros l2.
  - rewrite merge_nil_l. cbn [sort_insert].
    induction l2 as [|b l2 IH2]; [reflexivity|].
    cbn [sort_insert]. rewrite merge_cons, merge_nil_l.
    destruct (cmp x b <=? 0); [reflexivity|]. rewrite IH2. reflexivity.
  - induction l2 as [|b l2 IH2].
    + rewrite !merge_nil_r. reflexivity.
    + rewrite merge_cons. destruct (cmp a b <=? 0) eqn:Eab.
      * cbn [sort_insert]. destruct (cmp x a <=? 0) eqn:Exa.
        -- rewrite merge_cons.
           assert ((cmp x b <=? 0) = true) as ->.
           { apply Z.leb_le. apply Z.leb_le in Eab, Exa. eauto. }
           rewrite merge_cons, Eab. reflexivity.
        -- rewrite merge_cons, Eab, IH1. reflexivity.
      * cbn [sort_insert]. destruct (cmp x b <=? 0) eqn:Exb.
        -- assert ((cmp x a <=? 0) = true) as ->.
           { apply Z.leb_le. apply Z.leb_le in Exb. apply Z.leb_gt in Eab.
             destruct (cmp_total a b) as [H|H]; [lia|]. eauto. }
           rewrite !merge_cons, Exb, Eab. reflexivity.
        -- rewrite IH2. cbn [sort_insert].
           destruct (cmp x a <=? 0); rewrite merge_cons; [rewrite Exb|rewrite Eab];
             reflexivity.
Qed.

Lemma sort_app l1 l2 : sort cmp (l1 ++ l2) = merge (sort cmp l1) (sort cmp l2).
Proof.
  induction l1 as [|x l1 IH]; cbn [sort app].
  - rewrite merge_nil_l. reflexivity.
  - rewrite IH. apply sort_insert_merge.
Qed.

Lemma take_S_eq {B} k (l l' : list B) :
  take (S k) l = take (S k) l' -> take k l = take k l'.
Proof.
  intros H.
  assert (forall l0 : list B, take k l0 = take k (take (S k) l0)) as E.
  { intros l0. rewrite take_take. f_equal. lia. }
  rewrite (E l), (E l'), H. reflexivity.
Qed.

(** The first [k] elements of a merge depend on the first [k] elements
    of each list only. *)
Lemma take_merge_ext k : forall l1 l1' l2 l2',
  take k l1 = take k l1' -> take k l2 = take k l2' ->
  take k (merge l1 l2) = take k (merge l1' l2').
Proof.
  induction k as [|k IH]; intros l1 l1' l2 l2' H1 H2; [reflexivity|].
  destruct l1 as [|a t1], l1' as [|a' t1']; try discriminate.
  - rewrite !merge_nil_l. exact H2.
  - destruct l2 as [|b t2], l2' as [|b' t2']; try discriminate.
    + rewrite !merge_nil_r. exact H1.
    + pose proof H1 as H1'. pose proof H2 as H2'.
      cbn [take] in H1', H2'. injection H1' as <- Ht1. injection H2' as <- Ht2.
      rewrite !merge_cons. destruct (cmp a b <=? 0); cbn [take]; f_equal.
      * apply IH; [exact Ht1 | apply take_S_eq, H2].
      * apply IH; [apply take_S_eq, H1 | exact Ht2].
Qed.

Lemma take_merge k l1 l2 :
  take k (merge l1 l2) = take k (merge (take k l1) (take k l2)).
Proof. apply take_merge_ext; rewrite take_take; f_equal; lia. Qed.

(** ** Sorted lists *)

Lemma sort_insert_Sorted x l :
  Sorted precedes l -> Sorted precedes (sort_insert cmp x l).
Proof.
  induction 1 as [|y l Hl IH Hy]; cbn [sort_insert].
  - repeat constructor.
  - destruct (cmp x y <=? 0) eqn:E.
    + constructor; [constructor; assumption|].
      constructor. apply Z.leb_le, E.
    + constructor; [exact IH|].
      apply Z.leb_gt in E.
      assert (precedes y x) by (destruct (cmp_total x y); [lia | assumption]).
      destruct Hy as [|z l' Hz]; cbn [sort_insert].
      * repeat constructor. assumption.
      * destruct (cmp x z <=? 0); constructor; assumption.
Qed.

Lemma sort_Sorted l : Sorted precedes (sort cmp l).
Proof.
  induction l as [|x l IH]; cbn [sort]; [constructor|].
  apply sort_insert_Sorted, IH.
Qed.

Lemma Sorted_sort l : Sorted precedes l -> sort cmp l = l.
Proof.
  induction 1 as [|x l Hl IH Hx]; [reflexivity|].
  cbn [sort]. rewrite IH. destruct Hx as [|y l' Hy]; [reflexivity|].
  cbn [sort_insert]. apply Z.leb_le in Hy. rewrite Hy. reflexivity.
Qed.

Lemma Sorted_precedes_strong l :
  Sorted precedes l -> StronglySorted precedes l.
Proof.
  apply Sorted_StronglySorted. intros a b c. apply cmp_trans.
Qed.

Lemma sort_elem_of x l : x ∈ sort cmp l <-> x ∈ l.
Proof.
  assert (forall y l', x ∈ sort_insert cmp y l' <-> x = y \/ x ∈ l') as Hins.
  { intros y l'. induction l' as [|z l' IH]; cbn [sort_insert].
    - rewrite elem_of_cons. reflexivity.
    - destruct (cmp y z <=? 0); rewrite !elem_of_cons; [reflexivity|].
      rewrite IH. tauto. }
  induction l as [|y l IH]; cbn [sort]; [reflexivity|].
  rewrite Hins, IH, elem_of_cons. reflexivity.
Qed.

(** ** Sharding: sorting and truncating each shard before the merge *)

Theorem take_sort_shards k (shards : list (list A)) :
  take k (sort cmp (concat (map (fun shard => take k (sort cmp shard)) shards)))
  = take k (sort cmp (concat shards)).
Proof.
  induction shards as [|shard shards IH]; [reflexivity|].
  cbn [map concat]. rewrite !sort_app.
  rewrite (Sorted_sort (take k (sort cmp shard)))
    by apply Sorted_take, sort_Sorted.
  apply take_merge_ext; [|exact IH].
  rewrite take_take. f_equal. lia.
Qed.

End Sorting.

(** The sort keeps the elements. *)
Lemma sort_insert_Permutation {A} (cmp : A -> A -> Z) x l :
  sort_insert cmp x l ≡ₚ x :: l.
Proof.
  induction l as [|y l IH]; [reflexivity|]. cbn [sort_insert].
  destruct (cmp x y <=? 0); [reflexivity|].
  rewrite IH. apply Permutation_swap.
Qed.

Lemma sort_Permutation {A} (cmp : A -> A -> Z) l : sort cmp l ≡ₚ l.
Proof.
  induction l as [|x l IH]; [reflexivity|]. cbn [sort].
  rewrite sort_insert_Permutation, IH. reflexivity.
Qed.

(** ** [slice] *)

Lemma slice_0_take {A} (l : list A) (limit : Z) :
  0 <= limit -> slice l 0 limit = take (Z.to_nat limit) l.
Proof.
  intros H. unfold slice, slice_index.
  replace (0 <? 0) with false by reflexivity.
  destruct (limit <? 0) eqn:E; [apply Z.ltb_lt in E; lia|].
  assert (Z.min 0 (Z.of_nat (length l)) = 0) as -> by lia.
  cbn [Z.to_nat drop]. rewrite Z.sub_0_r.
  destruct (Z.le_ge_cases limit (Z.of_nat (length l))).
  - rewrite Z.min_l by lia. reflexivity.
  - rewrite Z.min_r by lia. rewrite Nat2Z.id.
    rewrite (take_ge l (Z.to_nat limit)) by lia. apply take_ge. lia.
Qed.

Lemma slice_take_drop {A} (l : list A) (a b : nat) :
  slice l (Z.of_nat a) (Z.of_nat b) = take (b - a) (drop a l).
Proof.
  unfold slice, slice_index.
  destruct (Z.of_nat a <? 0) eqn:Ea; [apply Z.ltb_lt in Ea; lia|].
  destruct (Z.of_nat b <? 0) eqn:Eb; [apply Z.ltb_lt in Eb; lia|].
  destruct (le_ge_dec a (length l)) as [Ha|Ha].
  - rewrite (Z.min_l (Z.of_nat a)) by lia. rewrite Nat2Z.id.
    destruct (le_ge_dec b (length l)) as [Hb|Hb].
    + rewrite Z.min_l by lia. f_equal. lia.
    + rewrite Z.min_r by lia.
      rewrite !take_ge; [reflexivity | |]; rewrite length_drop; lia.
  - rewrite (Z.min_r (Z.of_nat a)) by lia. rewrite Nat2Z.id.
    rewrite !drop_ge by lia. rewrite !take_nil. reflexivity.
Qed.

Lemma slice_subseteq {A} (l : list A) (a b : Z) : slice l a b ⊆ l.
Proof.
  unfold slice. intros x Hx.
  apply (subseteq_take (A:=A)) in Hx. apply (subseteq_drop (A:=A)) in Hx. exact Hx.
Qed.

Lemma slice_Sorted {A} (R : A -> A -> Prop) (l : list A) (a b : Z) :
  Sorted R l -> Sorted R (slice l a b).
Proof. intros H. unfold slice. apply Sorted_take, Sorted_drop, H. Qed.

End SortFacts.

(** * The scorer: ordering and truncation of the results *)

Module SearchFacts.
Import JS ManticEngine SortFacts.

(** The order of a result list: a higher score first, and on equal scores
    the shorter path first. *)
Definition ranked_before (a b : SearchResult) : Prop :=
  score b < score a
  \/ (score a = score b /\ slength (file a) <= slength (file b)).

(** The score [search] computes for an entry of the index. *)
Definition scoreOf (query : string) (entry : FileEntry) : Z :=
  let queryTrimmed := trim query in
  let queryLower := toLowerCase (normalizeSeparators queryTrimmed) in
  scoreEntry entry (queryTerms queryLower) queryLower queryTrimmed.

Lemma compareResults_le a b : compareResults a b <= 0 <-> ranked_before a b.
Proof.
  unfold compareResults, ranked_before.
  destruct (score b =? score a) eqn:E; cbn [negb].
  - apply Z.eqb_eq in E. lia.
  - apply Z.eqb_neq in E. lia.
Qed.

Lemma compareResults_trans a b c :
  compareResults a b <= 0 -> compareResults b c <= 0 -> compareResults a c <= 0.
Proof. rewrite !compareResults_le. unfold ranked_before. lia. Qed.

Lemma compareResults_total a b :
  compareResults a b <= 0 \/ compareResults b a <= 0.
Proof. rewrite !compareResults_le. unfold ranked_before. lia. Qed.

Lemma Sorted_impl {A} (R S : A -> A -> Prop) l :
  (forall a b, R a b -> S a b) -> Sorted R l -> Sorted S l.
Proof.
  intros HRS. induction 1 as [|x l Hl IH Hx]; constructor; [exact IH|].
  destruct Hx; constructor. auto.
Qed.

Lemma sort_compareResults_sorted l :
  Sorted ranked_before (sort compareResults l).
Proof.
  apply (Sorted_impl (precedes compareResults)).
  - intros a b. apply compareResults_le.
  - apply sort_Sorted. apply compareResults_total.
Qed.

Lemma ranked_before_trans a b c :
  ranked_before a b -> ranked_before b c -> ranked_before a c.
Proof. unfold ranked_before. lia. Qed.

Lemma scoreResult_Some terms queryLower queryTrimmed entry r :
  scoreResult terms queryLower queryTrimmed entry = Some r ->
  file r = original entry
  /\ score r = scoreEntry entry terms queryLower queryTrimmed
  /\ 0 < score r
  /\ matchType r = (if 150 <? score r then exact else fuzzy).
Proof.
  unfold scoreResult.
  destruct (0 <? scoreEntry entry terms queryLower queryTrimmed) eqn:E;
    [|discriminate].
  intros [= <-]. cbn. apply Z.ltb_lt in E. auto.
Qed.

(** [search] on a query that passes both guards. *)
Definition ranked (index : list FileEntry) (query : string) : list SearchResult :=
  let queryTrimmed := trim query in
  let queryLower := toLowerCase (normalizeSeparators queryTrimmed) in
  omap (scoreResult (queryTerms queryLower) queryLower queryTrimmed) index.

Definition has_terms (query : string) : bool :=
  negb (is_empty query)
  && negb (Nat.eqb (length (queryTerms (toLowerCase (normalizeSeparators (trim query))))) 0).

Lemma search_unfold index query limit :
  search index query limit =
  if has_terms query
  then slice (sort compareResults (ranked index query)) 0 limit
  else [].
Proof.
  unfold search, has_terms, ranked.
  destruct (is_empty query); [reflexivity|].
  destruct (Nat.eqb _ 0); reflexivity.
Qed.

(** The paths and scores pushed by the loop are those of the records with
    a positive score, in the order of the index. *)
Lemma ranked_positive index query :
  map (fun r => (file r, score r)) (ranked index query)
  = map (fun entry => (original entry, scoreOf query entry))
        (List.filter (fun entry => 0 <? scoreOf query entry) index).
Proof.
  unfold ranked. induction index as [|entry index IH]; [reflexivity|].
  cbn [omap list_omap List.filter]. unfold scoreResult at 1.
  fold (scoreOf query entry).
  destruct (0 <? scoreOf query entry); cbn [map file score];
    [f_equal|]; exact IH.
Qed.

Lemma ranked_app i1 i2 query :
  ranked (i1 ++ i2)%list query = (ranked i1 query ++ ranked i2 query)%list.
Proof. unfold ranked. apply omap_app. Qed.

Lemma ranked_concat (shards : list (list string)) query :
  ranked (buildIndex (concat shards)) query
  = concat (map (fun shard => ranked (buildIndex shard) query) shards).
Proof.
  induction shards as [|shard shards IH]; [reflexivity|].
  cbn [concat map]. unfold buildIndex in *. rewrite map_app, ranked_app, IH.
  reflexivity.
Qed.

(** The scenario of the specification: the two router files come before
    the test file, whose score stays positive after the test penalty. *)
Example router_scenario :
  search (buildIndex ["a/router.ts"; "a/router.test.ts"; "b/Router.tsx"])
         "router" 100
  = [ {| file := "a/router.ts"; score := 5000; matchType := exact |};
      {| file := "b/Router.tsx"; score := 5000; matchType := exact |};
      {| file := "a/router.test.ts"; score := 120; matchType := fuzzy |} ].
Proof. vm_compute. reflexivity. Qed.

End SearchFacts.

(** * The orchestrator: chunks and merge *)

Module ParallelFacts.
Import JS ManticEngine ParallelMantic SortFacts SearchFacts.

Lemma Promise_all_resolved {A B} (f : A -> B) (l : list A) :
  Promise_all (map (fun x => Resolved (f x)) l) = Resolved (map f l).
Proof.
  induction l as [|x l IH]; [reflexivity|].
  cbn [map Promise_all]. rewrite IH. reflexivity.
Qed.

Lemma concat_filter_nonempty {A} (ls : list (list A)) :
  concat (List.filter (fun chunk => negb (Nat.eqb (length chunk) 0)) ls)
  = concat ls.
Proof.
  induction ls as [|l ls IH]; [reflexivity|].
  cbn [List.filter concat]. destruct l as [|x l]; cbn; [exact IH|].
  rewrite IH. reflexivity.
Qed.

(** The first [n] chunks of size [c] make up the first [n * c] files. *)
Lemma concat_slices {A} (l : list A) (c : nat) : forall n,
  concat (map (fun i => slice l (i * Z.of_nat c) (i * Z.of_nat c + Z.of_nat c))
              (map Z.of_nat (seq 0 n)))
  = take (n * c) l.
Proof.
  induction n as [|n IH]; [reflexivity|].
  rewrite seq_S, !map_app, concat_app, IH. cbn [map concat Nat.add].
  rewrite app_nil_r.
  replace (Z.of_nat n * Z.of_nat c) with (Z.of_nat (n * c)) by lia.
  replace (Z.of_nat (n * c) + Z.of_nat c) with (Z.of_nat (n * c + c)) by lia.
  rewrite slice_take_drop.
  replace (n * c + c - n * c)%nat with c by lia.
  rewrite take_take_drop. f_equal. lia.
Qed.

Lemma workerCount_ge cpus : 2 <= workerCount cpus.
Proof. unfold workerCount. lia. Qed.

Lemma chunkSize_covers {A} (l : list A) cpus :
  0 <= chunkSize l cpus
  /\ Z.of_nat (length l) <= workerCount cpus * chunkSize l cpus.
Proof.
  unfold chunkSize. pose proof (workerCount_ge cpus) as Hw.
  set (w := workerCount cpus) in *. set (n := Z.of_nat (length l)).
  assert (0 <= n) by (unfold n; lia).
  split; [apply Z.div_pos; lia|].
  pose proof (Z.mul_succ_div_gt (n + w - 1) w ltac:(lia)). lia.
Qed.

(** The chunks are contiguous and cover the file list. *)
Lemma concat_chunks {A} (l : list A) cpus : concat (chunks l cpus) = l.
Proof.
  unfold chunks. rewrite concat_filter_nonempty.
  destruct (chunkSize_covers l cpus) as [Hc Hcover].
  set (c := chunkSize l cpus) in *.
  replace c with (Z.of_nat (Z.to_nat c)) by lia.
  rewrite concat_slices. apply take_ge.
  pose proof (workerCount_ge cpus). nia.
Qed.

(** Workers whose threads run: the merge of their truncated results is the
    truncated result over all their files together. *)
Lemma search_running_workers (shards : list (list string)) query limit :
  0 <= limit ->
  ParallelMantic.search
    (map (fun chunk => mkWorker (buildIndex chunk) Runs) shards) query limit
  = Resolved (ManticEngine.search (buildIndex (concat shards)) query limit).
Proof.
  intros Hlimit. unfold ParallelMantic.search.
  rewrite search_unfold. unfold has_terms.
  destruct (is_empty query) eqn:Eq; [reflexivity|]. cbn [negb andb].
  rewrite map_map.
  rewrite (Promise_all_resolved
             (fun chunk => ManticEngine.search (buildIndex chunk) query limit)).
  f_equal.
  destruct (Nat.eqb _ 0) eqn:Et; cbn [negb].
  - replace (concat _) with (@nil SearchResult);
      [cbn [sort]; unfold slice; rewrite drop_nil, take_nil; reflexivity|].
    induction shards as [|shard shards IH]; [reflexivity|].
    cbn [map concat]. rewrite <- IH, search_unfold. unfold has_terms.
    rewrite Eq, Et. reflexivity.
  - assert (map (fun chunk => ManticEngine.search (buildIndex chunk) query limit)
                shards
            = map (fun results => take (Z.to_nat limit) (sort compareResults results))
                (map (fun shard => ranked (buildIndex shard) query) shards)) as ->.
    { rewrite map_map. apply map_ext. intros shard.
      rewrite search_unfold. unfold has_terms. rewrite Eq, Et. cbn [negb andb].
      apply slice_0_take, Hlimit. }
    rewrite !slice_0_take by exact Hlimit.
    rewrite (take_sort_shards compareResults
               compareResults_trans compareResults_total).
    rewrite ranked_concat. reflexivity.
Qed.

(** A negative limit is not a number of results: [slice(0, limit)] then
    drops elements from the end, of each shard first and of the merge
    afterwards. *)
Example negative_limit_drops_from_the_end :
  ParallelMantic.search
    (initWorkers ["a/router.ts"; "b/router.ts"] 4 (fun _ => Runs)) "router" (-1)
  = Resolved []
  /\ ManticEngine.search (buildIndex ["a/router.ts"; "b/router.ts"]) "router" (-1)
     = [ {| file := "a/router.ts"; score := 5000; matchType := exact |} ].
Proof. split; vm_compute; reflexivity. Qed.

End ParallelFacts.

(** * The scorer: one more term *)

Module MonotoneFacts.
Import JS ManticEngine.

(** ** Strings inside strings *)

Lemma startsWith_refl s : startsWith s s = true.
Proof.
  induction s as [|c s IH]; [reflexivity|].
  cbn [startsWith]. rewrite Ascii.eqb_refl. exact IH.
Qed.

Lemma startsWith_app s t u : startsWith s (t ++ u) = true -> startsWith s t = true.
Proof.
  revert s. induction t as [|c t IH]; intros s; [destruct s; reflexivity|].
  change (String c t ++ u)%string with (String c (t ++ u)).
  destruct s as [|a s]; cbn [startsWith]; [discriminate|].
  intros H. apply andb_prop in H as [-> H]. cbn [andb]. apply IH, H.
Qed.

Lemma startsWith_includes s t : startsWith s t = true -> includes s t = true.
Proof. destruct s; cbn [includes]; intros ->; reflexivity. Qed.

Lemma includes_refl s : includes s s = true.
Proof. apply startsWith_includes, startsWith_refl. Qed.

(** ** The blocks of [scoreEntry] under one more term *)

Section OneMoreTerm.
Variable entry : FileEntry.
Variable term : string.

(** The term occurs in no component of the path. *)
Hypothesis no_component :
  forall part, part ∈ pathParts entry -> includes part term = false.

Lemma not_a_component :
  existsb (fun part => String.eqb part term) (pathParts entry) = false.
Proof.
  apply not_true_is_false. intros H.
  apply existsb_exists in H as (part & Hin & Heq).
  apply String.eqb_eq in Heq. subst part.
  apply list_elem_of_In, no_component in Hin.
  rewrite includes_refl in Hin. discriminate.
Qed.

Lemma directoryBoost_nonneg terms originalQuery :
  0 <= directoryBoost entry terms originalQuery.
Proof.
  unfold directoryBoost. destruct terms as [|x [|y l]]; try lia.
  destruct (_ && _); [|lia]. destruct (existsb _ _); lia.
Qed.

Lemma directoryBoost_append terms originalQuery :
  directoryBoost entry (terms ++ [term])%list originalQuery
  <= directoryBoost entry terms originalQuery.
Proof.
  destruct terms as [|x [|y l]].
  - cbn [app]. unfold directoryBoost. rewrite not_a_component.
    destruct (_ && _); lia.
  - cbn [app]. change (directoryBoost entry [x; term] originalQuery) with 0.
    apply directoryBoost_nonneg.
  - reflexivity.
Qed.

Lemma findPathPart_none parts :
  (forall part, part ∈ parts -> includes part term = false) ->
  forall lastMatchIndex idx,
    findPathPart term lastMatchIndex idx parts (-1) = (-1, false).
Proof.
  induction parts as [|part parts IH]; intros Hparts lastIdx idx; [reflexivity|].
  assert (includes part term = false) as Hpart
    by apply Hparts, list_elem_of_here.
  assert (forall parts', parts' = parts ->
            forall l i, findPathPart term l i parts' (-1) = (-1, false)) as IH'.
  { intros ? ->. apply IH. intros q Hq. apply Hparts, list_elem_of_further, Hq. }
  cbn [findPathPart].
  destruct (idx <=? lastIdx); [apply IH'; reflexivity|].
  destruct (String.eqb part term) eqn:Eeq.
  { apply String.eqb_eq in Eeq. subst part. rewrite includes_refl in Hpart.
    discriminate. }
  assert (forall suffix, startsWith part (term ++ suffix) = false) as Hstart.
  { intros suffix. apply not_true_is_false. intros H.
    apply startsWith_app, startsWith_includes in H. congruence. }
  rewrite !Hstart, Hpart, !andb_false_r. cbn [orb andb].
  apply IH'; reflexivity.
Qed.

Lemma pathStep_lastMatchIndex st t :
  -1 <= lastMatchIndex st -> -1 <= lastMatchIndex (pathStep entry st t).
Proof.
  intros H. unfold pathStep.
  destruct (findPathPart t (lastMatchIndex st) 0 (pathParts entry) (-1))
    as [matchIndex isExactMatch].
  destruct (lastMatchIndex st <? matchIndex) eqn:E; cbn [lastMatchIndex]; [|exact H].
  apply Z.ltb_lt in E. lia.
Qed.

Lemma fold_pathStep_lastMatchIndex terms : forall st,
  -1 <= lastMatchIndex st ->
  -1 <= lastMatchIndex (fold_left (pathStep entry) terms st).
Proof.
  induction terms as [|t terms IH]; intros st H; [exact H|].
  cbn [fold_left]. apply IH, pathStep_lastMatchIndex, H.
Qed.

Lemma pathStep_unmatched st :
  -1 <= lastMatchIndex st ->
  pathStep entry st term = mkPathState (pathScore st) (lastMatchIndex st) 0.
Proof.
  intros H. unfold pathStep. rewrite (findPathPart_none _ no_component).
  destruct (lastMatchIndex st <? -1) eqn:E; [|reflexivity].
  apply Z.ltb_lt in E. lia.
Qed.

(** The term is not the one that switches the path-sequence block on. *)
Lemma pathSequence_append terms originalQuery :
  length terms <> 2%nat \/ includes originalQuery "/" = true ->
  pathSequence entry (terms ++ [term])%list originalQuery
  <= pathSequence entry terms originalQuery.
Proof.
  intros Hactive. unfold pathSequence.
  rewrite length_app. cbn [length].
  destruct (includes originalQuery "/" || (3 <=? Z.of_nat (length terms + 1)))
    eqn:Eafter.
  - assert (includes originalQuery "/" || (3 <=? Z.of_nat (length terms)) = true)
      as ->.
    { destruct (includes originalQuery "/"); [reflexivity|]. cbn [orb] in *.
      apply Z.leb_le in Eafter. apply Z.leb_le.
      destruct Hactive as [H|H]; [lia|discriminate]. }
    rewrite fold_left_app. cbn [fold_left].
    set (st := fold_left (pathStep entry) terms (mkPathState 0 (-1) 0)).
    assert (-1 <= lastMatchIndex st) as Hlast
      by (apply fold_pathStep_lastMatchIndex; cbn; lia).
    rewrite (pathStep_unmatched st Hlast). cbn [pathScore consecutiveMatches].
    replace (0 =? Z.of_nat (length terms + 1)) with false
      by (symmetry; apply Z.eqb_neq; lia).
    cbn [andb].
    destruct ((consecutiveMatches st =? Z.of_nat (length terms))
              && (3 <=? Z.of_nat (length terms))); [|lia].
    destruct (allConsecutive _ _ _); lia.
  - apply orb_false_iff in Eafter as [-> Eafter]. cbn [orb].
    apply Z.leb_gt in Eafter.
    replace (3 <=? Z.of_nat (length terms)) with false
      by (symmetry; apply Z.leb_gt; lia).
    lia.
Qed.

(** The term counts neither as a match in the file name nor in the parent
    directory. *)
Hypothesis not_structural : structuralTerm entry term = (5, false).

Definition structuralStep (acc : Z * Z) (t : string) : Z * Z :=
  let '(points, structural) := structuralTerm entry t in
  (fst acc + points, if structural then snd acc + 1 else snd acc).

Lemma structuralSpecificity_fold terms :
  structuralSpecificity entry terms =
  let acc := fold_left structuralStep terms (0, 0) in
  if snd acc =? Z.of_nat (length terms) then fst acc + 50 else fst acc.
Proof.
  unfold structuralSpecificity.
  change (fun acc term0 =>
            let '(points, structural) := structuralTerm entry term0 in
            (acc.1 + points, if structural then acc.2 + 1 else acc.2))
    with structuralStep.
  destruct (fold_left structuralStep terms (0, 0)); reflexivity.
Qed.

Lemma structural_count_le terms : forall acc,
  snd (fold_left structuralStep terms acc) <= snd acc + Z.of_nat (length terms).
Proof.
  induction terms as [|t terms IH]; intros acc; [cbn; lia|].
  cbn [fold_left length]. specialize (IH (structuralStep acc t)).
  assert (snd (structuralStep acc t) <= snd acc + 1).
  { unfold structuralStep. destruct (structuralTerm entry t) as [points []];
      cbn [snd]; lia. }
  lia.
Qed.

Lemma structuralSpecificity_append terms :
  structuralSpecificity entry (terms ++ [term])%list
  <= structuralSpecificity entry terms + 5.
Proof.
  rewrite !structuralSpecificity_fold. cbv zeta.
  rewrite fold_left_app. cbn [fold_left].
  set (acc := fold_left structuralStep terms (0, 0)).
  pose proof (structural_count_le terms (0, 0)) as Hcount. fold acc in Hcount.
  cbn [snd] in Hcount.
  assert (structuralStep acc term = (fst acc + 5, snd acc)) as ->
    by (unfold structuralStep; rewrite not_structural; reflexivity).
  cbn [fst snd]. rewrite length_app. cbn [length].
  replace (snd acc =? Z.of_nat (length terms + 1)) with false
    by (symmetry; apply Z.eqb_neq; lia).
  destruct (snd acc =? Z.of_nat (length terms)); lia.
Qed.

(** The term does not occur in the normalized path. *)
Hypothesis not_in_path : includes (normalized entry) term = false.

Lemma softAnd_unmatched terms :
  softAnd entry (terms ++ [term])%list = softAnd entry terms - 50.
Proof.
  unfold softAnd, softAndTerm. rewrite fold_left_app. cbn [fold_left].
  rewrite not_in_path. lia.
Qed.

Lemma scoreEntry_unmatched_term terms fullQueryLower originalQuery :
  length terms <> 2%nat \/ includes originalQuery "/" = true ->
  scoreEntry entry (terms ++ [term])%list fullQueryLower originalQuery
  <= scoreEntry entry terms fullQueryLower originalQuery.
Proof.
  intros Hactive. unfold scoreEntry.
  destruct (String.eqb (fileNameLower entry) fullQueryLower); [lia|].
  destruct (String.eqb (fileNameNormalized entry) _); [lia|].
  destruct (String.eqb _ (strip_last_ext fullQueryLower)); [lia|].
  destruct (extensionDisqualified entry originalQuery); [lia|].
  pose proof (directoryBoost_append terms originalQuery).
  pose proof (pathSequence_append terms originalQuery Hactive).
  pose proof (structuralSpecificity_append terms).
  rewrite softAnd_unmatched. lia.
Qed.

End OneMoreTerm.

End MonotoneFacts.

Module SubstringFacts.
Import JS ManticEngine NormalizeFacts MonotoneFacts.

Lemma sapp_cons x (a b : string) : (String x a ++ b = String x (a ++ b))%string.
Proof. reflexivity. Qed.

Lemma sapp_nil_l (a : string) : ("" ++ a = a)%string.
Proof. reflexivity. Qed.

Lemma sapp_assoc (a b c : string) : ((a ++ b) ++ c = a ++ (b ++ c))%string.
Proof.
  induction a as [|x a IH]; [reflexivity|]. rewrite !sapp_cons, IH. reflexivity.
Qed.

Lemma sapp_nil_r (a : string) : (a ++ "" = a)%string.
Proof.
  induction a as [|x a IH]; [reflexivity|]. rewrite sapp_cons, IH. reflexivity.
Qed.

(** [t] occurs in [s]. *)
Definition occurs (t s : string) : Prop :=
  exists a b, s = (a ++ t ++ b)%string.

Lemma startsWith_prefix s t :
  startsWith s t = true <-> exists b, s = (t ++ b)%string.
Proof.
  revert s. induction t as [|c t IH]; intros s.
  - split; [intros _; exists s; reflexivity | intros _; destruct s; reflexivity].
  - destruct s as [|a s]; cbn [startsWith].
    + split; [discriminate | intros [b Hb]; discriminate].
    + rewrite andb_true_iff, IH, Ascii.eqb_eq. split.
      * intros [-> [b ->]]. exists b. reflexivity.
      * intros [b [= -> ->]]. split; [reflexivity|]. exists b. reflexivity.
Qed.

Lemma includes_occurs s t : includes s t = true <-> occurs t s.
Proof.
  unfold occurs. induction s as [|c s IH]; cbn [includes].
  - rewrite orb_false_r, startsWith_prefix. split.
    + intros [b Hb]. exists EmptyString, b. exact Hb.
    + intros ([|x a] & b & Hb); [exists b; exact Hb | discriminate].
  - rewrite orb_true_iff, IH, startsWith_prefix. split.
    + intros [[b Hb] | (a & b & ->)].
      * exists EmptyString, b. exact Hb.
      * exists (String c a), b. reflexivity.
    + intros ([|x a] & b & Hb).
      * left. exists b. exact Hb.
      * right. injection Hb as -> ->. exists a, b. reflexivity.
Qed.

Lemma occurs_trans t u s : occurs t u -> occurs u s -> occurs t s.
Proof.
  intros (a & b & ->) (a' & b' & ->).
  exists (a' ++ a)%string, (b ++ b')%string. rewrite !sapp_assoc. reflexivity.
Qed.

Lemma occurs_refl s : occurs s s.
Proof. exists EmptyString, EmptyString. rewrite sapp_nil_l, sapp_nil_r. reflexivity. Qed.

Lemma occurs_cons t c s : occurs t s -> occurs t (String c s).
Proof. intros (a & b & ->). exists (String c a), b. reflexivity. Qed.

Lemma smap_app f (a b : string) : smap f (a ++ b) = (smap f a ++ smap f b)%string.
Proof.
  induction a as [|x a IH]; [reflexivity|].
  rewrite sapp_cons. cbn [smap]. rewrite sapp_cons, IH. reflexivity.
Qed.

Lemma occurs_toLowerCase t s : occurs t s -> occurs (toLowerCase t) (toLowerCase s).
Proof.
  intros (a & b & ->). exists (toLowerCase a), (toLowerCase b).
  unfold toLowerCase. rewrite !smap_app. reflexivity.
Qed.

(** ** Pieces of a split occur in the string *)

Lemma split_on_pieces p s :
  (exists h rest b, split_on p s = h :: rest /\ s = (h ++ b)%string)
  /\ forall piece, piece ∈ split_on p s -> occurs piece s.
Proof.
  induction s as [|c s [(h & rest & b & Hsplit & Hs) IH]]; cbn [split_on].
  - split; [exists EmptyString, [], EmptyString; auto|].
    intros piece Hin. apply list_elem_of_singleton in Hin. subst piece.
    apply occurs_refl.
  - destruct (p c).
    + split; [exists EmptyString, (split_on p s), (String c s); auto|].
      intros piece Hin. apply elem_of_cons in Hin as [->|Hin].
      * exists EmptyString, (String c s). reflexivity.
      * apply occurs_cons, IH, Hin.
    + rewrite Hsplit. cbn [cons_head]. split.
      * exists (String c h), rest, b. split; [reflexivity|].
        rewrite sapp_cons. f_equal. exact Hs.
      * intros piece Hin. apply elem_of_cons in Hin as [->|Hin].
        -- exists EmptyString, b. rewrite sapp_nil_l, sapp_cons. f_equal. exact Hs.
        -- apply occurs_cons, IH. rewrite Hsplit. apply list_elem_of_further, Hin.
Qed.

Lemma split_runs_pieces p s : forall in_run,
  (in_run = false ->
   exists h rest b, split_runs_from p in_run s = h :: rest /\ s = (h ++ b)%string)
  /\ forall piece, piece ∈ split_runs_from p in_run s -> occurs piece s.
Proof.
  induction s as [|c s IH]; intros in_run; cbn [split_runs_from].
  - split; [intros _; exists EmptyString, [], EmptyString; auto|].
    intros piece Hin. apply list_elem_of_singleton in Hin. subst piece.
    apply occurs_refl.
  - destruct (p c).
    + destruct (IH true) as [_ IHin]. destruct in_run.
      * split; [discriminate|].
        intros piece Hin. apply occurs_cons, IHin, Hin.
      * split;
          [intros _; exists EmptyString, (split_runs_from p true s), (String c s); auto|].
        intros piece Hin. apply elem_of_cons in Hin as [->|Hin].
        -- exists EmptyString, (String c s). reflexivity.
        -- apply occurs_cons, IHin, Hin.
    + destruct (IH false) as [Hhead IHin].
      destruct (Hhead eq_refl) as (h & rest & b & Hsplit & Hs).
      rewrite Hsplit. cbn [cons_head]. split.
      * intros _. exists (String c h), rest, b. split; [reflexivity|].
        rewrite sapp_cons. f_equal. exact Hs.
      * intros piece Hin. apply elem_of_cons in Hin as [->|Hin].
        -- exists EmptyString, b. rewrite sapp_nil_l, sapp_cons. f_equal. exact Hs.
        -- apply occurs_cons, IHin. rewrite Hsplit. apply list_elem_of_further, Hin.
Qed.

End SubstringFacts.

Module IndexedTermFacts.
Import JS ManticEngine NormalizeFacts MonotoneFacts SubstringFacts.

(** A term without hyphen, underscore and white space. *)
Definition separator_free (t : string) : bool :=
  sall (fun c => negb (is_separator c)) t.

(** ** Collapsing separators keeps the separator-free substrings *)

Lemma collapse_prefix t : forall in_run b,
  separator_free t = true ->
  exists b', collapse_runs_from is_separator in_run (t ++ b) = (t ++ b')%string.
Proof.
  induction t as [|c t IH]; intros in_run b Hfree.
  - exists (collapse_runs_from is_separator in_run b). reflexivity.
  - cbn [separator_free sall] in Hfree. apply andb_prop in Hfree as [Hc Hfree].
    apply negb_true_iff in Hc. rewrite sapp_cons. cbn [collapse_runs_from].
    rewrite Hc. destruct (IH false b Hfree) as [b' ->].
    exists b'. reflexivity.
Qed.

Lemma collapse_occurs t s : forall in_run,
  separator_free t = true -> occurs t s ->
  occurs t (collapse_runs_from is_separator in_run s).
Proof.
  intros in_run Hfree (a & b & ->). revert in_run.
  induction a as [|c a IH]; intros in_run.
  - rewrite sapp_nil_l. destruct (collapse_prefix t in_run b Hfree) as [b' ->].
    exists EmptyString, b'. reflexivity.
  - rewrite sapp_cons. cbn [collapse_runs_from].
    destruct (is_separator c); [destruct in_run|]; try apply occurs_cons; apply IH.
Qed.

Lemma collapsed_prefix t : forall s b',
  separator_free t = true ->
  collapse_runs_from is_separator false s = (t ++ b')%string ->
  exists b, s = (t ++ b)%string.
Proof.
  induction t as [|c t IH]; intros s b' Hfree Heq.
  - exists s. reflexivity.
  - cbn [separator_free sall] in Hfree. apply andb_prop in Hfree as [Hc Hfree].
    apply negb_true_iff in Hc. rewrite sapp_cons in Heq.
    destruct s as [|d s]; [discriminate|]. cbn [collapse_runs_from] in Heq.
    destruct (is_separator d) eqn:Ed.
    + injection Heq as <- _. discriminate.
    + injection Heq as -> Heq. destruct (IH s b' Hfree Heq) as [b ->].
      exists b. reflexivity.
Qed.

Lemma collapsed_occurs t s : forall in_run,
  separator_free t = true ->
  occurs t (collapse_runs_from is_separator in_run s) -> occurs t s.
Proof.
  intros in_run Hfree. revert in_run.
  induction s as [|c s IH]; intros in_run (a' & b' & Heq).
  - cbn in Heq. destruct a' as [|x a']; [|discriminate].
    rewrite sapp_nil_l in Heq. destruct t as [|y t]; [|discriminate].
    apply occurs_refl.
  - destruct t as [|y t]; [exists EmptyString, (String c s); reflexivity|].
    cbn [collapse_runs_from] in Heq.
    assert (is_separator y = false) as Hy.
    { cbn [separator_free sall] in Hfree. apply andb_prop in Hfree as [Hy _].
      apply negb_true_iff, Hy. }
    destruct (is_separator c) eqn:Ec; [destruct in_run|].
    + apply occurs_cons, (IH true). exists a', b'. exact Heq.
    + destruct a' as [|x a'].
      * rewrite sapp_nil_l, sapp_cons in Heq. injection Heq as <- _. discriminate.
      * rewrite sapp_cons in Heq. injection Heq as _ Heq.
        apply occurs_cons, (IH true). exists a', b'. exact Heq.
    + destruct a' as [|x a'].
      * rewrite sapp_nil_l, sapp_cons in Heq. injection Heq as <- Heq.
        cbn [separator_free sall] in Hfree. apply andb_prop in Hfree as [_ Hfree].
        destruct (collapsed_prefix t s b' Hfree Heq) as [b ->].
        exists EmptyString, b. reflexivity.
      * rewrite sapp_cons in Heq. injection Heq as _ Heq.
        apply occurs_cons, (IH false). exists a', b'. exact Heq.
Qed.

(** ** Lower-cased text *)

Lemma lower_char_not_upper c : is_upper (lower_char c) = false.
Proof. destruct c as [[] [] [] [] [] [] [] []]; reflexivity. Qed.

Lemma toLowerCase_head s :
  Regex.head_char (toLowerCase s) = option_map lower_char (Regex.head_char s).
Proof. destruct s; reflexivity. Qed.

Lemma toLowerCase_no_camel s : no_camel (toLowerCase s) = true.
Proof.
  induction s as [|c s IH]; [reflexivity|].
  change (toLowerCase (String c s)) with (String (lower_char c) (toLowerCase s)).
  rewrite no_camel_cons, toLowerCase_head.
  destruct (Regex.head_char s) as [d|]; [|reflexivity]. cbn [option_map].
  rewrite lower_char_not_upper, andb_false_r. exact IH.
Qed.

Lemma normalizeSeparators_lower s :
  normalizeSeparators (toLowerCase s)
  = collapse_runs is_separator (toLowerCase s).
Proof.
  unfold normalizeSeparators. rewrite no_camel_fixed by apply toLowerCase_no_camel.
  reflexivity.
Qed.

(** A separator-free term occurs in the normalized form of a lower-cased
    text exactly when it occurs in the text. *)
Lemma includes_normalized_lower t s :
  separator_free t = true ->
  includes (normalizeSeparators (toLowerCase s)) t = includes (toLowerCase s) t.
Proof.
  intros Hfree. rewrite normalizeSeparators_lower. unfold collapse_runs.
  apply eq_true_iff_eq. rewrite !includes_occurs. split.
  - apply collapsed_occurs, Hfree.
  - apply collapse_occurs, Hfree.
Qed.

(** ** The fields of an index entry *)

Lemma List_last_elem (l : list string) d : l <> [] -> List.last l d ∈ l.
Proof.
  induction l as [|x l IH]; [congruence|]. intros _.
  destruct l as [|y l]; [apply list_elem_of_here|].
  change (List.last (x :: y :: l) d) with (List.last (y :: l) d).
  apply list_elem_of_further, IH. discriminate.
Qed.

Lemma removelast_elem (l : list string) x : x ∈ List.removelast l -> x ∈ l.
Proof.
  induction l as [|y l IH]; [intros H; exact H|].
  destruct l as [|z l]; [intros H; inversion H|].
  change (List.removelast (y :: z :: l)) with (y :: List.removelast (z :: l)).
  intros H. apply elem_of_cons in H as [->|H]; [apply list_elem_of_here|].
  apply list_elem_of_further, IH, H.
Qed.

Lemma split_on_nonempty p s : split_on p s <> [].
Proof.
  destruct (split_on_pieces p s) as [(h & rest & b & -> & _) _]. discriminate.
Qed.

Section IndexedTerm.
Variable p : string.
Variable t : string.
Hypothesis t_free : separator_free t = true.
Hypothesis t_absent : includes (normalized (index_entry p)) t = false.

Lemma absent_from_lower : includes (toLowerCase p) t = false.
Proof.
  rewrite <- includes_normalized_lower by exact t_free. exact t_absent.
Qed.

(** No component of the path, lower-cased, holds the term. *)
Lemma absent_from_component part :
  part ∈ split_on is_path_separator p -> includes (toLowerCase part) t = false.
Proof.
  intros Hin. apply not_true_is_false. intros Hocc.
  apply includes_occurs in Hocc.
  apply split_on_pieces, occurs_toLowerCase in Hin.
  pose proof (occurs_trans _ _ _ Hocc Hin) as H.
  apply includes_occurs in H. rewrite absent_from_lower in H. discriminate.
Qed.

Lemma t_nonempty : t <> EmptyString.
Proof.
  intros Ht. pose proof absent_from_lower as H. rewrite Ht in H.
  destruct (toLowerCase p); discriminate.
Qed.

Lemma index_no_component part :
  part ∈ pathParts (index_entry p) -> includes part t = false.
Proof.
  cbn [index_entry pathParts]. intros Hin.
  apply list_elem_of_In, in_map_iff in Hin as (part0 & <- & Hin).
  apply absent_from_component, list_elem_of_In, Hin.
Qed.

Lemma fileName_component :
  fileName (index_entry p) ∈ split_on is_path_separator p.
Proof.
  cbn [index_entry fileName]. unfold last_or.
  apply List_last_elem, split_on_nonempty.
Qed.

Lemma parentDirLower_absent :
  includes (parentDirLower (index_entry p)) t = false.
Proof.
  cbn [index_entry parentDirLower].
  destruct (1 <? Z.of_nat (length (split_on is_path_separator p))) eqn:E.
  - apply absent_from_component. unfold before_last_or.
    apply removelast_elem, List_last_elem.
    apply Z.ltb_lt in E. intros Hnil.
    destruct (split_on is_path_separator p) as [|x [|y l]];
      [cbn in E; lia | cbn in E; lia | cbn in Hnil; discriminate Hnil].
  - pose proof t_nonempty as Hne. revert Hne. generalize t.
    intros [|c s] Hne; [congruence|reflexivity].
Qed.

Lemma index_not_structural : structuralTerm (index_entry p) t = (5, false).
Proof.
  unfold structuralTerm.
  assert (includes (fileNameNormalized (index_entry p)) t = false) as Hname.
  { cbn [index_entry fileNameNormalized].
    rewrite includes_normalized_lower by exact t_free.
    apply absent_from_component, fileName_component. }
  replace (existsb _ _) with false.
  2:{ symmetry. apply not_true_is_false. intros H.
      apply existsb_exists in H as (word & Hin & Hword).
      apply list_elem_of_In in Hin.
      apply (split_runs_pieces is_word_separator _ false) in Hin.
      assert (occurs t word) as Hocc.
      { apply orb_prop in Hword as [Heq|Hstart].
        - apply String.eqb_eq in Heq. subst word. apply occurs_refl.
        - apply includes_occurs, startsWith_includes, Hstart. }
      pose proof (occurs_trans _ _ _ Hocc Hin) as Hfull.
      apply includes_occurs in Hfull. congruence. }
  replace (String.eqb (parentDirLower (index_entry p)) t) with false.
  2:{ symmetry. apply String.eqb_neq. intros Heq.
      pose proof parentDirLower_absent as H. rewrite Heq, includes_refl in H.
      discriminate. }
  replace (includes (parentDirNormalized (index_entry p)) t) with false;
    [reflexivity|].
  symmetry. pose proof parentDirLower_absent as H.
  cbn [index_entry parentDirNormalized parentDirLower] in H |- *.
  rewrite includes_normalized_lower by exact t_free. exact H.
Qed.

(** For an entry of the index and fixed query strings, one more term that
    is separator-free and absent from the normalized path does not raise
    the score, unless it is the third term of a query without a slash. *)
Lemma scoreEntry_absent_term terms fullQueryLower originalQuery :
  length terms <> 2%nat \/ includes originalQuery "/" = true ->
  scoreEntry (index_entry p) (terms ++ [t])%list fullQueryLower originalQuery
  <= scoreEntry (index_entry p) terms fullQueryLower originalQuery.
Proof.
  apply scoreEntry_unmatched_term.
  - apply index_no_component.
  - apply index_not_structural.
  - exact t_absent.
Qed.

End IndexedTerm.

(** ** The terms of a query are separator-free *)

Lemma sall_impl (P Q : ascii -> bool) s :
  (forall c, P c = true -> Q c = true) -> sall P s = true -> sall Q s = true.
Proof.
  intros HPQ. induction s as [|c s IH]; [reflexivity|]. cbn [sall].
  intros H. apply andb_prop in H as [Hc Hs]. rewrite (HPQ c Hc), IH; auto.
Qed.

Lemma split_runs_sall (P p : ascii -> bool) s : forall in_run piece,
  sall P s = true -> piece ∈ split_runs_from p in_run s ->
  sall (fun c => P c && negb (p c)) piece = true.
Proof.
  induction s as [|c s IH]; intros in_run piece Hs Hin; cbn [split_runs_from] in Hin.
  - apply list_elem_of_singleton in Hin. subst piece. reflexivity.
  - cbn [sall] in Hs. apply andb_prop in Hs as [Hc Hs].
    destruct (p c) eqn:Ep.
    + destruct in_run; [apply (IH true), Hin; exact Hs|].
      apply elem_of_cons in Hin as [->|Hin]; [reflexivity|].
      apply (IH true), Hin. exact Hs.
    + destruct (split_runs_from p false s) as [|h rest] eqn:Esplit;
        cbn [cons_head] in Hin.
      * apply list_elem_of_singleton in Hin. subst piece.
        cbn [sall]. rewrite Hc, Ep. reflexivity.
      * apply elem_of_cons in Hin as [->|Hin].
        -- cbn [sall]. rewrite Hc, Ep. cbn [negb andb].
           apply (IH false); [exact Hs|]. rewrite Esplit. apply list_elem_of_here.
        -- apply (IH false); [exact Hs|]. rewrite Esplit.
           apply list_elem_of_further, Hin.
Qed.

Lemma single_spaced_sall s :
  single_spaced s = true ->
  sall (fun c => negb (is_separator c) || Ascii.eqb c " ") s = true.
Proof.
  induction s as [|c s IH]; [reflexivity|].
  rewrite single_spaced_cons. intros H.
  apply andb_prop in H as [H Hs]. apply andb_prop in H as [Hc _].
  cbn [sall]. rewrite (IH Hs), andb_true_r.
  destruct (is_separator c); [exact Hc|reflexivity].
Qed.

Lemma lower_char_separator c :
  negb (is_separator c) || Ascii.eqb c " " = true ->
  negb (is_separator (lower_char c)) || Ascii.eqb (lower_char c) " " = true.
Proof. destruct c as [[] [] [] [] [] [] [] []]; intros H; exact H || reflexivity. Qed.

Lemma smap_sall (P Q : ascii -> bool) f s :
  (forall c, P c = true -> Q (f c) = true) -> sall P s = true ->
  sall Q (smap f s) = true.
Proof.
  intros HPQ. induction s as [|c s IH]; [reflexivity|]. cbn [sall smap].
  intros H. apply andb_prop in H as [Hc Hs]. rewrite (HPQ c Hc), IH; auto.
Qed.

(** Every term [search] passes to [scoreEntry] is separator-free. *)
Lemma queryTerms_separator_free query term :
  term ∈ queryTerms (toLowerCase (normalizeSeparators (trim query))) ->
  separator_free term = true.
Proof.
  unfold queryTerms, filter_nonempty. intros Hin.
  apply list_elem_of_In, filter_In in Hin as [Hin _].
  apply list_elem_of_In in Hin.
  eapply (split_runs_sall
            (fun c => negb (is_separator c) || Ascii.eqb c " ") is_space) in Hin.
  - unfold separator_free. revert Hin. apply sall_impl.
    intros c. destruct c as [[] [] [] [] [] [] [] []]; intros H; exact H || reflexivity.
  - unfold toLowerCase.
    apply (smap_sall (fun c => negb (is_separator c) || Ascii.eqb c " ")).
    + apply lower_char_separator.
    + apply single_spaced_sall, normalizeSeparators_normal.
Qed.

End IndexedTermFacts.

(** * One more term in the query *)

Module QueryTermFacts.
Import JS ManticEngine SortFacts SearchFacts NormalizeFacts MonotoneFacts
       SubstringFacts IndexedTermFacts.

(** ** The checks that answer a query with a fixed score *)

(** One of the three exact-match checks of [scoreEntry] returns for the
    record, with the strings that [search] passes for the query. *)
Definition answeredExactly (entry : FileEntry) (query : string) : bool :=
  let queryLower := toLowerCase (normalizeSeparators (trim query)) in
  String.eqb (fileNameLower entry) queryLower
  || String.eqb (fileNameNormalized entry) queryLower
  || String.eqb (toLowerCase (strip_last_ext (fileName entry)))
                (strip_last_ext queryLower).

(** The sum of the blocks after the extension filter. *)
Definition heuristics (entry : FileEntry) (terms : list string)
    (originalQuery : string) : Z :=
  directoryBoost entry terms originalQuery
  + softAnd entry terms + 50
  + pathSequence entry terms originalQuery
  + structuralSpecificity entry terms
  + adjacencyBonus entry (toLowerCase (normalizeSeparators originalQuery))
  + extensionWeight entry
  + definitionBoost entry.

Lemma scoreOf_heuristics query entry :
  answeredExactly entry query = false ->
  scoreOf query entry =
  if extensionDisqualified entry (trim query) then 0
  else Z.max 0 (heuristics entry
                  (queryTerms (toLowerCase (normalizeSeparators (trim query))))
                  (trim query)).
Proof.
  unfold answeredExactly, scoreOf, scoreEntry, heuristics. cbn zeta. intros H.
  apply orb_false_iff in H as [H HB]. apply orb_false_iff in H as [HA HA2].
  rewrite HA, HA2, HB.
  destruct (extensionDisqualified entry (trim query)); [reflexivity|].
  first [reflexivity | f_equal; lia].
Qed.

(** ** The query without its white space *)

Definition joined (pieces : list string) : string :=
  fold_right String.append EmptyString pieces.

Lemma joined_snoc pieces piece :
  joined (pieces ++ [piece])%list = (joined pieces ++ piece)%string.
Proof.
  induction pieces as [|h pieces IH]; cbn [app joined fold_right].
  - rewrite sapp_nil_r, sapp_nil_l. reflexivity.
  - fold (joined (pieces ++ [piece])%list). fold (joined pieces).
    rewrite IH, sapp_assoc. reflexivity.
Qed.

Lemma filter_nonempty_cons_head c pieces :
  pieces <> [] ->
  joined (filter_nonempty (cons_head c pieces))
  = String c (joined (filter_nonempty pieces)).
Proof.
  destruct pieces as [|h pieces]; [congruence|]. intros _.
  cbn [cons_head]. unfold filter_nonempty. cbn [List.filter is_empty negb].
  destruct h as [|d h]; cbn [is_empty negb joined fold_right]; reflexivity.
Qed.

Lemma split_runs_from_nonempty p s : forall in_run,
  split_runs_from p in_run s <> [].
Proof.
  induction s as [|c s IH]; intros in_run; cbn [split_runs_from]; [discriminate|].
  destruct (p c).
  - destruct in_run; [apply IH | discriminate].
  - specialize (IH false). destruct (split_runs_from p false s); [congruence|].
    discriminate.
Qed.

Lemma sfilter_joined p s : forall in_run,
  sfilter (fun c => negb (p c)) s
  = joined (filter_nonempty (split_runs_from p in_run s)).
Proof.
  induction s as [|c s IH]; intros in_run; cbn [sfilter split_runs_from];
    [reflexivity|].
  destruct (p c); cbn [negb].
  - destruct in_run; [apply IH|].
    unfold filter_nonempty. cbn [List.filter is_empty negb]. apply IH.
  - rewrite filter_nonempty_cons_head by apply split_runs_from_nonempty.
    rewrite <- IH. reflexivity.
Qed.

Lemma includes_prefix s a b :
  includes s (a ++ b) = true -> includes s a = true.
Proof.
  rewrite !includes_occurs. intros (x & y & ->).
  exists x, (b ++ y)%string. rewrite sapp_assoc. reflexivity.
Qed.

Lemma adjacencyBonus_one_more entry normalizedQuery normalizedQuery' term :
  queryTerms normalizedQuery' = (queryTerms normalizedQuery ++ [term])%list ->
  adjacencyBonus entry normalizedQuery' <= adjacencyBonus entry normalizedQuery.
Proof.
  intros Hterms. unfold adjacencyBonus.
  rewrite (sfilter_joined is_space normalizedQuery' false).
  rewrite (sfilter_joined is_space normalizedQuery false).
  fold (split_runs is_space normalizedQuery').
  fold (split_runs is_space normalizedQuery).
  fold (queryTerms normalizedQuery') (queryTerms normalizedQuery).
  rewrite Hterms, joined_snoc.
  set (path := sfilter _ (normalized entry)).
  destruct (includes path (joined (queryTerms normalizedQuery) ++ term)) eqn:E.
  - apply includes_prefix in E. rewrite E. lia.
  - destruct (includes path (joined (queryTerms normalizedQuery))); lia.
Qed.

(** ** The path-sequence block *)

Lemma pathStep_bounds entry st t :
  0 <= pathScore st -> 0 <= consecutiveMatches st ->
  0 <= pathScore (pathStep entry st t)
  /\ 0 <= consecutiveMatches (pathStep entry st t).
Proof.
  intros Hs Hc. unfold pathStep.
  destruct (findPathPart t (lastMatchIndex st) 0 (pathParts entry) (-1))
    as [matchIndex isExactMatch].
  destruct (lastMatchIndex st <? matchIndex);
    cbn [pathScore consecutiveMatches]; [|lia].
  destruct isExactMatch; lia.
Qed.

Lemma fold_pathStep_bounds entry terms : forall st,
  0 <= pathScore st -> 0 <= consecutiveMatches st ->
  0 <= pathScore (fold_left (pathStep entry) terms st).
Proof.
  induction terms as [|t terms IH]; intros st Hs Hc; [exact Hs|].
  cbn [fold_left]. destruct (pathStep_bounds entry st t Hs Hc). apply IH; assumption.
Qed.

Lemma pathSequence_nonneg entry terms originalQuery :
  0 <= pathSequence entry terms originalQuery.
Proof.
  unfold pathSequence. destruct (_ || _); [|lia].
  pose proof (fold_pathStep_bounds entry terms (mkPathState 0 (-1) 0)) as H.
  cbn [pathScore consecutiveMatches] in H. specialize (H ltac:(lia) ltac:(lia)).
  destruct (_ && _); [|exact H]. destruct (allConsecutive _ _ _); lia.
Qed.

(** The block reads the query only for its slashes. *)
Lemma pathSequence_slashes entry terms originalQuery originalQuery' :
  includes originalQuery "/" || (3 <=? Z.of_nat (length terms))
  = includes originalQuery' "/" || (3 <=? Z.of_nat (length terms)) ->
  pathSequence entry terms originalQuery = pathSequence entry terms originalQuery'.
Proof. unfold pathSequence. intros ->. reflexivity. Qed.

Section OneMoreTerm.
Variable entry : FileEntry.
Variable term : string.
Hypothesis no_component :
  forall part, part ∈ pathParts entry -> includes part term = false.

(** With the slashes of another query: when the block was off for fewer
    than two terms and the longer query brings a slash, the block comes on
    and can give the 35 points of one exact match. *)
Lemma pathSequence_one_more terms originalQuery originalQuery' :
  length terms <> 2%nat \/ includes originalQuery "/" = true ->
  pathSequence entry (terms ++ [term])%list originalQuery'
  <= pathSequence entry terms originalQuery + 35.
Proof.
  intros Hactive.
  pose proof (pathSequence_nonneg entry terms originalQuery) as Hnonneg.
  destruct (includes originalQuery' "/"
            || (3 <=? Z.of_nat (length (terms ++ [term])%list))) eqn:Eon'.
  2:{ unfold pathSequence at 1. rewrite Eon'. lia. }
  destruct (includes originalQuery "/" || (3 <=? Z.of_nat (length terms)))
    eqn:Eon.
  - (* on for both *)
    assert (pathSequence entry (terms ++ [term])%list originalQuery'
            = pathSequence entry (terms ++ [term])%list originalQuery) as ->.
    { apply pathSequence_slashes. rewrite Eon'.
      symmetry. rewrite length_app in *. cbn [length] in *.
      destruct (includes originalQuery "/"); [reflexivity|]. cbn [orb] in *.
      apply Z.leb_le in Eon. apply Z.leb_le. lia. }
    pose proof (pathSequence_append entry term no_component terms originalQuery
                  Hactive). lia.
  - (* switched on by a slash of the longer query *)
    apply orb_false_iff in Eon as [Eslash Eshort].
    destruct Hactive as [Hlen|Hs]; [|congruence].
    apply Z.leb_gt in Eshort.
    assert (pathSequence entry terms originalQuery = 0) as ->.
    { unfold pathSequence. rewrite Eslash. cbn [orb].
      replace (3 <=? Z.of_nat (length terms)) with false
        by (symmetry; apply Z.leb_gt; lia). reflexivity. }
    unfold pathSequence. rewrite Eon'.
    replace (3 <=? Z.of_nat (length (terms ++ [term])%list)) with false.
    2:{ symmetry. apply Z.leb_gt. rewrite length_app. cbn [length]. lia. }
    rewrite andb_false_r.
    destruct terms as [|x [|y terms]]; cbn [length] in *; try lia.
    + cbn [app fold_left].
      rewrite (pathStep_unmatched entry term no_component) by (cbn; lia).
      cbn [pathScore]. lia.
    + cbn [app fold_left].
      set (st := pathStep entry (mkPathState 0 (-1) 0) x).
      assert (-1 <= lastMatchIndex st) as Hlast
        by (apply pathStep_lastMatchIndex; cbn; lia).
      rewrite (pathStep_unmatched entry term no_component st Hlast).
      cbn [pathScore]. unfold st, pathStep.
      destruct (findPathPart x _ 0 (pathParts entry) (-1))
        as [matchIndex isExactMatch].
      cbn [lastMatchIndex pathScore consecutiveMatches].
      destruct (-1 <? matchIndex); cbn [pathScore]; [|lia].
      destruct isExactMatch; lia.
Qed.

Hypothesis not_structural : structuralTerm entry term = (5, false).
Hypothesis not_in_path : includes (normalized entry) term = false.

Lemma heuristics_one_more terms originalQuery originalQuery' :
  queryTerms (toLowerCase (normalizeSeparators originalQuery'))
  = (queryTerms (toLowerCase (normalizeSeparators originalQuery)) ++ [term])%list ->
  length terms <> 2%nat \/ includes originalQuery "/" = true ->
  heuristics entry (terms ++ [term])%list originalQuery'
  <= heuristics entry terms originalQuery.
Proof.
  intros Hterms Hactive. unfold heuristics.
  assert (directoryBoost entry (terms ++ [term])%list originalQuery'
          <= directoryBoost entry terms originalQuery) as Hboost.
  { destruct terms as [|x terms].
    - cbn [app]. unfold directoryBoost.
      rewrite (not_a_component entry term no_component).
      destruct (_ && _); cbn; lia.
    - assert (directoryBoost entry ((x :: terms) ++ [term])%list originalQuery' = 0)
        as ->.
      { unfold directoryBoost. destruct terms; reflexivity. }
      apply directoryBoost_nonneg. }
  pose proof (pathSequence_one_more terms originalQuery originalQuery' Hactive).
  pose proof (structuralSpecificity_append entry term not_structural terms).
  pose proof (adjacencyBonus_one_more entry _ _ term Hterms).
  rewrite (softAnd_unmatched entry term not_in_path). lia.
Qed.

End OneMoreTerm.

End QueryTermFacts.

(* ===================================================================== *)
(** * Properties of the specification                                     *)
(* ===================================================================== *)

Module ScorerClaims.
Import JS ManticEngine SortFacts SearchFacts NormalizeFacts IndexedTermFacts
       QueryTermFacts.

(** ** Separator normalization *)

(** C5 (as the code has it).  [normalizeSeparators] is idempotent.  It
    splits CamelCase and collapses runs of hyphens, underscores and white
    space into one space, and it leaves the case of the letters alone:
    "ScriptController" becomes "Script Controller".  The callers fold the
    case: lower-cased, the result is "script controller", which is also
    what "script_controller" normalizes to. *)
Theorem normalizeSeparators_idempotent :
  (forall x, normalizeSeparators (normalizeSeparators x) = normalizeSeparators x)
  /\ normalizeSeparators "ScriptController" = "Script Controller"
  /\ toLowerCase (normalizeSeparators "ScriptController") = "script controller"
  /\ normalizeSeparators "script_controller" = "script controller".
Proof.
  split; [exact normalizeSeparators_idempotent_all|].
  repeat split; reflexivity.
Qed.

(** C5, refuted as stated: [normalizeSeparators] does not lower-case, so
    "ScriptController" and "script_controller" are not normalized to the
    same string. *)
Lemma normalizeSeparators_keeps_case :
  normalizeSeparators "ScriptController" <> "script controller"
  /\ normalizeSeparators "ScriptController"
     <> normalizeSeparators "script_controller".
Proof. split; intros H; vm_compute in H; discriminate H. Qed.

(** ** [scoreEntry] *)

Lemma scoreEntry_exact_filename entry terms fullQueryLower originalQuery :
  fileNameLower entry = fullQueryLower ->
  scoreEntry entry terms fullQueryLower originalQuery = 10000.
Proof.
  intros H. unfold scoreEntry. apply String.eqb_eq in H. rewrite H. reflexivity.
Qed.




(** C4, the code at the failing input: [search] hands the normalized query
    to [scoreEntry], the underscore of the query has become a space, the
    comparison with the lower-cased file name fails and the record gets
    9000 from the next check. *)
Lemma exact_filename_query_scores_9000 :
  fileNameLower (index_entry "src/net/download_manager.cc") = "download_manager.cc"
  /\ search (buildIndex ["src/net/download_manager.cc"]) "download_manager.cc" 100
     = [ {| file := "src/net/download_manager.cc"; score := 9000;
            matchType := exact |} ]
  /\ search (buildIndex ["src/FooBar.ts"]) "FooBar.ts" 100
     = [ {| file := "src/FooBar.ts"; score := 145; matchType := fuzzy |} ].
Proof. repeat split; vm_compute; reflexivity. Qed.

(** ** Monotonicity *)

(** C7 (as the code has it).  In the soft-AND block one more term adds 10
    when it occurs in the normalized path of the record and takes 50 away
    when it does not.  For a record of the index and two queries of which
    the second has the terms of the first and one more after them, a term
    that does not occur in the normalized path of the record: the score
    that [search] computes for the second query is not above the score for
    the first one, provided that neither query is answered by one of the
    three exact-match checks, that the extension filter does not reject
    the record for the first query only, and that the term is not the
    third term of a query without a slash, which switches the
    path-sequence block on.  A term that occurs in the path can lower the
    score. *)
Theorem scoreEntry_one_more_term p query query' term :
  let entry := index_entry p in
  let terms := queryTerms (toLowerCase (normalizeSeparators (trim query))) in
  queryTerms (toLowerCase (normalizeSeparators (trim query')))
  = (terms ++ [term])%list ->
  softAnd entry (terms ++ [term])%list
  = softAnd entry terms
    + (if includes (normalized entry) term then 10 else -50)
  /\ (includes (normalized entry) term = false ->
      answeredExactly entry query = false ->
      answeredExactly entry query' = false ->
      (extensionDisqualified entry (trim query) = true ->
       extensionDisqualified entry (trim query') = true) ->
      length terms <> 2%nat \/ includes (trim query) "/" = true ->
      scoreOf query' entry <= scoreOf query entry).
Proof.
  cbn zeta. intros Hterms. split.
  - unfold softAnd, softAndTerm. rewrite fold_left_app. reflexivity.
  - intros Habsent Hexact Hexact' Hfilter Hthird.
    assert (separator_free term = true) as Hfree.
    { apply (queryTerms_separator_free query'). rewrite Hterms.
      apply elem_of_app. right. apply list_elem_of_here. }
    rewrite (scoreOf_heuristics query' _ Hexact'),
            (scoreOf_heuristics query _ Hexact), Hterms.
    destruct (extensionDisqualified (index_entry p) (trim query')) eqn:Efilter'.
    { destruct (extensionDisqualified (index_entry p) (trim query)); lia. }
    destruct (extensionDisqualified (index_entry p) (trim query)) eqn:Efilter.
    { specialize (Hfilter eq_refl). discriminate. }
    apply Z.max_le_compat_l.
    apply heuristics_one_more.
    + apply (index_no_component p term Hfree Habsent).
    + apply (index_not_structural p term Hfree Habsent).
    + exact Habsent.
    + exact Hterms.
    + exact Hthird.
Qed.

Lemma scoreEntry_one_more_term_witness :
  includes (normalized (index_entry "a/b/c.ts")) "zzz" = false
  /\ scoreOf "a b c zzz" (index_entry "a/b/c.ts")
     <= scoreOf "a b c" (index_entry "a/b/c.ts").
Proof.
  split; [reflexivity|].
  apply (proj2 (scoreEntry_one_more_term "a/b/c.ts" "a b c" "a b c zzz" "zzz"
                  eq_refl));
    [reflexivity | reflexivity | reflexivity | intros H; exact H
     | left; discriminate].
Defined.

(** Each proviso is needed.  In the four cases the second query has the
    terms of the first and one more, which does not occur in the path, and
    the score rises: the longer query is answered by the check of the file
    name without extension; the shorter query is answered by it and the
    longer one collects more than 5000 points from 130 matching terms; the
    extension filter rejects the record for the shorter query only; the
    term is the third one of a query without a slash. *)
Lemma one_more_term_provisos_needed :
  (let entry := index_entry "docs/release notes.md" in
   queryTerms (toLowerCase (normalizeSeparators (trim "release notes.zzz")))
   = (queryTerms (toLowerCase (normalizeSeparators (trim "release")))
      ++ ["notes.zzz"])%list
   /\ includes (normalized entry) "notes.zzz" = false
   /\ answeredExactly entry "release" = false
   /\ answeredExactly entry "release notes.zzz" = true
   /\ extensionDisqualified entry "release" = false
   /\ scoreOf "release" entry = 162
   /\ scoreOf "release notes.zzz" entry = 5000)
  /\ (let query := String.concat " " (repeat "ab" 130) in
      let entry := index_entry (query ++ ".ts") in
      queryTerms (toLowerCase (normalizeSeparators (trim (query ++ " zzz"))))
      = (queryTerms (toLowerCase (normalizeSeparators (trim query)))
         ++ ["zzz"])%list
      /\ length (queryTerms (toLowerCase (normalizeSeparators (trim query))))
         = 130%nat
      /\ includes (normalized entry) "zzz" = false
      /\ answeredExactly entry query = true
      /\ answeredExactly entry (query ++ " zzz") = false
      /\ extensionDisqualified entry (trim query) = false
      /\ scoreOf query entry = 5000
      /\ scoreOf (query ++ " zzz") entry = 5225)
  /\ (let entry := index_entry "lib.ts/x.py" in
      queryTerms (toLowerCase (normalizeSeparators (trim "lib.ts_zzz")))
      = (queryTerms (toLowerCase (normalizeSeparators (trim "lib.ts")))
         ++ ["zzz"])%list
      /\ includes (normalized entry) "zzz" = false
      /\ answeredExactly entry "lib.ts" = false
      /\ answeredExactly entry "lib.ts_zzz" = false
      /\ extensionDisqualified entry "lib.ts" = true
      /\ extensionDisqualified entry "lib.ts_zzz" = false
      /\ scoreOf "lib.ts" entry = 0
      /\ scoreOf "lib.ts_zzz" entry = 90)
  /\ (let entry := index_entry "a/b/c.ts" in
      queryTerms (toLowerCase (normalizeSeparators (trim "a b zzz")))
      = (queryTerms (toLowerCase (normalizeSeparators (trim "a b")))
         ++ ["zzz"])%list
      /\ includes (normalized entry) "zzz" = false
      /\ answeredExactly entry "a b" = false
      /\ answeredExactly entry "a b zzz" = false
      /\ extensionDisqualified entry "a b" = false
      /\ includes "a b" "/" = false
      /\ scoreOf "a b" entry = 155
      /\ scoreOf "a b zzz" entry = 205).
Proof. cbv zeta. repeat split; vm_compute; reflexivity. Qed.

(** C7, refuted as stated.  "driver" occurs in the path [gpu/driver.ts],
    and the score of the record falls from 8210 for "gpu" to 230 for
    "gpu driver"; "zzz" does not occur in [a/b/c.ts], and the score of the
    record rises from 155 for "a b" to 205 for "a b zzz". *)
Lemma scoreEntry_not_monotone :
  (includes (normalized (index_entry "gpu/driver.ts")) "driver" = true
   /\ scoreOf "gpu" (index_entry "gpu/driver.ts") = 8210
   /\ scoreOf "gpu driver" (index_entry "gpu/driver.ts") = 230
   /\ scoreEntry (index_entry "gpu/driver.ts") ["gpu"; "driver"] "gpu" "gpu"
      < scoreEntry (index_entry "gpu/driver.ts") ["gpu"] "gpu" "gpu")
  /\ (includes (normalized (index_entry "a/b/c.ts")) "zzz" = false
      /\ scoreOf "a b" (index_entry "a/b/c.ts") = 155
      /\ scoreOf "a b zzz" (index_entry "a/b/c.ts") = 205
      /\ scoreEntry (index_entry "a/b/c.ts") ["a"; "b"] "a b" "a b"
         < scoreEntry (index_entry "a/b/c.ts") ["a"; "b"; "zzz"] "a b" "a b").
Proof. repeat split; vm_compute; reflexivity. Qed.

(** ** [search] *)

(** C6.  For a limit that is not negative, every result of [search] has a
    positive score, which is the score of a record of the index; its match
    type is [exact] exactly when the score is above 150 and [fuzzy]
    otherwise; the results are sorted by descending score and, on equal
    scores, ascending length of the path; there are at most [limit] of
    them.  Nothing is left out but by the limit: for a query with a term
    the result is the first [limit] entries of a list, sorted in this way,
    that holds the path and score of every record with a positive score
    once; a query without a term has no result. *)
Theorem search_sorted_positive_truncated index query limit :
  0 <= limit ->
  (has_terms query = true ->
   exists all,
     map (fun r => (file r, score r)) all
     ≡ₚ map (fun entry => (original entry, scoreOf query entry))
          (List.filter (fun entry => 0 <? scoreOf query entry) index)
     /\ StronglySorted ranked_before all
     /\ search index query limit = take (Z.to_nat limit) all)
  /\ (has_terms query = false -> search index query limit = [])
  /\ (forall r, r ∈ search index query limit ->
     0 < score r
     /\ (exists entry, entry ∈ index /\ file r = original entry
                       /\ score r = scoreOf query entry)
     /\ (matchType r = exact <-> 150 < score r)
     /\ (matchType r = fuzzy <-> score r <= 150))
  /\ StronglySorted ranked_before (search index query limit)
  /\ Z.of_nat (length (search index query limit)) <= limit.
Proof.
  intros Hlimit. split; [|split].
  { intros Hterms. exists (sort compareResults (ranked index query)).
    split; [|split].
    - rewrite <- ranked_positive.
      apply (fmap_Permutation (fun r => (file r, score r))), sort_Permutation.
    - apply Sorted_StronglySorted.
      + intros a b c. apply ranked_before_trans.
      + apply sort_compareResults_sorted.
    - rewrite search_unfold, Hterms. apply slice_0_take, Hlimit. }
  { intros Hterms. rewrite search_unfold, Hterms. reflexivity. }
  rewrite search_unfold.
  destruct (has_terms query).
  2:{ split; [intros r Hr; inversion Hr|]. split; [constructor|cbn; lia]. }
  split; [|split].
  - intros r Hr. apply slice_subseteq in Hr. apply sort_elem_of in Hr.
    unfold ranked in Hr. apply list_elem_of_omap in Hr as (entry & Hin & Hsome).
    apply scoreResult_Some in Hsome as (Hfile & Hscore & Hpos & Htype).
    split; [exact Hpos|]. split; [exists entry; auto|].
    rewrite Htype. destruct (150 <? score r) eqn:E.
    + apply Z.ltb_lt in E. split; split; intros; try lia; try reflexivity;
        discriminate.
    + apply Z.ltb_ge in E. split; split; intros; try lia; try reflexivity;
        discriminate.
  - apply Sorted_StronglySorted.
    + intros a b c. apply ranked_before_trans.
    + apply slice_Sorted, sort_compareResults_sorted.
  - rewrite slice_0_take by exact Hlimit. rewrite length_take. lia.
Qed.

Lemma search_sorted_positive_truncated_witness :
  0 <= 2
  /\ StronglySorted ranked_before
       (search (buildIndex ["a/router.ts"; "a/router.test.ts"; "b/Router.tsx"])
               "router" 2)
  /\ exists all,
       map (fun r => (file r, score r)) all
       ≡ₚ map (fun entry => (original entry, scoreOf "router" entry))
            (List.filter (fun entry => 0 <? scoreOf "router" entry)
               (buildIndex ["a/router.ts"; "a/router.test.ts"; "b/Router.tsx"]))
       /\ StronglySorted ranked_before all
       /\ search (buildIndex ["a/router.ts"; "a/router.test.ts"; "b/Router.tsx"])
                 "router" 2 = take 2 all.
Proof.
  split; [lia|].
  destruct (search_sorted_positive_truncated
              (buildIndex ["a/router.ts"; "a/router.test.ts"; "b/Router.tsx"])
              "router" 2) as (Hall & _ & _ & Hsorted & _); [lia|].
  split; [exact Hsorted|]. apply Hall. reflexivity.
Defined.

End ScorerClaims.

Module ParallelClaims.
Import JS ManticEngine ParallelMantic SortFacts SearchFacts ParallelFacts.

(** C1.  When every worker thread runs, the orchestrator, which cuts the
    file list into contiguous chunks, lets each worker return the first
    [limit] results of its own chunk and sorts and truncates their
    concatenation, resolves to the very list that one engine over the whole
    file list returns: the same paths with the same scores in the same
    order, for every number of CPUs and every limit that is not negative.
    No record of the global first [limit] is lost by truncating per chunk. *)
Theorem parallel_search_equals_single_search files cpus query limit :
  0 <= limit ->
  ParallelMantic.search (initWorkers files cpus (fun _ => Runs)) query limit
  = Resolved (ManticEngine.search (buildIndex files) query limit).
Proof.
  intros Hlimit. unfold initWorkers.
  change (imap _ (chunks files cpus))
    with (imap (const (fun chunk => mkWorker (buildIndex chunk) Runs))
               (chunks files cpus)).
  rewrite imap_const.
  change (fmap ?f ?l) with (map f l).
  rewrite search_running_workers by exact Hlimit.
  rewrite concat_chunks. reflexivity.
Qed.

Lemma parallel_search_equals_single_search_witness :
  0 <= 2
  /\ ParallelMantic.search
       (initWorkers ["a/router.ts"; "a/router.test.ts"; "b/Router.tsx"] 4
                    (fun _ => Runs)) "router" 2
     = Resolved
         (ManticEngine.search
            (buildIndex ["a/router.ts"; "a/router.test.ts"; "b/Router.tsx"])
            "router" 2).
Proof.
  split; [lia|].
  apply (parallel_search_equals_single_search
           ["a/router.ts"; "a/router.test.ts"; "b/Router.tsx"] 4 "router" 2).
  lia.
Defined.

(** ** Failures of a worker *)





End ParallelClaims.

(** * The dependency graph *)

Module ImportFacts.
Import JS Regex NodePath DependencyGraph.

(** The recognizers of [extractImports] in their order of precedence; the
    two forms of Python are tried for [.py] files only. *)
Definition recognizers (filepath : string)
  : list (string -> Z -> option ImportStatement) :=
  [ recognizeDefault; recognizeNamed; recognizeStar; recognizeDynamic;
    recognizeRequire ]
  ++ (if endsWith filepath ".py" then [recognizeFromImport; recognizeImport]
      else []).

(** The statement of the first recognizer that matches. *)
Fixpoint firstRecognized (rs : list (string -> Z -> option ImportStatement))
    (line : string) (lineNum : Z) : option ImportStatement :=
  match rs with
  | [] => None
  | r :: rs' =>
      match r line lineNum with
      | Some statement => Some statement
      | None => firstRecognized rs' line lineNum
      end
  end.

Lemma importOfLine_firstRecognized filepath line lineNum :
  importOfLine filepath line lineNum =
  if isCommentLine line then None
  else firstRecognized (recognizers filepath) line lineNum.
Proof.
  unfold importOfLine, recognizers.
  destruct (isCommentLine line); [reflexivity|]. cbn [app firstRecognized].
  destruct (recognizeDefault line lineNum); [reflexivity|].
  destruct (recognizeNamed line lineNum); [reflexivity|].
  destruct (recognizeStar line lineNum); [reflexivity|].
  destruct (recognizeDynamic line lineNum); [reflexivity|].
  destruct (recognizeRequire line lineNum); [reflexivity|].
  destruct (endsWith filepath ".py"); [|reflexivity]. cbn [firstRecognized].
  destruct (recognizeFromImport line lineNum); [reflexivity|].
  destruct (recognizeImport line lineNum); reflexivity.
Qed.

(** Every recognizer stamps its statement with [lineNum + 1]. *)
Definition stamps (r : string -> Z -> option ImportStatement) : Prop :=
  forall l n s, r l n = Some s -> line s = n + 1.

Ltac stamp_by_unfolding :=
  intros l n s; cbv beta delta [recognizeDefault recognizeNamed recognizeStar
    recognizeDynamic recognizeRequire recognizeFromImport recognizeImport];
  repeat match goal with
         | |- context [match ?x with _ => _ end] => destruct x
         | |- context [if ?x then _ else _] => destruct x
         end;
  intros H; inversion H; reflexivity.

Lemma stamps_recognizers filepath r : r ∈ recognizers filepath -> stamps r.
Proof.
  unfold recognizers. intros Hin.
  apply elem_of_app in Hin as [Hin|Hin].
  - repeat (apply elem_of_cons in Hin as [->|Hin]; [stamp_by_unfolding|]).
    inversion Hin.
  - destruct (endsWith filepath ".py"); [|inversion Hin].
    repeat (apply elem_of_cons in Hin as [->|Hin]; [stamp_by_unfolding|]).
    inversion Hin.
Qed.

Lemma firstRecognized_line rs l n s :
  (forall r, r ∈ rs -> stamps r) ->
  firstRecognized rs l n = Some s -> line s = n + 1.
Proof.
  induction rs as [|r rs IH]; intros Hrs; [discriminate|].
  cbn [firstRecognized]. destruct (r l n) as [s'|] eqn:E.
  - intros [= <-]. apply (Hrs r (list_elem_of_here _ _) l n s' E).
  - apply IH. intros r' Hr'. apply Hrs. apply list_elem_of_further, Hr'.
Qed.

Lemma importOfLine_line filepath l n s :
  importOfLine filepath l n = Some s -> line s = n + 1.
Proof.
  rewrite importOfLine_firstRecognized.
  destruct (isCommentLine l); [discriminate|].
  apply firstRecognized_line. apply stamps_recognizers.
Qed.

Lemma scanLines_elem filepath lines : forall start s,
  s ∈ scanLines filepath lines start <->
  exists n l, lines !! n = Some l
              /\ importOfLine filepath l (start + Z.of_nat n) = Some s.
Proof.
  induction lines as [|l0 lines IH]; intros start s; cbn [scanLines].
  - split; [intros H; inversion H|]. intros (n & l & Hl & _).
    rewrite lookup_nil in Hl. discriminate.
  - assert (s ∈ scanLines filepath lines (start + 1) <->
            exists n l, (l0 :: lines) !! S n = Some l
                        /\ importOfLine filepath l (start + Z.of_nat (S n)) = Some s)
      as Htail.
    { rewrite IH. split; intros (n & l & Hl & Hs); exists n, l; (split; [exact Hl|]).
      - rewrite <- Hs. f_equal. lia.
      - rewrite <- Hs. f_equal. lia. }
    destruct (importOfLine filepath l0 start) as [s0|] eqn:E0.
    + rewrite elem_of_cons, Htail. split.
      * intros [->|(n & l & Hl & Hs)].
        -- exists 0%nat, l0. split; [reflexivity|]. rewrite Z.add_0_r. exact E0.
        -- exists (S n), l. auto.
      * intros ([|n] & l & Hl & Hs).
        -- left. cbn in Hl. injection Hl as <-. rewrite Z.add_0_r in Hs. congruence.
        -- right. exists n, l. auto.
    + rewrite Htail. split.
      * intros (n & l & Hl & Hs). exists (S n), l. auto.
      * intros ([|n] & l & Hl & Hs).
        -- cbn in Hl. injection Hl as <-. rewrite Z.add_0_r in Hs. congruence.
        -- exists n, l. auto.
Qed.

Lemma scanLines_line_gt filepath lines start s :
  s ∈ scanLines filepath lines start -> start < line s.
Proof.
  rewrite scanLines_elem. intros (n & l & _ & Hs).
  apply importOfLine_line in Hs. lia.
Qed.

Lemma scanLines_NoDup filepath lines : forall start,
  NoDup (map line (scanLines filepath lines start)).
Proof.
  induction lines as [|l0 lines IH]; intros start; cbn [scanLines];
    [constructor|].
  destruct (importOfLine filepath l0 start) as [s0|] eqn:E0; [|apply IH].
  cbn [map]. constructor; [|apply IH].
  intros Hin. apply list_elem_of_In, in_map_iff in Hin as (s & Hline & Hs).
  apply list_elem_of_In, scanLines_line_gt in Hs.
  apply importOfLine_line in E0. lia.
Qed.

End ImportFacts.

Module ImportClaims.
Import JS Regex NodePath DependencyGraph ImportFacts.

(** C10.  [extractImports] yields a statement exactly for the lines that
    do not start, once trimmed, with [//], [*] or [/*] and that some
    recognizer matches, and the statement is the one of the first
    recognizer that matches, in the order default import, named import,
    namespace import, dynamic import, [require], and for [.py] files
    [from X import Y] and [import X]; so a comment line yields nothing.
    Every statement carries the number, counted from 1, of its line, and
    no two statements carry the same number: a line yields at most one. *)
Theorem extractImports_one_statement_per_line
    `{PathModule} (readFile : string -> option string) (filepath cwd : string) :
  let result := extractImports readFile filepath cwd in
  let lines :=
    match readFile (join cwd filepath) with
    | Some content => split_lines content
    | None => []
    end in
  (forall s, s ∈ result <->
     exists n l, lines !! n = Some l
                 /\ isCommentLine l = false
                 /\ firstRecognized (recognizers filepath) l (Z.of_nat n) = Some s)
  /\ (forall s, s ∈ result ->
        exists n l, lines !! n = Some l /\ line s = Z.of_nat n + 1)
  /\ (forall n l s, lines !! n = Some l -> isCommentLine l = true ->
        s ∈ result -> line s <> Z.of_nat n + 1)
  /\ NoDup (map line result).
Proof.
  intros result lines.
  assert (result = scanLines filepath lines 0) as ->.
  { unfold result, lines, extractImports.
    destruct (readFile (join cwd filepath)); reflexivity. }
  assert (forall s, s ∈ scanLines filepath lines 0 <->
            exists n l, lines !! n = Some l /\ isCommentLine l = false
              /\ firstRecognized (recognizers filepath) l (Z.of_nat n) = Some s)
    as Hiff.
  { intros s. rewrite scanLines_elem.
    split; intros (n & l & Hl & Hs); exists n, l; (split; [exact Hl|]).
    - rewrite importOfLine_firstRecognized in Hs. cbn in Hs.
      destruct (isCommentLine l); [discriminate|]. auto.
    - destruct Hs as [Hc Hs]. rewrite importOfLine_firstRecognized, Hc. exact Hs. }
  assert (forall s n l, lines !! n = Some l ->
            firstRecognized (recognizers filepath) l (Z.of_nat n) = Some s ->
            line s = Z.of_nat n + 1) as Hline.
  { intros s n l _. apply firstRecognized_line, stamps_recognizers. }
  split; [exact Hiff|]. split; [|split].
  - intros s Hs. apply Hiff in Hs as (n & l & Hl & _ & Hs).
    exists n, l. eauto.
  - intros n l s Hl Hcomment Hs Heq.
    apply Hiff in Hs as (n' & l' & Hl' & Hc' & Hs).
    apply (Hline s n' l' Hl') in Hs.
    assert (n' = n) as -> by lia. congruence.
  - apply scanLines_NoDup.
Qed.

End ImportClaims.

Module GraphFacts.
Import JS Regex NodePath DependencyGraph SortFacts.

(** A bare package specifier: neither relative nor under the [@/] alias. *)
Definition isBare (specifier : string) : bool :=
  negb (startsWith specifier ".") && negb (startsWith specifier "@/").

Lemma existsb_eqb_elem (x : string) (l : list string) :
  existsb (String.eqb x) l = true -> x ∈ l.
Proof.
  intros H. apply existsb_exists in H as (y & Hin & Heq).
  apply String.eqb_eq in Heq. subst y. apply list_elem_of_In, Hin.
Qed.

Lemma probe_elem candidatePath suffixes allFiles testPath :
  probe candidatePath suffixes allFiles = Some testPath -> testPath ∈ allFiles.
Proof.
  induction suffixes as [|suffix suffixes IH]; cbn [probe]; [discriminate|].
  destruct (existsb _ allFiles) eqn:E; [|exact IH].
  intros [= <-]. apply existsb_eqb_elem, E.
Qed.

Section WithFiles.
Context `{PathModule}.
Variable readFile : string -> option string.
Variable extractExports : string -> string -> list string.
Variable files : list string.
Variable cwd : string.


Lemma resolveImportPath_Some specifier importer target :
  resolveImportPath specifier importer files cwd = Some target ->
  target ∈ files /\ isBare specifier = false.
Proof.
  unfold resolveImportPath, isBare.
  destruct (negb (startsWith specifier ".") && negb (startsWith specifier "@/"));
    [discriminate|].
  intros Hres. split; [|reflexivity].
  destruct (probe _ [".ts"; ".tsx"; ".js"; ".jsx"; ".mjs"; ""] files) eqn:E.
  - injection Hres as <-. eapply probe_elem, E.
  - eapply probe_elem, Hres.
Qed.

(** ** The nodes *)

(** Every node belongs to a scanned file and holds its imports. *)
Definition nodes_scanned (nodes : gmap string FileNode) : Prop :=
  forall filepath node, nodes !! filepath = Some node ->
    filepath ∈ files /\ imports node = extractImports readFile filepath cwd.

Lemma addNodes_scanned batch : forall nodes,
  batch ⊆ files -> nodes_scanned nodes ->
  nodes_scanned (addNodes readFile extractExports cwd batch nodes).
Proof.
  unfold addNodes. induction batch as [|filepath batch IH]; intros nodes Hsub Hn;
    [exact Hn|].
  cbn [fold_left]. apply IH.
  - intros x Hx. apply Hsub. apply list_elem_of_further, Hx.
  - intros k node. rewrite lookup_insert. case_decide as Hk.
    + subst k. intros [= <-]. split; [|reflexivity].
      apply Hsub, list_elem_of_here.
    + apply Hn.
Qed.


(** ** The reverse lookup *)

(** Every key is a scanned file, and every member of its set is a scanned
    file with an import, not a bare one, that resolves to the key. *)
Definition reverse_within (reverseLookup : gmap string (gset string)) : Prop :=
  forall target importers, reverseLookup !! target = Some importers ->
    target ∈ files
    /\ forall importer, importer ∈ importers ->
         importer ∈ files
         /\ exists imp, imp ∈ extractImports readFile importer cwd
                        /\ resolveImportPath (source imp) importer files cwd
                           = Some target
                        /\ isBare (source imp) = false.

Lemma addImporter_within filepath reverseLookup imp :
  filepath ∈ files ->
  imp ∈ extractImports readFile filepath cwd ->
  reverse_within reverseLookup ->
  reverse_within (addImporter files cwd filepath reverseLookup imp).
Proof.
  intros Hfile Himp Hrl. unfold addImporter.
  destruct (resolveImportPath (source imp) filepath files cwd) as [resolved|] eqn:E;
    [|exact Hrl].
  destruct (is_empty resolved); [exact Hrl|].
  destruct (resolveImportPath_Some _ _ _ E) as [Hres Hbare].
  intros target importers. rewrite lookup_insert. case_decide as Hk.
  - subst target. intros [= <-]. split; [exact Hres|].
    intros importer Hin. apply elem_of_union in Hin as [Hin|Hin].
    + destruct (reverseLookup !! resolved) as [old|] eqn:Eold; cbn in Hin.
      * apply (Hrl resolved old Eold). exact Hin.
      * apply not_elem_of_empty in Hin. contradiction.
    + apply elem_of_singleton in Hin. subst importer.
      split; [exact Hfile|]. exists imp. auto.
  - apply Hrl.
Qed.

Lemma addImporters_within filepath imps : forall reverseLookup,
  filepath ∈ files ->
  (forall imp, imp ∈ imps -> imp ∈ extractImports readFile filepath cwd) ->
  reverse_within reverseLookup ->
  reverse_within (fold_left (addImporter files cwd filepath) imps reverseLookup).
Proof.
  induction imps as [|imp imps IH]; intros rl Hfile Himps Hrl; [exact Hrl|].
  cbn [fold_left]. apply IH; [exact Hfile| |].
  - intros i Hi. apply Himps, list_elem_of_further, Hi.
  - apply addImporter_within; [exact Hfile | apply Himps, list_elem_of_here | exact Hrl].
Qed.

Lemma buildReverseLookup_within nodes :
  nodes_scanned nodes -> reverse_within (buildReverseLookup files cwd nodes).
Proof.
  intros Hn. unfold buildReverseLookup.
  assert (forall entry, entry ∈ map_to_list nodes ->
            nodes !! entry.1 = Some entry.2) as Hentries.
  { intros [k node] Hin. apply elem_of_map_to_list in Hin. exact Hin. }
  assert (reverse_within ∅) as Hempty.
  { intros target importers Hl. rewrite lookup_empty in Hl. discriminate. }
  revert Hentries Hempty. generalize (∅ : gmap string (gset string)).
  induction (map_to_list nodes) as [|[filepath node] entries IH];
    intros rl Hentries Hrl; [exact Hrl|].
  cbn [fold_left]. apply IH.
  - intros e He. apply Hentries, list_elem_of_further, He.
  - pose proof (Hentries (filepath, node) (list_elem_of_here _ _)) as Hnode.
    cbn in Hnode. destruct (Hn filepath node Hnode) as [Hfile Himports].
    apply addImporters_within; [exact Hfile| |exact Hrl].
    intros imp Himp. rewrite <- Himports. exact Himp.
Qed.


End WithFiles.

(** ** The ranks *)

(** The largest number of dependents of a key of the reverse lookup. *)
Definition maxDependents (graph : Graph) : nat :=
  maxCount (map (fun entry => size entry.2) (map_to_list (reverseLookup graph))).

(** [round(100 * count / max)] over the rationals: the nearest integer,
    halves upwards. *)
Definition roundedPercentage (count maxCount : Z) : Z :=
  (200 * count + maxCount) / (2 * maxCount).

Lemma fold_insert_lookup {V} (l : list (string * V)) : forall (init : gmap string V) k,
  NoDup (l.*1) ->
  fold_left (fun m '(key, v) => <[key := v]> m) l init !! k
  = match (list_to_map l : gmap string V) !! k with
    | Some v => Some v
    | None => init !! k
    end.
Proof.
  induction l as [|[key v] l IH]; intros init k Hnd.
  - cbn. rewrite lookup_empty. reflexivity.
  - cbn [fold_left]. rewrite fmap_cons in Hnd.
    apply NoDup_cons in Hnd as [Hnotin Hnd].
    rewrite IH by exact Hnd. rewrite list_to_map_cons, !lookup_insert.
    case_decide as Hk; [|reflexivity].
    subst k. rewrite (not_elem_of_list_to_map_1 l key) by exact Hnotin.
    reflexivity.
Qed.

Lemma maxCount_ge counts n : n ∈ counts -> (n <= maxCount counts)%nat.
Proof.
  induction counts as [|c counts IH]; intros Hin; [inversion Hin|].
  cbn. apply elem_of_cons in Hin as [->|Hin]; [lia|].
  specialize (IH Hin). unfold maxCount in IH. lia.
Qed.

Lemma maxCount_elem counts : counts <> [] -> maxCount counts ∈ counts.
Proof.
  induction counts as [|c counts IH]; [congruence|]. intros _.
  destruct counts as [|c' counts].
  - cbn. rewrite Nat.max_0_r. apply list_elem_of_here.
  - assert (maxCount (c' :: counts) ∈ c' :: counts) as Hin by (apply IH; discriminate).
    change (maxCount (c :: c' :: counts)) with (Nat.max c (maxCount (c' :: counts))).
    destruct (Nat.max_spec c (maxCount (c' :: counts))) as [[_ ->]|[_ ->]].
    + apply list_elem_of_further, Hin.
    + apply list_elem_of_here.
Qed.

Lemma calculateImportRanks_lookup graph filepath :
  calculateImportRanks graph !! filepath
  = (fun dependents => normalizedRank (size dependents) (maxDependents graph))
    <$> (reverseLookup graph !! filepath).
Proof.
  unfold calculateImportRanks, maxDependents.
  set (rl := reverseLookup graph).
  destruct (decide (rl = ∅)) as [Hempty|Hne].
  - rewrite Hempty, map_to_list_empty. cbn. rewrite !lookup_empty. reflexivity.
  - assert (map_to_list rl <> []) as Hentries.
    { intros Hl. apply map_to_list_empty_iff in Hl. contradiction. }
    replace (Nat.eqb _ 0) with false.
    2:{ symmetry. apply Nat.eqb_neq. rewrite length_map.
        intros Hlen. apply length_zero_iff_nil in Hlen. contradiction. }
    rewrite map_map.
    set (mx := maxCount _).
    assert (mx = maxCount (map (fun entry => size entry.2) (map_to_list rl))) as Hmx.
    { unfold mx. f_equal. apply map_ext. intros [k s]. reflexivity. }
    rewrite <- Hmx. clearbody mx. clear Hmx.
    set (ins := fun (ranks : gmap string float) '(filepath0, count) =>
                  <[filepath0 := normalizedRank count mx]> ranks).
    assert (forall l (init : gmap string float),
              fold_left ins (map (fun '(filepath0, dependents) =>
                                    (filepath0, size dependents)) l) init
              = fold_left (fun m '(key, v) => <[key := v]> m)
                  (map (fun entry : string * gset string =>
                          (entry.1, normalizedRank (size entry.2) mx)) l) init)
      as Hfold.
    { induction l as [|[k s] l IH]; intros init; [reflexivity|].
      cbn [map fold_left]. rewrite IH. reflexivity. }
    rewrite Hfold, fold_insert_lookup.
    2:{ assert (forall l : list (string * gset string),
                  (map (fun entry : string * gset string =>
                          (entry.1, normalizedRank (size entry.2) mx)) l).*1
                  = l.*1) as ->.
        { induction l as [|e l IHl]; [reflexivity|].
          cbn [map]. rewrite !fmap_cons, IHl. reflexivity. }
        apply NoDup_fst_map_to_list. }
    rewrite lookup_empty.
    change (map (fun entry : string * gset string =>
                   (entry.1, normalizedRank (size entry.2) mx)) (map_to_list rl))
      with (prod_map id (fun s : gset string => normalizedRank (size s) mx)
              <$> map_to_list rl).
    rewrite <- (map_to_list_fmap (fun s : gset string => normalizedRank (size s) mx) rl) at 1.
    rewrite list_to_map_to_list, lookup_fmap.
    destruct (rl !! filepath); reflexivity.
Qed.

End GraphFacts.

Module GraphClaims.
Import JS Regex NodePath DependencyGraph GraphFacts.

(** A small repository: [src/a.ts] imports [./b] and the package [react]. *)
Definition sampleFiles : list string := ["src/a.ts"; "src/b.ts"].

Definition sampleReadFile (fullPath : string) : option string :=
  if String.eqb fullPath "/repo/src/a.ts"
  then Some "import { b } from './b'
import React from 'react'"
  else if String.eqb fullPath "/repo/src/b.ts" then Some "export const b = 1"
  else None.



Example sample_reverseLookup :
  match buildDependencyGraph (node_path := posix) sampleReadFile
          (fun _ _ => []) sampleFiles "/repo" 50 with
  | Some graph =>
      map_to_list (reverseLookup graph) = [("src/b.ts", {["src/a.ts"]})]
  | None => False
  end.
Proof. vm_compute. reflexivity. Qed.

(** ** Ranks *)

(** [n] importers with distinct names. *)
Definition importers (n : nat) : gset string :=
  list_to_set (map (fun i => String (ascii_of_nat (65 + i)) EmptyString) (seq 0 n)).

Definition hubGraph : Graph :=
  {| nodes := ∅;
     reverseLookup := {[ "hub.ts" := importers 40; "util.ts" := importers 23 ]} |}.

(** C9 (as the code has it).  [calculateImportRanks] has a rank exactly for
    the keys of the reverse lookup; the rank of a key is [Math.round] of
    the double-precision product of 100 and the double-precision quotient
    of its number of dependents by the largest number of dependents of a
    key; an empty reverse lookup gives an empty map; and a file with 3
    dependents has rank 100 and one with 1 dependent rank 33 when the
    largest number is 3. *)
Theorem calculateImportRanks_rounds_double_quotient graph :
  (forall filepath,
     calculateImportRanks graph !! filepath
     = (fun dependents => normalizedRank (size dependents) (maxDependents graph))
       <$> (reverseLookup graph !! filepath))
  /\ (forall filepath dependents,
        reverseLookup graph !! filepath = Some dependents ->
        (size dependents <= maxDependents graph)%nat)
  /\ (reverseLookup graph <> ∅ ->
      exists filepath dependents,
        reverseLookup graph !! filepath = Some dependents
        /\ size dependents = maxDependents graph)
  /\ (reverseLookup graph = ∅ -> calculateImportRanks graph = ∅)
  /\ (forall fileA fileB dependentsA dependentsB,
        reverseLookup graph !! fileA = Some dependentsA ->
        reverseLookup graph !! fileB = Some dependentsB ->
        size dependentsA = 3%nat -> size dependentsB = 1%nat ->
        maxDependents graph = 3%nat ->
        calculateImportRanks graph !! fileA = Some 100%float
        /\ calculateImportRanks graph !! fileB = Some 33%float).
Proof.
  split; [apply calculateImportRanks_lookup|]. split; [|split; [|split]].
  - intros filepath dependents Hl. unfold maxDependents. apply maxCount_ge.
    apply list_elem_of_In, in_map_iff. exists (filepath, dependents).
    split; [reflexivity|]. apply list_elem_of_In, elem_of_map_to_list, Hl.
  - intros Hne. unfold maxDependents.
    set (counts := map _ _).
    assert (counts <> []) as Hcounts.
    { unfold counts. intros Hnil. apply map_eq_nil in Hnil.
      apply map_to_list_empty_iff in Hnil. contradiction. }
    apply maxCount_elem, list_elem_of_In, in_map_iff in Hcounts
      as ([filepath dependents] & Hsize & Hin).
    exists filepath, dependents. split; [|exact Hsize].
    apply elem_of_map_to_list, list_elem_of_In, Hin.
  - intros Hempty. apply map_eq. intros filepath.
    rewrite calculateImportRanks_lookup, Hempty, !lookup_empty. reflexivity.
  - intros fileA fileB dependentsA dependentsB HA HB HsA HsB Hmax.
    rewrite !calculateImportRanks_lookup, HA, HB, Hmax.
    cbn [fmap option_fmap option_map]. rewrite HsA, HsB.
    split; reflexivity.
Qed.

(** C9, refuted as stated: of two files with 40 and 23 dependents the
    second has rank 57, because 23 / 40 * 100 is 57.49999999999999 in
    double precision, whereas 100 * 23 / 40 = 57.5 rounds to 58. *)
Lemma rank_differs_from_rounded_percentage :
  reverseLookup hubGraph !! "util.ts" = Some (importers 23)
  /\ size (importers 23) = 23%nat
  /\ maxDependents hubGraph = 40%nat
  /\ roundedPercentage 23 40 = 58
  /\ calculateImportRanks hubGraph !! "util.ts" = Some 57%float
  /\ calculateImportRanks hubGraph !! "util.ts"
     <> Some (Z_to_number (roundedPercentage 23 40)).
Proof.
  assert (calculateImportRanks hubGraph !! "util.ts" = Some 57%float) as Hrank
    by (vm_compute; reflexivity).
  repeat split; try (vm_compute; reflexivity).
  rewrite Hrank. intros Heq.
  apply (f_equal (option_map Prim2SF)) in Heq. vm_compute in Heq.
  discriminate Heq.
Qed.

End GraphClaims.

(* ===================================================================== *)
(** * Further properties of the code                                     *)
(* ===================================================================== *)

(** * More on [search] *)

Module SearchExtra.
Import JS ManticEngine SortFacts SearchFacts NormalizeFacts MonotoneFacts
       SubstringFacts IndexedTermFacts.

(** ** White space around the query *)

Lemma trimEnd_idempotent s : trimEnd (trimEnd s) = trimEnd s.
Proof.
  induction s as [|c s IH]; [reflexivity|]. cbn [trimEnd].
  destruct (is_space c && is_empty (trimEnd s)) eqn:E; [reflexivity|].
  cbn [trimEnd]. rewrite IH, E. reflexivity.
Qed.

Lemma trimStart_head s :
  match trimStart s with
  | EmptyString => True
  | String c _ => is_space c = false
  end.
Proof.
  induction s as [|c s IH]; [exact I|]. cbn [trimStart].
  destruct (is_space c) eqn:E; [exact IH | exact E].
Qed.

Lemma trim_idempotent s : trim (trim s) = trim s.
Proof.
  unfold trim. pose proof (trimStart_head s) as Hhead.
  destruct (trimStart s) as [|c s'] eqn:E; [reflexivity|].
  cbn [trimEnd]. rewrite Hhead. cbn [andb trimStart]. rewrite Hhead.
  cbn [trimEnd]. rewrite Hhead. cbn [andb]. rewrite trimEnd_idempotent.
  reflexivity.
Qed.

Lemma search_blank index query limit :
  trim query = EmptyString -> search index query limit = [].
Proof.
  intros Hblank. unfold search. destruct (is_empty query); [reflexivity|].
  rewrite Hblank. reflexivity.
Qed.

(** X1.  White space at the ends of the query does not change the result of
    [search], and a query that is empty once trimmed has no result. *)
Theorem search_ignores_outer_space index query limit :
  search index query limit = search index (trim query) limit
  /\ (trim query = EmptyString -> search index query limit = []).
Proof.
  split; [|apply search_blank].
  destruct (trim query) as [|c t] eqn:E.
  - rewrite search_blank by exact E. reflexivity.
  - unfold search. rewrite <- E, trim_idempotent, E.
    destruct query; [discriminate E|]. reflexivity.
Qed.

(** ** Everything that scores is returned *)

(** X2.  When the limit is at least the number of records with a positive
    score, [search] returns each of them once: the result is a permutation
    of the results pushed by the loop over the index, so every record with
    a positive score is in it with that score. *)
Theorem search_returns_every_match index query limit :
  has_terms query = true ->
  Z.of_nat (length (ranked index query)) <= limit ->
  search index query limit ≡ₚ ranked index query
  /\ (forall entry, entry ∈ index -> 0 < scoreOf query entry ->
        exists r, r ∈ search index query limit
                  /\ file r = original entry
                  /\ score r = scoreOf query entry).
Proof.
  intros Hterms Hlimit.
  assert (search index query limit ≡ₚ ranked index query) as Hperm.
  { rewrite search_unfold, Hterms, slice_0_take by lia.
    rewrite take_ge by (rewrite (sort_Permutation compareResults); lia).
    apply sort_Permutation. }
  split; [exact Hperm|].
  intros entry Hin Hpos.
  set (r := {| file := original entry; score := scoreOf query entry;
               matchType := if 150 <? scoreOf query entry then exact else fuzzy |}).
  exists r. split; [|split; reflexivity].
  rewrite Hperm. unfold ranked. apply list_elem_of_omap. exists entry.
  split; [exact Hin|]. unfold scoreResult. fold (scoreOf query entry).
  apply Z.ltb_lt in Hpos. rewrite Hpos. reflexivity.
Qed.

Lemma search_returns_every_match_witness :
  has_terms "router" = true
  /\ search (buildIndex ["a/router.ts"; "docs/guide.md"]) "router" 100
     ≡ₚ ranked (buildIndex ["a/router.ts"; "docs/guide.md"]) "router".
Proof.
  split; [reflexivity|].
  apply (search_returns_every_match
           (buildIndex ["a/router.ts"; "docs/guide.md"]) "router" 100);
    [reflexivity | vm_compute; discriminate].
Defined.

(** ** Ties *)

Section Stability.
Context {A : Type} (cmp : A -> A -> Z).
Hypothesis cmp_trans : forall a b c, cmp a b <= 0 -> cmp b c <= 0 -> cmp a c <= 0.

(** [y] and [x] are not ordered by the comparator. *)
Definition tied_with (x y : A) : bool := (cmp x y <=? 0) && (cmp y x <=? 0).

Lemma filter_tied_sort_insert x a l :
  List.filter (tied_with x) (sort_insert cmp a l)
  = List.filter (tied_with x) (a :: l).
Proof.
  induction l as [|y l IH]; [reflexivity|]. cbn [sort_insert].
  destruct (cmp a y <=? 0) eqn:E; [reflexivity|].
  cbn [List.filter] in *. rewrite IH.
  destruct (tied_with x a) eqn:Ea; [|reflexivity].
  destruct (tied_with x y) eqn:Ey; [|reflexivity].
  exfalso. unfold tied_with in Ea, Ey.
  apply andb_prop in Ea as [_ Hax]. apply andb_prop in Ey as [Hxy _].
  apply Z.leb_le in Hax, Hxy. apply Z.leb_gt in E.
  pose proof (cmp_trans a x y Hax Hxy). lia.
Qed.

(** The sort is stable. *)
Lemma filter_tied_sort x l :
  List.filter (tied_with x) (sort cmp l) = List.filter (tied_with x) l.
Proof.
  induction l as [|a l IH]; [reflexivity|]. cbn [sort].
  rewrite filter_tied_sort_insert. cbn [List.filter]. rewrite IH. reflexivity.
Qed.

End Stability.

(** Same score and same length of the path. *)
Definition same_rank (r x : SearchResult) : bool :=
  (score x =? score r) && (slength (file x) =? slength (file r)).

Lemma same_rank_tied r x : same_rank r x = tied_with compareResults r x.
Proof.
  unfold same_rank, tied_with. apply eq_true_iff_eq.
  rewrite !andb_true_iff, !Z.leb_le, !Z.eqb_eq, !compareResults_le.
  unfold ranked_before. lia.
Qed.

(** X3.  Results with the same score and the same path length keep the
    order of the index: filtered to one such class, the result of [search]
    is a prefix of the results pushed by the loop over the index. *)
Theorem search_ties_in_index_order index query limit r :
  0 <= limit ->
  has_terms query = true ->
  List.filter (same_rank r) (search index query limit)
  `prefix_of` List.filter (same_rank r) (ranked index query).
Proof.
  intros Hlimit Hterms. rewrite search_unfold, Hterms, slice_0_take by exact Hlimit.
  rewrite !(filter_ext (same_rank r) (tied_with compareResults r)
              (same_rank_tied r)).
  rewrite <- (filter_tied_sort compareResults compareResults_trans r (ranked index query)).
  set (sorted := sort compareResults (ranked index query)).
  exists (List.filter (tied_with compareResults r) (drop (Z.to_nat limit) sorted)).
  rewrite <- List.filter_app, take_drop. reflexivity.
Qed.

Lemma search_ties_in_index_order_witness :
  0 <= 1
  /\ List.filter
       (same_rank {| file := "b/router.ts"; score := 5000; matchType := exact |})
       (search (buildIndex ["b/router.ts"; "a/router.ts"]) "router" 1)
     `prefix_of`
     List.filter
       (same_rank {| file := "b/router.ts"; score := 5000; matchType := exact |})
       (ranked (buildIndex ["b/router.ts"; "a/router.ts"]) "router").
Proof.
  split; [lia|].
  apply (search_ties_in_index_order
           (buildIndex ["b/router.ts"; "a/router.ts"]) "router" 1
           {| file := "b/router.ts"; score := 5000; matchType := exact |});
    [lia | reflexivity].
Defined.

End SearchExtra.

(** * More on the orchestrator *)

Module ParallelExtra.
Import JS ManticEngine ParallelMantic SortFacts SearchFacts ParallelFacts.

Lemma ranked_concat_indexes (indexes : list (list FileEntry)) query :
  ranked (concat indexes) query
  = concat (map (fun index => ranked index query) indexes).
Proof.
  induction indexes as [|index indexes IH]; [reflexivity|].
  cbn [concat map]. rewrite ranked_app, IH. reflexivity.
Qed.

(** Searching each index, then sorting and truncating the concatenation,
    is searching the concatenation of the indexes. *)
Lemma search_merge_indexes (indexes : list (list FileEntry)) query limit :
  0 <= limit ->
  slice (sort compareResults
           (concat (map (fun index => ManticEngine.search index query limit)
                        indexes))) 0 limit
  = ManticEngine.search (concat indexes) query limit.
Proof.
  intros Hlimit. rewrite search_unfold.
  destruct (has_terms query) eqn:Et.
  - assert (map (fun index => ManticEngine.search index query limit) indexes
            = map (fun results => take (Z.to_nat limit) (sort compareResults results))
                (map (fun index => ranked index query) indexes)) as ->.
    { rewrite map_map. apply map_ext. intros index.
      rewrite search_unfold, Et. apply slice_0_take, Hlimit. }
    rewrite !slice_0_take by exact Hlimit.
    rewrite (take_sort_shards compareResults
               compareResults_trans compareResults_total).
    rewrite ranked_concat_indexes. reflexivity.
  - replace (concat _) with (@nil SearchResult);
      [cbn [sort]; unfold slice; rewrite drop_nil, take_nil; reflexivity|].
    induction indexes as [|index indexes IH]; [reflexivity|].
    cbn [map concat]. rewrite <- IH, search_unfold, Et. reflexivity.
Qed.

Definition runs (w : Worker) : bool :=
  match behaviour w with Runs => true | _ => false end.

Definition thread_fails (w : Worker) : bool :=
  match behaviour w with ThreadFails _ => true | _ => false end.

(** X4.  When no worker thread fails, the orchestrator answers as one engine
    over the indexes of the workers whose [engine.search] does not throw:
    the shard of a worker that throws is left out as a whole. *)
Theorem search_drops_throwing_shards workers query limit :
  0 <= limit ->
  forallb (fun w => negb (thread_fails w)) workers = true ->
  ParallelMantic.search workers query limit
  = Resolved
      (ManticEngine.search
         (concat (map engine (List.filter runs workers))) query limit).
Proof.
  intros Hlimit Hthreads. unfold ParallelMantic.search.
  destruct (is_empty query) eqn:Eq.
  { unfold ManticEngine.search. rewrite Eq. reflexivity. }
  assert (map (fun worker => worker_promise worker query limit) workers
          = map (fun w => Resolved (on_message w query limit)) workers) as ->.
  { apply map_ext_in. intros w Hin.
    rewrite forallb_forall in Hthreads. specialize (Hthreads w Hin).
    unfold worker_promise, worker_event, thread_fails in *.
    destruct (behaviour w); [reflexivity | reflexivity | discriminate]. }
  rewrite Promise_all_resolved. f_equal.
  rewrite <- (search_merge_indexes _ query limit Hlimit).
  do 2 f_equal.
  induction workers as [|w workers IH]; [reflexivity|].
  cbn [forallb] in Hthreads. apply andb_prop in Hthreads as [Hw Hthreads].
  cbn [map concat List.filter]. rewrite (IH Hthreads).
  unfold on_message, engine_search, runs, thread_fails in *.
  destruct (behaviour w); [reflexivity | reflexivity | discriminate].
Qed.

Lemma search_drops_throwing_shards_witness :
  0 <= 10
  /\ ParallelMantic.search
       [ mkWorker (buildIndex ["a/router.ts"]) Runs;
         mkWorker (buildIndex ["b/router.ts"]) (SearchThrows "RangeError");
         mkWorker (buildIndex ["c/router.ts"]) Runs ] "router" 10
     = Resolved
         (ManticEngine.search (buildIndex ["a/router.ts"; "c/router.ts"])
                              "router" 10).
Proof.
  split; [lia|].
  apply (search_drops_throwing_shards
           [ mkWorker (buildIndex ["a/router.ts"]) Runs;
             mkWorker (buildIndex ["b/router.ts"]) (SearchThrows "RangeError");
             mkWorker (buildIndex ["c/router.ts"]) Runs ] "router" 10);
    [lia | reflexivity].
Defined.

(** ** The chunks of [initWorkers] *)

Lemma slice_length_le {A} (l : list A) (a c : nat) :
  (length (slice l (Z.of_nat a) (Z.of_nat (a + c))) <= c)%nat.
Proof. rewrite slice_take_drop, length_take. lia. Qed.

(** X5.  [initWorkers] makes at most [workerCount] workers, none for an
    empty chunk; the chunks are consecutive pieces of the file list, of at
    most [chunkSize] files each, and the engine of each worker indexes its
    chunk. *)
Theorem initWorkers_chunks files cpus behaviours :
  Z.of_nat (length (initWorkers files cpus behaviours)) <= workerCount cpus
  /\ map engine (initWorkers files cpus behaviours)
     = map buildIndex (chunks files cpus)
  /\ concat (chunks files cpus) = files
  /\ (forall chunk, chunk ∈ chunks files cpus ->
        chunk <> [] /\ Z.of_nat (length chunk) <= chunkSize files cpus).
Proof.
  split; [|split; [|split]].
  - unfold initWorkers. rewrite length_imap. unfold chunks.
    etransitivity;
      [apply inj_le, (filter_length_le (fun chunk : list string => negb (Nat.eqb (length chunk) 0)))|].
    rewrite !length_map, length_seq. pose proof (workerCount_ge cpus). lia.
  - unfold initWorkers. generalize (chunks files cpus). intros l.
    revert behaviours. induction l as [|chunk l IH]; intros behaviours;
      [reflexivity|].
    cbn [imap map engine]. f_equal. apply IH.
  - apply concat_chunks.
  - intros chunk Hin. unfold chunks in Hin.
    apply list_elem_of_In, filter_In in Hin as [Hin Hne].
    split.
    + intros ->. discriminate.
    + apply in_map_iff in Hin as (i & <- & Hi).
      apply in_map_iff in Hi as (n & <- & _).
      destruct (chunkSize_covers files cpus) as [Hc _].
      set (c := chunkSize files cpus) in *.
      replace (Z.of_nat n * c) with (Z.of_nat (n * Z.to_nat c)) by lia.
      replace (Z.of_nat (n * Z.to_nat c) + c)
        with (Z.of_nat (n * Z.to_nat c + Z.to_nat c)) by lia.
      pose proof (slice_length_le files (n * Z.to_nat c) (Z.to_nat c)). lia.
Qed.

(** X6.  Over an empty file list there is no worker, and every search
    resolves to the empty list. *)
Theorem search_without_files cpus behaviours query limit :
  initWorkers [] cpus behaviours = []
  /\ ParallelMantic.search (initWorkers [] cpus behaviours) query limit
     = Resolved [].
Proof.
  assert (initWorkers [] cpus behaviours = []) as ->.
  { unfold initWorkers.
    assert (chunks (@nil string) cpus = []) as ->; [|reflexivity].
    destruct (chunks (@nil string) cpus) as [|chunk l] eqn:E; [reflexivity|].
    destruct (initWorkers_chunks [] cpus behaviours) as (_ & _ & Hcat & Hne).
    rewrite E in Hcat, Hne. cbn [concat] in Hcat.
    destruct (Hne chunk (list_elem_of_here _ _)) as [Hchunk _].
    destruct chunk; [congruence|discriminate]. }
  split; [reflexivity|].
  unfold ParallelMantic.search. destruct (is_empty query); [reflexivity|].
  cbn [map Promise_all concat sort]. unfold slice.
  rewrite drop_nil, take_nil. reflexivity.
Qed.

End ParallelExtra.

(** * More on the index *)

Module IndexExtra.
Import JS ManticEngine SortFacts SearchFacts NormalizeFacts MonotoneFacts
       SubstringFacts IndexedTermFacts.

(** ** The fields of an index entry *)

Lemma split_on_sall (P p : ascii -> bool) s piece :
  sall P s = true -> piece ∈ split_on p s ->
  sall (fun c => P c && negb (p c)) piece = true.
Proof.
  revert piece. induction s as [|c s IH]; intros piece Hs Hin; cbn [split_on] in Hin.
  - apply list_elem_of_singleton in Hin. subst piece. reflexivity.
  - cbn [sall] in Hs. apply andb_prop in Hs as [Hc Hs].
    destruct (p c) eqn:Ep.
    + apply elem_of_cons in Hin as [->|Hin]; [reflexivity|]. apply IH; assumption.
    + destruct (split_on p s) as [|h rest] eqn:Esplit; cbn [cons_head] in Hin.
      * apply list_elem_of_singleton in Hin. subst piece.
        cbn [sall]. rewrite Hc, Ep. reflexivity.
      * apply elem_of_cons in Hin as [->|Hin].
        -- cbn [sall]. rewrite Hc, Ep. cbn [negb andb].
           apply IH; [exact Hs | apply list_elem_of_here].
        -- apply IH; [exact Hs | apply list_elem_of_further, Hin].
Qed.

Lemma sall_true s : sall (fun _ => true) s = true.
Proof. induction s as [|c s IH]; [reflexivity|]. exact IH. Qed.

Lemma List_last_map {A B} (f : A -> B) l d :
  List.last (map f l) (f d) = f (List.last l d).
Proof.
  induction l as [|x l IH]; [reflexivity|].
  destruct l as [|y l]; [reflexivity|]. exact IH.
Qed.

Lemma toLowerCase_sall s : sall (fun c => negb (is_upper c)) (toLowerCase s) = true.
Proof.
  induction s as [|c s IH]; [reflexivity|].
  cbn [toLowerCase smap sall]. rewrite lower_char_not_upper. exact IH.
Qed.

Lemma includes_dot_sall s :
  includes s "." = false <-> sall (fun c => negb (is_dot c)) s = true.
Proof.
  induction s as [|c s IH]; [split; reflexivity|].
  cbn [includes startsWith sall].
  assert (Ascii.eqb c "." = is_dot c) as ->
    by (destruct c as [[] [] [] [] [] [] [] []]; reflexivity).
  assert (startsWith s "" = true) as -> by (destruct s; reflexivity).
  rewrite andb_true_r. destruct (is_dot c); cbn [negb andb orb].
  - split; discriminate.
  - exact IH.
Qed.

Lemma is_dot_eqb c : Ascii.eqb c "." = is_dot c.
Proof. destruct c as [[] [] [] [] [] [] [] []]; reflexivity. Qed.

Lemma includes_dot_cons c s :
  includes (String c s) "." = is_dot c || includes s ".".
Proof.
  cbn [includes startsWith]. rewrite is_dot_eqb.
  assert (startsWith s "" = true) as -> by (destruct s; reflexivity).
  rewrite andb_true_r. reflexivity.
Qed.

Lemma split_on_dot_two s :
  includes s "." = true ->
  exists h h' rest, split_on is_dot s = h :: h' :: rest.
Proof.
  induction s as [|c s IH]; [discriminate|].
  rewrite includes_dot_cons. cbn [split_on]. destruct (is_dot c); cbn [orb].
  - intros _. destruct (split_on is_dot s) as [|h rest] eqn:Es;
      [exfalso; eapply split_on_nonempty, Es|].
    exists EmptyString, h, rest. reflexivity.
  - intros H. destruct (IH H) as (h & h' & rest & ->).
    exists (String c h), h', rest. reflexivity.
Qed.

Lemma split_on_dot_none s :
  includes s "." = false -> split_on is_dot s = [s].
Proof.
  induction s as [|c s IH]; [reflexivity|].
  rewrite includes_dot_cons. cbn [split_on]. destruct (is_dot c); cbn [orb].
  - discriminate.
  - intros H. rewrite (IH H). reflexivity.
Qed.

Lemma ext_endsWith name :
  includes name "." = true ->
  endsWith name (String "." (last_or EmptyString (split_on is_dot name))) = true.
Proof.
  unfold last_or. induction name as [|c s IH]; [discriminate|].
  rewrite includes_dot_cons. cbn [split_on]. destruct (is_dot c) eqn:Ec; cbn [orb].
  - intros _.
    assert (c = "."%char) as ->
      by (revert Ec; destruct c as [[] [] [] [] [] [] [] []];
          intros H; discriminate H || reflexivity).
    destruct (includes s ".") eqn:Eincl.
    + destruct (split_on_dot_two s Eincl) as (h & h' & rest & Es).
      specialize (IH eq_refl). rewrite Es in IH |- *.
      change (List.last ("" :: h :: h' :: rest) "")
        with (List.last (h :: h' :: rest) "").
      cbn [endsWith]. rewrite IH, orb_true_r. reflexivity.
    + rewrite (split_on_dot_none s Eincl). cbn [List.last endsWith].
      rewrite String.eqb_refl. reflexivity.
  - intros H. destruct (split_on_dot_two s H) as (h & h' & rest & Es).
    specialize (IH H). rewrite Es in IH |- *. cbn [cons_head].
    change (List.last (String c h :: h' :: rest) "")
      with (List.last (h :: h' :: rest) "").
    cbn [endsWith]. rewrite IH, orb_true_r. reflexivity.
Qed.

(** X7.  The fields of the entry that [buildIndex] makes for a path: the
    depth is the number of components and at least 1; the components are
    lower-case and free of path separators, and the last one is the
    lower-cased file name; the extension is empty exactly when the file
    name has no dot, and otherwise a dot followed by a part of the file
    name without dot. *)
Theorem index_entry_fields p :
  let entry := index_entry p in
  original entry = p
  /\ depth entry = Z.of_nat (length (pathParts entry))
  /\ 1 <= depth entry
  /\ List.last (pathParts entry) EmptyString = fileNameLower entry
  /\ (forall part, part ∈ pathParts entry ->
        sall (fun c => negb (is_upper c) && negb (is_path_separator c)) part = true)
  /\ (ext entry = EmptyString <-> includes (fileName entry) "." = false)
  /\ (ext entry <> EmptyString ->
        exists suffix, ext entry = String "." suffix
                       /\ includes suffix "." = false
                       /\ endsWith (fileName entry) (ext entry) = true).
Proof.
  cbn zeta. cbn [index_entry original depth pathParts fileNameLower ext fileName].
  set (parts := split_on is_path_separator p).
  assert (parts <> []) as Hparts by apply split_on_nonempty.
  split; [reflexivity|]. split; [rewrite length_map; reflexivity|].
  split; [destruct parts; [congruence | cbn [length]; lia]|].
  split; [unfold last_or; apply (List_last_map toLowerCase parts EmptyString)|].
  split.
  { intros part Hin. apply list_elem_of_In, in_map_iff in Hin as (part0 & <- & Hin).
    apply list_elem_of_In in Hin.
    apply (split_on_sall (fun _ => true)) in Hin; [|apply sall_true].
    clear -Hin. induction part0 as [|c s IH]; [reflexivity|].
    cbn [sall] in Hin. apply andb_prop in Hin as [Hc Hs].
    cbn [toLowerCase smap sall]. rewrite lower_char_not_upper. cbn [negb andb].
    apply andb_true_iff. split; [|apply IH, Hs].
    cbn [andb] in Hc. revert Hc.
    destruct c as [[] [] [] [] [] [] [] []]; intros H; exact H || reflexivity. }
  set (name := last_or EmptyString parts).
  destruct (includes name ".") eqn:Edot.
  - split; [split; discriminate|]. intros _.
    exists (last_or EmptyString (split_on is_dot name)).
    split; [reflexivity|]. split.
    + apply includes_dot_sall.
      assert (split_on is_dot name <> []) as Hne by apply split_on_nonempty.
      pose proof (List_last_elem (split_on is_dot name) EmptyString Hne) as Hin.
      apply (split_on_sall (fun _ => true)) in Hin; [|apply sall_true].
      exact Hin.
    + apply ext_endsWith, Edot.
  - split; [split; reflexivity|]. intros H. congruence.
Qed.

End IndexExtra.

(** * More on the normal form and the terms *)

Module NormalFormExtra.
Import JS ManticEngine SortFacts SearchFacts NormalizeFacts MonotoneFacts
       SubstringFacts IndexedTermFacts IndexExtra.

(** ** The output of [normalizeSeparators] *)

Lemma startsWith_empty s : startsWith s EmptyString = true.
Proof. destruct s; reflexivity. Qed.

Lemma includes_char_sall c s :
  sall (fun d => negb (Ascii.eqb d c)) s = true ->
  includes s (String c EmptyString) = false.
Proof.
  induction s as [|d s IH]; [reflexivity|].
  cbn [sall includes startsWith]. intros H. apply andb_prop in H as [Hd Hs].
  apply negb_true_iff in Hd. rewrite Hd, (IH Hs). reflexivity.
Qed.

Lemma single_spaced_no_double_space s :
  single_spaced s = true -> includes s "  " = false.
Proof.
  induction s as [|a s IH]; [reflexivity|].
  rewrite single_spaced_cons. intros H.
  apply andb_prop in H as [H Hs]. apply andb_prop in H as [_ Hn].
  cbn [includes]. rewrite (IH Hs), orb_false_r.
  destruct s as [|b s]; cbn [startsWith]; [apply andb_false_r|].
  cbn [Regex.head_char] in Hn. rewrite startsWith_empty, andb_true_r.
  destruct (Ascii.eqb a " ") eqn:Ea; [|reflexivity].
  destruct (Ascii.eqb b " ") eqn:Eb; [|reflexivity].
  apply Ascii.eqb_eq in Ea, Eb. subst a b. discriminate Hn.
Qed.

Lemma normalizeSeparators_fixed_inv s :
  normalizeSeparators s = s -> no_camel s = true /\ single_spaced s = true.
Proof. intros H. rewrite <- H. apply normalizeSeparators_normal. Qed.

(** X8.  The output of [normalizeSeparators] has no hyphen, no underscore,
    no white space other than the space, no two spaces in a row and no
    lower-case letter followed by a capital; the strings it returns
    unchanged are exactly the strings of that form. *)
Theorem normalizeSeparators_output text :
  let out := normalizeSeparators text in
  includes out "-" = false
  /\ includes out "_" = false
  /\ includes out "  " = false
  /\ sall (fun c => negb (is_space c) || Ascii.eqb c " ") out = true
  /\ no_camel out = true
  /\ (normalizeSeparators text = text <->
      no_camel text = true /\ single_spaced text = true).
Proof.
  cbn zeta. destruct (normalizeSeparators_normal text) as [Hcamel Hspaced].
  pose proof (single_spaced_sall _ Hspaced) as Hsall.
  split; [|split; [|split; [|split; [|split]]]].
  - apply includes_char_sall. revert Hsall. apply sall_impl.
    intros c. destruct c as [[] [] [] [] [] [] [] []]; intros H; exact H || reflexivity.
  - apply includes_char_sall. revert Hsall. apply sall_impl.
    intros c. destruct c as [[] [] [] [] [] [] [] []]; intros H; exact H || reflexivity.
  - apply single_spaced_no_double_space, Hspaced.
  - revert Hsall. apply sall_impl.
    intros c. destruct c as [[] [] [] [] [] [] [] []]; intros H; exact H || reflexivity.
  - exact Hcamel.
  - split; [apply normalizeSeparators_fixed_inv|].
    intros [H1 H2]. apply normalizeSeparators_fixed; assumption.
Qed.

(** ** The terms of a query *)

Lemma filter_nonempty_elem term l :
  term ∈ filter_nonempty l <-> term ∈ l /\ term <> EmptyString.
Proof.
  unfold filter_nonempty. rewrite !list_elem_of_In, filter_In.
  destruct term; cbn [is_empty negb]; split; intros [H1 H2];
    (split; [exact H1|]); congruence.
Qed.

(** X9.  Every term that [search] derives from a query is non-empty, has
    no separator (hyphen, underscore, white space) and no capital, and
    occurs in the lower-cased normalized query. *)
Theorem search_terms_clean query term :
  let queryLower := toLowerCase (normalizeSeparators (trim query)) in
  term ∈ queryTerms queryLower ->
  term <> EmptyString
  /\ sall (fun c => negb (is_separator c) && negb (is_upper c)) term = true
  /\ includes queryLower term = true.
Proof.
  cbn zeta. intros Hin.
  pose proof (queryTerms_separator_free query term Hin) as Hfree.
  unfold queryTerms in Hin. apply filter_nonempty_elem in Hin as [Hin Hne].
  split; [exact Hne|]. split.
  - eapply (split_runs_sall (fun c => negb (is_upper c)) is_space) in Hin as Hlow.
    2:{ apply toLowerCase_sall. }
    unfold separator_free in Hfree. clear -Hfree Hlow.
    induction term as [|c t IH]; [reflexivity|].
    cbn [sall] in *. apply andb_prop in Hfree as [H1 H2].
    apply andb_prop in Hlow as [H3 H4]. apply andb_prop in H3 as [H3 _].
    rewrite H1, H3, (IH H2 H4). reflexivity.
  - apply includes_occurs.
    destruct (split_runs_pieces is_space
                (toLowerCase (normalizeSeparators (trim query))) false) as [_ H].
    apply H, Hin.
Qed.

Lemma search_terms_clean_witness :
  "gc"%string <> EmptyString
  /\ sall (fun c => negb (is_separator c) && negb (is_upper c)) "gc" = true
  /\ includes (toLowerCase (normalizeSeparators (trim " V8_GcController.cc ")))
       "gc" = true.
Proof.
  apply (search_terms_clean " V8_GcController.cc " "gc").
  vm_compute. apply list_elem_of_further, list_elem_of_here.
Defined.

End NormalFormExtra.

(** * [rankFiles] *)

Module RankFilesExtra.
Import JS ManticEngine SortFacts SearchFacts RankFiles.

Lemma buildIndex_length files : length (buildIndex files) = length files.
Proof. unfold buildIndex. apply length_map. Qed.

Lemma buildIndex_original files entry :
  entry ∈ buildIndex files -> original entry ∈ files.
Proof.
  unfold buildIndex. intros Hin.
  apply list_elem_of_In, in_map_iff in Hin as (p & <- & Hin).
  apply list_elem_of_In. exact Hin.
Qed.

Lemma search_results index query limit r :
  r ∈ search index query limit ->
  0 < score r
  /\ matchType r = (if 150 <? score r then exact else fuzzy)
  /\ exists entry, entry ∈ index /\ file r = original entry.
Proof.
  rewrite search_unfold. destruct (has_terms query); [|intros H; inversion H].
  intros Hr. apply slice_subseteq in Hr. apply sort_elem_of in Hr.
  unfold ranked in Hr. apply list_elem_of_omap in Hr as (entry & Hin & Hsome).
  apply scoreResult_Some in Hsome as (Hfile & Hscore & Hpos & Htype).
  split; [exact Hpos|]. split; [exact Htype|]. exists entry. auto.
Qed.

Lemma Sorted_map {A B} (R : A -> A -> Prop) (S : B -> B -> Prop) (f : A -> B) l :
  (forall a b, R a b -> S (f a) (f b)) -> Sorted R l -> Sorted S (map f l).
Proof.
  intros HRS. induction 1 as [|x l Hl IH Hx]; cbn [map]; constructor; [exact IH|].
  destruct Hx; cbn [map]; constructor. auto.
Qed.

Lemma rankFiles_fresh_engine_facts files keywords intent :
  Sorted (fun a b => fsScore b <= fsScore a)
         (snd (rankFiles [] files keywords intent))
  /\ forall fs, fs ∈ snd (rankFiles [] files keywords intent) -> 0 < fsScore fs.
Proof.
  unfold rankFiles. cbn [length Nat.eqb orb snd]. split.
  - apply (Sorted_map ranked_before).
    + intros a b Hab. unfold toFileScore, ranked_before in *. cbn [fsScore]. lia.
    + rewrite search_unfold. destruct (has_terms _); [|constructor].
      apply slice_Sorted, sort_compareResults_sorted.
  - intros fs Hin. apply list_elem_of_In, in_map_iff in Hin as (r & <- & Hin).
    apply list_elem_of_In, search_results in Hin as (Hpos & _).
    exact Hpos.
Qed.


(** X10.  [rankFiles] on an engine that has no index yet indexes [files];
    it returns at most 100 entries in descending order of score, each
    with a positive score and the path of one of [files], and the reason
    is [exact-match] when the score is above 150 and [keyword-match]
    otherwise, never [filename-match]. *)
Theorem rankFiles_fresh_engine files keywords intent :
  let (index, scores) := rankFiles [] files keywords intent in
  index = buildIndex files
  /\ scores = map toFileScore (search index (rankQuery keywords intent) 100)
  /\ (length scores <= 100)%nat
  /\ Sorted (fun a b => fsScore b <= fsScore a) scores
  /\ forall fs, fs ∈ scores ->
       0 < fsScore fs
       /\ fsPath fs ∈ files
       /\ reasons fs = [if 150 <? fsScore fs then "exact-match" else "keyword-match"].
Proof.
  unfold rankFiles. cbn [length Nat.eqb orb].
  split; [reflexivity|]. split; [reflexivity|]. split; [|split].
  - rewrite length_map, search_unfold. destruct (has_terms _); [|cbn; lia].
    rewrite slice_0_take by lia. rewrite length_take.
    change (Z.to_nat 100) with 100%nat. lia.
  - apply (Sorted_map ranked_before).
    + intros a b Hab. unfold toFileScore, ranked_before in *. cbn [fsScore]. lia.
    + rewrite search_unfold. destruct (has_terms _); [|constructor].
      apply slice_Sorted, sort_compareResults_sorted.
  - intros fs Hin. apply list_elem_of_In, in_map_iff in Hin as (r & <- & Hin).
    apply list_elem_of_In, search_results in Hin
      as (Hpos & Htype & entry & Hentry & Hfile).
    unfold toFileScore. cbn [fsScore fsPath reasons].
    split; [exact Hpos|]. split.
    + rewrite Hfile. apply buildIndex_original, Hentry.
    + rewrite Htype. destruct (150 <? score r); reflexivity.
Qed.

(** X11.  [rankFiles] rebuilds the index only when the number of files
    differs from the number of indexed records: a second call on the same
    engine with a list of the same length answers from the files of the
    first call, whatever the second list holds; with a list of another
    length it answers from the second list. *)
Theorem rankFiles_reuses_index_of_same_length
    files1 keywords1 intent1 files2 keywords2 intent2 :
  let engine := fst (rankFiles [] files1 keywords1 intent1) in
  rankFiles engine files2 keywords2 intent2 =
  rankFiles []
    (if Nat.eqb (length files1) (length files2) then files1 else files2)
    keywords2 intent2.
Proof.
  cbn zeta. unfold rankFiles. cbn [fst length Nat.eqb orb].
  rewrite buildIndex_length.
  destruct (Nat.eqb (length files1) (length files2)) eqn:Elen; cbn [negb].
  - rewrite orb_false_r. destruct (Nat.eqb (length files1) 0) eqn:E0; [|reflexivity].
    apply Nat.eqb_eq in E0, Elen. rewrite E0 in Elen.
    destruct files1; [|discriminate]. destruct files2; [|discriminate]. reflexivity.
  - rewrite orb_true_r. reflexivity.
Qed.

End RankFilesExtra.

(** * The scoring step of [processRequest] *)

Module ProcessRequestExtra.
Import JS ManticEngine ParallelMantic RankFiles ProcessRequest SortFacts
       SearchFacts ParallelFacts RankFilesExtra.

Lemma search_limit_take index query (limit limit' : Z) :
  0 <= limit <= limit' ->
  ManticEngine.search index query limit
  = take (Z.to_nat limit) (ManticEngine.search index query limit').
Proof.
  intros Hlimit. rewrite !search_unfold.
  destruct (has_terms query); [|rewrite take_nil; reflexivity].
  rewrite !slice_0_take by lia. rewrite take_take.
  f_equal. lia.
Qed.

Lemma initWorkers_running_search allFiles cpus query limit :
  0 <= limit ->
  ParallelMantic.search (initWorkers allFiles cpus (fun _ => Runs)) query limit
  = Resolved (ManticEngine.search (buildIndex allFiles) query limit).
Proof.
  intros Hlimit. unfold initWorkers.
  change (imap _ (chunks allFiles cpus))
    with (imap (const (fun chunk => mkWorker (buildIndex chunk) Runs))
               (chunks allFiles cpus)).
  rewrite imap_const.
  change (fmap ?f ?l) with (map f l).
  rewrite search_running_workers by exact Hlimit.
  rewrite concat_chunks. reflexivity.
Qed.

(** X12.  The scoring step of [processRequest] with the worker engine (all
    threads running) returns the first 50 of the files that the standard
    branch returns when the scanner has left the scoring to it: the same
    paths with the same scores in the same order.  The reasons differ:
    the worker engine gives the match type ([exact] or [fuzzy]), the
    standard branch [exact-match] or [keyword-match]. *)
Theorem parallel_branch_is_first_50_of_standard allFiles intentAnalysis cpus :
  exists results standard,
    scoredFilesFn_parallel allFiles intentAnalysis cpus (fun _ => Runs)
    = Resolved results
    /\ scoredFilesFn_standard None allFiles intentAnalysis = Resolved standard
    /\ map rawFile results = take 50 (map rawPath standard)
    /\ map scoreVal results = take 50 (map scoreVal standard)
    /\ (length standard <= 100)%nat
    /\ (forall sf, sf ∈ results ->
          pathStr sf = rawFile sf
          /\ reasonsOf sf = [if 150 <? scoreVal sf then "exact" else "fuzzy"])
    /\ (forall sf, sf ∈ standard ->
          (rawPath sf <> Some EmptyString -> pathStr sf = rawPath sf)
          /\ reasonsOf sf
             = [if 150 <? scoreVal sf then "exact-match" else "keyword-match"]).
Proof.
  unfold scoredFilesFn_parallel, scoredFilesFn_standard, rankFiles.
  cbn [length Nat.eqb orb snd].
  set (query := rankQuery (keywords intentAnalysis) intentAnalysis).
  rewrite initWorkers_running_search by lia.
  eexists. eexists. split; [reflexivity|]. split; [reflexivity|].
  rewrite (search_limit_take (buildIndex allFiles) query 50 100) by lia.
  change (Z.to_nat 50) with 50%nat.
  set (found := ManticEngine.search (buildIndex allFiles) query 100).
  assert (forall r, r ∈ found ->
            matchType r = (if 150 <? score r then exact else fuzzy)) as Htype.
  { intros r Hr. apply search_results in Hr as (_ & Htype & _). exact Htype. }
  split; [|split; [|split; [|split]]].
  - rewrite !map_map, <- (firstn_map (fun r => Some (file r))). reflexivity.
  - rewrite !map_map, <- (firstn_map score). reflexivity.
  - rewrite !length_map. unfold found. rewrite search_unfold.
    destruct (has_terms query); [|cbn; lia].
    rewrite slice_0_take by lia. rewrite length_take.
    change (Z.to_nat 100) with 100%nat. lia.
  - intros sf Hin. apply list_elem_of_In, in_map_iff in Hin as (r & <- & Hin).
    apply list_elem_of_In in Hin. apply (subseteq_take (A:=SearchResult)) in Hin.
    split; [reflexivity|].
    unfold reasonsOf, ofSearchResult, scoreVal. cbn [rawReasons rawMatchType rawScore].
    rewrite (Htype r Hin). destruct (150 <? score r); reflexivity.
  - intros sf Hin. apply list_elem_of_In, in_map_iff in Hin as (fs & <- & Hin).
    apply in_map_iff in Hin as (r & <- & Hin). apply list_elem_of_In in Hin.
    split.
    + unfold pathStr, ofFileScore, toFileScore. cbn [rawPath rawFile fsPath].
      destruct (file r); [congruence | reflexivity].
    + unfold reasonsOf, ofFileScore, toFileScore, scoreVal.
      cbn [rawReasons rawScore reasons fsScore].
      rewrite (Htype r Hin). destruct (150 <? score r); reflexivity.
Qed.

(** ** [maxScore] *)

Lemma fold_left_max_le l : forall n, n <= fold_left Z.max l n.
Proof.
  induction l as [|x l IH]; intros n; cbn [fold_left]; [lia|].
  specialize (IH (Z.max n x)). lia.
Qed.

Lemma fold_left_max_bound l : forall n bound,
  n <= bound -> Forall (fun x => x <= bound) l -> fold_left Z.max l n <= bound.
Proof.
  induction l as [|x l IH]; intros n bound Hn Hl; cbn [fold_left]; [exact Hn|].
  apply Forall_cons in Hl as [Hx Hl]. apply IH; [lia | exact Hl].
Qed.

(** X13.  [maxScore], from which the confidence of each file is computed,
    is 0 when nothing was found and otherwise the score of the first
    result of the standard branch, which no other result exceeds. *)
Theorem maxScore_is_first_score allFiles intentAnalysis :
  exists standard,
    scoredFilesFn_standard None allFiles intentAnalysis = Resolved standard
    /\ maxScore standard = match standard with
                           | [] => 0
                           | sf :: _ => scoreVal sf
                           end
    /\ forall sf, sf ∈ standard -> 0 < scoreVal sf <= maxScore standard.
Proof.
  unfold scoredFilesFn_standard.
  pose proof (rankFiles_fresh_engine_facts allFiles (keywords intentAnalysis)
                intentAnalysis) as Hfacts.
  destruct (rankFiles [] allFiles (keywords intentAnalysis) intentAnalysis)
    as [index scores].
  destruct Hfacts as (Hsorted & Hpos). cbn [snd].
  eexists. split; [reflexivity|].
  assert (maxScore (map ofFileScore scores)
          = match scores with [] => 0 | fs :: _ => fsScore fs end) as Hmax.
  { destruct scores as [|fs scores]; [reflexivity|].
    unfold maxScore. cbn [map length]. replace (0 <? _) with true
      by (symmetry; apply Z.ltb_lt; lia).
    cbn [Math_max ofFileScore rawScore].
    apply Sorted_StronglySorted in Hsorted; [|intros a b c; lia].
    apply StronglySorted_inv in Hsorted as [_ Hall].
    apply Z.le_antisymm; [|apply fold_left_max_le].
    apply fold_left_max_bound; [lia|].
    rewrite map_map. apply List.Forall_map. exact Hall. }
  split.
  - rewrite Hmax. destruct scores; reflexivity.
  - intros sf Hin. apply list_elem_of_In, in_map_iff in Hin as (fs & <- & Hin).
    unfold scoreVal. cbn [ofFileScore rawScore]. rewrite Hmax.
    split; [apply Hpos, list_elem_of_In, Hin|].
    destruct scores as [|fs0 scores]; [inversion Hin|].
    apply Sorted_StronglySorted in Hsorted; [|intros a b c; lia].
    apply StronglySorted_inv in Hsorted as [_ Hall].
    destruct Hin as [<-|Hin]; [lia|].
    rewrite List.Forall_forall in Hall. apply Hall, Hin.
Qed.

End ProcessRequestExtra.

(** * More on the dependency graph *)

Module GraphExtra.
Import JS Regex NodePath DependencyGraph SortFacts GraphFacts.

Section WithFiles.
Context `{PathModule}.
Variable readFile : string -> option string.
Variable extractExports : string -> string -> list string.
Variable files : list string.
Variable cwd : string.

(** ** The nodes *)

(** The node that a batch sets for [filepath]. *)
Definition scannedNode (filepath : string) : FileNode :=
  {| path := filepath;
     imports := extractImports readFile filepath cwd;
     exports := extractExports filepath cwd;
     dependents := [] |}.

Lemma addNodes_app batch1 batch2 nodes :
  addNodes readFile extractExports cwd (batch1 ++ batch2)%list nodes =
  addNodes readFile extractExports cwd batch2
           (addNodes readFile extractExports cwd batch1 nodes).
Proof. unfold addNodes. apply fold_left_app. Qed.

Lemma addNodes_lookup batch : forall nodes filepath,
  addNodes readFile extractExports cwd batch nodes !! filepath =
  if decide (filepath ∈ batch) then Some (scannedNode filepath)
  else nodes !! filepath.
Proof.
  unfold addNodes. induction batch as [|f batch IH]; intros nodes filepath.
  - cbn [fold_left]. case_decide as Hin; [inversion Hin | reflexivity].
  - cbn [fold_left]. rewrite IH.
    destruct (decide (filepath ∈ batch)) as [Hin|Hin].
    + rewrite decide_True by (apply list_elem_of_further, Hin). reflexivity.
    + rewrite lookup_insert. destruct (decide (f = filepath)) as [->|Hne].
      * rewrite decide_True by apply list_elem_of_here. reflexivity.
      * rewrite decide_False; [reflexivity|].
        intros Hc. apply elem_of_cons in Hc as [->|Hc]; contradiction.
Qed.

Lemma processBatches_addNodes maxConcurrency : 0 < maxConcurrency ->
  forall fuel (i : nat) nodes,
    (length files - i <= fuel)%nat ->
    processBatches readFile extractExports fuel files cwd maxConcurrency
                   (Z.of_nat i) nodes
    = Some (addNodes readFile extractExports cwd (drop i files) nodes).
Proof.
  intros Hmc. induction fuel as [|fuel IH]; intros i nodes Hfuel;
    cbn [processBatches];
    destruct (Z.of_nat i <? Z.of_nat (length files)) eqn:E.
  - apply Z.ltb_lt in E. lia.
  - apply Z.ltb_ge in E. rewrite drop_ge by lia. reflexivity.
  - apply Z.ltb_lt in E.
    replace (Z.of_nat i + maxConcurrency)
      with (Z.of_nat (i + Z.to_nat maxConcurrency)) by lia.
    rewrite IH by lia. rewrite slice_take_drop, <- addNodes_app.
    replace (i + Z.to_nat maxConcurrency - i)%nat
      with (Z.to_nat maxConcurrency) by lia.
    rewrite <- drop_drop, take_drop. reflexivity.
  - apply Z.ltb_ge in E. rewrite drop_ge by lia. reflexivity.
Qed.

(** ** The dependents *)

Definition withDependents (order : list string) (node : FileNode)
    (dependentSet : gset string) : FileNode :=
  {| path := path node; imports := imports node; exports := exports node;
     dependents := dependentsIn order dependentSet |}.

Lemma scanOrder_facts (scanned : list string) :
  (forall x, x ∈ scanOrder scanned <-> x ∈ scanned) /\ NoDup (scanOrder scanned).
Proof.
  unfold scanOrder.
  assert (forall (start : list string),
            NoDup start ->
            let order :=
              fold_left
                (fun order filepath =>
                   if existsb (String.eqb filepath) order then order
                   else (order ++ [filepath])%list)
                scanned start in
            (forall x, x ∈ order <-> x ∈ start \/ x ∈ scanned) /\ NoDup order)
    as Hgen.
  { induction scanned as [|f scanned IH]; intros start Hnd; cbn [fold_left];
      cbn zeta.
    - split; [|exact Hnd]. intros x. split; [auto|].
      intros [Hx|Hx]; [exact Hx | inversion Hx].
    - destruct (existsb (String.eqb f) start) eqn:E.
      + apply existsb_eqb_elem in E. destruct (IH start Hnd) as [Helem Hnodup].
        split; [|exact Hnodup]. intros x. rewrite Helem, elem_of_cons.
        split; [tauto|]. intros [Hx|[->|Hx]]; auto.
      + assert (f ∉ start) as Hnot.
        { intros Hin. assert (existsb (String.eqb f) start = true) as Ht;
            [|congruence].
          apply existsb_exists. exists f.
          split; [apply list_elem_of_In, Hin | apply String.eqb_refl]. }
        destruct (IH (start ++ [f])%list) as [Helem Hnodup].
        { apply NoDup_app. split; [exact Hnd|]. split; [|apply NoDup_singleton].
          intros y Hy Hf. apply list_elem_of_singleton in Hf. subst y.
          contradiction. }
        split; [|exact Hnodup]. intros x.
        rewrite Helem, elem_of_app, list_elem_of_singleton, elem_of_cons. tauto. }
  destruct (Hgen [] (NoDup_nil_2)) as [Helem Hnodup].
  split; [|exact Hnodup]. intros x. rewrite Helem. split; [|auto].
  intros [Hx|Hx]; [inversion Hx | exact Hx].
Qed.

Lemma populateDependents_fold (order : list string)
    (entries : list (string * gset string)) :
  NoDup entries.*1 ->
  forall (nodes : gmap string FileNode) filepath,
    fold_left
      (fun nodes '(filepath, dependentSet) =>
         match nodes !! filepath with
         | Some node =>
             <[filepath := {| path := path node; imports := imports node;
                              exports := exports node;
                              dependents := dependentsIn order dependentSet |}]>
               nodes
         | None => nodes
         end) entries nodes !! filepath =
    match nodes !! filepath with
    | Some node =>
        Some match (list_to_map entries : gmap string (gset string)) !! filepath with
             | Some dependentSet => withDependents order node dependentSet
             | None => node
             end
    | None => None
    end.
Proof.
  induction entries as [|[k s] entries IH]; intros Hnodup nodes filepath.
  - cbn [fold_left list_to_map foldr]. rewrite lookup_empty.
    destruct (nodes !! filepath); reflexivity.
  - cbn [fmap list_fmap fst] in Hnodup. apply NoDup_cons in Hnodup as [Hk Hnodup].
    cbn [fold_left]. rewrite (IH Hnodup). cbn [list_to_map foldr uncurry].
    destruct (decide (k = filepath)) as [->|Hne].
    + rewrite lookup_insert, decide_True by reflexivity.
      apply (not_elem_of_list_to_map_1 (M:=gmap string)) in Hk.
      destruct (nodes !! filepath) as [node|] eqn:En.
      * rewrite lookup_insert, decide_True by reflexivity.
        rewrite Hk. reflexivity.
      * rewrite En. reflexivity.
    + rewrite (lookup_insert_ne (M:=gmap string)) by exact Hne.
      destruct (nodes !! k) as [node|] eqn:En.
      * rewrite lookup_insert_ne by exact Hne. reflexivity.
      * reflexivity.
Qed.

Lemma populateDependents_lookup (order : list string)
    (reverseLookup : gmap string (gset string))
    (nodes : gmap string FileNode) filepath :
  populateDependents order reverseLookup nodes !! filepath =
  match nodes !! filepath with
  | Some node =>
      Some match reverseLookup !! filepath with
           | Some dependentSet => withDependents order node dependentSet
           | None => node
           end
  | None => None
  end.
Proof.
  unfold populateDependents.
  rewrite (populateDependents_fold order _ (NoDup_fst_map_to_list reverseLookup)).
  rewrite list_to_map_to_list. reflexivity.
Qed.

(** ** The reverse lookup holds every resolved import *)

Definition recorded (reverseLookup : gmap string (gset string))
    (target importer : string) : Prop :=
  exists importers, reverseLookup !! target = Some importers /\ importer ∈ importers.

Lemma addImporter_keeps filepath reverseLookup imp target importer :
  recorded reverseLookup target importer ->
  recorded (addImporter files cwd filepath reverseLookup imp) target importer.
Proof.
  intros (importers & Hl & Hin). unfold addImporter.
  destruct (resolveImportPath _ _ _ _) as [resolved|]; [|exists importers; auto].
  destruct (is_empty resolved); [exists importers; auto|].
  destruct (decide (resolved = target)) as [->|Hne].
  - eexists. rewrite lookup_insert, decide_True by reflexivity.
    split; [reflexivity|]. rewrite Hl. cbn. apply elem_of_union_l, Hin.
  - exists importers. rewrite lookup_insert_ne by exact Hne. auto.
Qed.

Lemma addImporter_records filepath reverseLookup imp target :
  resolveImportPath (source imp) filepath files cwd = Some target ->
  target <> EmptyString ->
  recorded (addImporter files cwd filepath reverseLookup imp) target filepath.
Proof.
  intros Hres Hne. unfold addImporter. rewrite Hres.
  destruct target; [congruence|]. cbn [is_empty].
  eexists. rewrite lookup_insert, decide_True by reflexivity.
  split; [reflexivity|]. apply elem_of_union_r, elem_of_singleton. reflexivity.
Qed.

Lemma addImporters_keep filepath imps target importer : forall reverseLookup,
  recorded reverseLookup target importer ->
  recorded (fold_left (addImporter files cwd filepath) imps reverseLookup)
           target importer.
Proof.
  induction imps as [|imp imps IH]; intros rl Hrec; [exact Hrec|].
  cbn [fold_left]. apply IH, addImporter_keeps, Hrec.
Qed.

Lemma addImporters_record filepath imps imp target : forall reverseLookup,
  imp ∈ imps ->
  resolveImportPath (source imp) filepath files cwd = Some target ->
  target <> EmptyString ->
  recorded (fold_left (addImporter files cwd filepath) imps reverseLookup)
           target filepath.
Proof.
  induction imps as [|imp' imps IH]; intros rl Hin Hres Hne; [inversion Hin|].
  cbn [fold_left]. apply elem_of_cons in Hin as [->|Hin].
  - apply addImporters_keep, addImporter_records; assumption.
  - apply IH; assumption.
Qed.

Lemma buildReverseLookup_records nodes filepath node imp target :
  nodes !! filepath = Some node ->
  imp ∈ imports node ->
  resolveImportPath (source imp) filepath files cwd = Some target ->
  target <> EmptyString ->
  recorded (buildReverseLookup files cwd nodes) target filepath.
Proof.
  intros Hnode Himp Hres Hne. unfold buildReverseLookup.
  apply elem_of_map_to_list in Hnode.
  revert Hnode. generalize (∅ : gmap string (gset string)).
  induction (map_to_list nodes) as [|[f n] entries IH]; intros rl Hin;
    [inversion Hin|].
  cbn [fold_left]. apply elem_of_cons in Hin as [[= <- <-]|Hin].
  - clear IH. generalize (addImporters_record filepath (imports node) imp target rl
                            Himp Hres Hne).
    generalize (fold_left (addImporter files cwd filepath) (imports node) rl).
    induction entries as [|[f n] entries IH]; intros rl' Hrec; [exact Hrec|].
    cbn [fold_left]. apply IH, addImporters_keep, Hrec.
  - apply IH, Hin.
Qed.

(** No key of the reverse lookup is the empty string. *)
Definition keys_nonempty (reverseLookup : gmap string (gset string)) : Prop :=
  reverseLookup !! EmptyString = None.

Lemma addImporter_nonempty filepath reverseLookup imp :
  keys_nonempty reverseLookup ->
  keys_nonempty (addImporter files cwd filepath reverseLookup imp).
Proof.
  unfold keys_nonempty, addImporter. intros Hrl.
  destruct (resolveImportPath _ _ _ _) as [resolved|]; [|exact Hrl].
  destruct resolved as [|c resolved]; [exact Hrl|]. cbn [is_empty].
  rewrite lookup_insert_ne by discriminate. exact Hrl.
Qed.

Lemma buildReverseLookup_nonempty nodes :
  keys_nonempty (buildReverseLookup files cwd nodes).
Proof.
  unfold buildReverseLookup.
  assert (keys_nonempty ∅) as Hempty by apply lookup_empty.
  revert Hempty. generalize (∅ : gmap string (gset string)).
  induction (map_to_list nodes) as [|[f n] entries IH]; intros rl Hrl; [exact Hrl|].
  cbn [fold_left]. apply IH. clear IH. revert rl Hrl.
  induction (imports n) as [|imp imps IH]; intros rl Hrl; [exact Hrl|].
  cbn [fold_left]. apply IH, addImporter_nonempty, Hrl.
Qed.


(** No set of the reverse lookup is empty. *)
Definition sets_inhabited (reverseLookup : gmap string (gset string)) : Prop :=
  forall target importers,
    reverseLookup !! target = Some importers -> importers <> ∅.

Lemma addImporter_inhabited filepath reverseLookup imp :
  sets_inhabited reverseLookup ->
  sets_inhabited (addImporter files cwd filepath reverseLookup imp).
Proof.
  unfold addImporter. intros Hrl.
  destruct (resolveImportPath _ _ _ _) as [resolved|]; [|exact Hrl].
  destruct (is_empty resolved); [exact Hrl|].
  intros target importers. rewrite lookup_insert. case_decide as Hk.
  - intros [= <-]. set_solver.
  - apply Hrl.
Qed.

Lemma buildReverseLookup_inhabited nodes :
  sets_inhabited (buildReverseLookup files cwd nodes).
Proof.
  unfold buildReverseLookup.
  assert (sets_inhabited ∅) as Hempty.
  { intros target importers Hl. rewrite lookup_empty in Hl. discriminate. }
  revert Hempty. generalize (∅ : gmap string (gset string)).
  induction (map_to_list nodes) as [|[f n] entries IH]; intros rl Hrl; [exact Hrl|].
  cbn [fold_left]. apply IH. clear IH. revert rl Hrl.
  induction (imports n) as [|imp imps IH]; intros rl Hrl; [exact Hrl|].
  cbn [fold_left]. apply IH, addImporter_inhabited, Hrl.
Qed.

(** ** A batch size that is not positive *)

Lemma processBatches_stuck maxConcurrency : maxConcurrency <= 0 ->
  forall fuel i nodes, i <= 0 -> files <> [] ->
    processBatches readFile extractExports fuel files cwd maxConcurrency i nodes
    = None.
Proof.
  intros Hmc. induction fuel as [|fuel IH]; intros i nodes Hi Hfiles;
    cbn [processBatches];
    (destruct (i <? Z.of_nat (length files)) eqn:E;
     [|apply Z.ltb_ge in E; destruct files; [congruence | cbn [length] in E; lia]]).
  - reflexivity.
  - apply IH; [lia | exact Hfiles].
Qed.

(** ** The graph *)

(** The graph of [files], whatever the size of the batches. *)
Definition graphOf : Graph :=
  let nodes := addNodes readFile extractExports cwd files ∅ in
  let reverseLookup := buildReverseLookup files cwd nodes in
  {| nodes := populateDependents (scanOrder files) reverseLookup nodes;
     reverseLookup := reverseLookup |}.

Lemma buildDependencyGraph_graphOf maxConcurrency :
  0 < maxConcurrency ->
  buildDependencyGraph readFile extractExports files cwd maxConcurrency
  = Some graphOf.
Proof.
  intros Hmc. unfold buildDependencyGraph, buildDependencyGraphFuel.
  change 0 with (Z.of_nat 0).
  rewrite (processBatches_addNodes maxConcurrency Hmc) by lia.
  reflexivity.
Qed.

(** An import of [importer] resolves to [target]. *)
Definition importsFile (importer target : string) : Prop :=
  exists imp, imp ∈ extractImports readFile importer cwd
              /\ resolveImportPath (source imp) importer files cwd = Some target.

Lemma graphOf_reverseLookup target importer :
  recorded (reverseLookup graphOf) target importer <->
  target <> EmptyString /\ importer ∈ files /\ importsFile importer target.
Proof.
  unfold graphOf. cbn [reverseLookup]. split.
  - intros (importers & Hl & Hin). split.
    + intros ->. rewrite buildReverseLookup_nonempty in Hl. discriminate.
    + assert (nodes_scanned readFile files cwd
                (addNodes readFile extractExports cwd files ∅)) as Hn.
      { apply addNodes_scanned; [intros x Hx; exact Hx|].
        intros k node Hk. rewrite lookup_empty in Hk. discriminate. }
      destruct (buildReverseLookup_within readFile files cwd _ Hn target importers Hl)
        as [_ Himp].
      destruct (Himp importer Hin) as (Hfile & imp & H1 & H2 & _).
      split; [exact Hfile|]. exists imp. auto.
  - intros (Hne & Hfile & imp & Himp & Hres).
    eapply (buildReverseLookup_records _ importer (scannedNode importer) imp);
      [|exact Himp|exact Hres|exact Hne].
    rewrite addNodes_lookup, decide_True by exact Hfile. reflexivity.
Qed.

Lemma graphOf_nodes filepath :
  nodes graphOf !! filepath =
  if decide (filepath ∈ files)
  then Some match reverseLookup graphOf !! filepath with
            | Some dependentSet =>
                withDependents (scanOrder files) (scannedNode filepath) dependentSet
            | None => scannedNode filepath
            end
  else None.
Proof.
  unfold graphOf. cbn [nodes reverseLookup].
  rewrite populateDependents_lookup, addNodes_lookup, lookup_empty.
  case_decide; reflexivity.
Qed.

(** The dependents of a node are the members of its set, each once. *)
Lemma graphOf_dependents filepath importers :
  reverseLookup graphOf !! filepath = Some importers ->
  NoDup (dependentsIn (scanOrder files) importers)
  /\ forall dependent,
       dependent ∈ dependentsIn (scanOrder files) importers
       <-> dependent ∈ importers.
Proof.
  intros Hl. destruct (scanOrder_facts files) as [Helem Hnodup].
  unfold dependentsIn. split.
  - apply NoDup_ListNoDup, List.NoDup_filter, NoDup_ListNoDup, Hnodup.
  - intros dependent. rewrite list_elem_of_In, filter_In, <- list_elem_of_In.
    rewrite bool_decide_eq_true, Helem. split; [tauto|].
    intros Hin. split; [|exact Hin].
    apply (proj1 (graphOf_reverseLookup filepath dependent)).
    exists importers. auto.
Qed.

End WithFiles.

(** ** A repository for the examples *)

Definition exampleFiles : list string := ["src/a.ts"; "src/b.ts"; "src/c.ts"].

Definition exampleReadFile (fullPath : string) : option string :=
  if String.eqb fullPath "/repo/src/a.ts"
  then Some "import { b } from './b'
import { c } from './c.js'"
  else if String.eqb fullPath "/repo/src/b.ts"
  then Some "import { c } from './c'"
  else if String.eqb fullPath "/repo/src/c.ts" then Some "export const c = 1"
  else None.

Definition exampleExports (filepath cwd : string) : list string := [].

(** The dependents come in the order of the scan, not in an order of the
    paths: [z.ts] is scanned before [a.ts]. *)
Lemma dependents_in_scan_order :
  let readFile fullPath :=
    if String.eqb fullPath "/repo/z.ts" then Some "import { c } from './c'"
    else if String.eqb fullPath "/repo/a.ts" then Some "import { c } from './c'"
    else if String.eqb fullPath "/repo/c.ts" then Some "export const c = 1"
    else None in
  (g ← buildDependencyGraph (node_path := posix) readFile exampleExports
         ["z.ts"; "a.ts"; "c.ts"; "z.ts"] "/repo" 50;
   node ← nodes g !! "c.ts";
   Some (dependents node))
  = Some ["z.ts"; "a.ts"].
Proof. vm_compute. reflexivity. Qed.

(** X14.  The size of the batches does not change the graph: with any two
    positive values of [maxConcurrency], [buildDependencyGraph] returns the
    same graph, the one built by scanning all files in one batch. *)
Theorem buildDependencyGraph_batch_size_irrelevant
    `{PathModule} (readFile : string -> option string)
    (extractExports : string -> string -> list string)
    (files : list string) (cwd : string) (maxConcurrency maxConcurrency' : Z) :
  0 < maxConcurrency -> 0 < maxConcurrency' ->
  buildDependencyGraph readFile extractExports files cwd maxConcurrency
  = buildDependencyGraph readFile extractExports files cwd maxConcurrency'
  /\ buildDependencyGraph readFile extractExports files cwd maxConcurrency
     = buildDependencyGraph readFile extractExports files cwd
         (Z.of_nat (length files) + 1).
Proof.
  intros H1 H2. rewrite !buildDependencyGraph_graphOf by lia. split; reflexivity.
Qed.

Lemma buildDependencyGraph_batch_size_irrelevant_witness :
  buildDependencyGraph (node_path := posix) exampleReadFile exampleExports
    exampleFiles "/repo" 1
  = buildDependencyGraph (node_path := posix) exampleReadFile exampleExports
      exampleFiles "/repo" 50.
Proof.
  apply (buildDependencyGraph_batch_size_irrelevant (H := posix)
           exampleReadFile exampleExports exampleFiles "/repo" 1 50); lia.
Defined.

(** X15.  With a positive [maxConcurrency], the set that the reverse lookup
    of the graph holds for a path contains exactly the scanned files with
    an import that [resolveImportPath] resolves to that path, the path not
    being the empty string; no key has an empty set. *)
Theorem reverseLookup_holds_every_resolved_import
    `{PathModule} (readFile : string -> option string)
    (extractExports : string -> string -> list string)
    (files : list string) (cwd : string) (maxConcurrency : Z) :
  0 < maxConcurrency ->
  exists graph,
    buildDependencyGraph readFile extractExports files cwd maxConcurrency
    = Some graph
    /\ (forall target importer,
          (exists importers, reverseLookup graph !! target = Some importers
                             /\ importer ∈ importers)
          <-> target <> EmptyString
              /\ importer ∈ files
              /\ exists imp, imp ∈ extractImports readFile importer cwd
                   /\ resolveImportPath (source imp) importer files cwd
                      = Some target)
    /\ (forall target importers,
          reverseLookup graph !! target = Some importers -> importers <> ∅).
Proof.
  intros Hmc. exists (graphOf readFile extractExports files cwd).
  split; [apply buildDependencyGraph_graphOf, Hmc|]. split.
  - intros target importer. apply graphOf_reverseLookup.
  - intros target importers Hl.
    exact (buildReverseLookup_inhabited readFile extractExports files cwd _
             target importers Hl).
Qed.

Lemma reverseLookup_holds_every_resolved_import_witness :
  exists graph,
    buildDependencyGraph (node_path := posix) exampleReadFile exampleExports
      exampleFiles "/repo" 2 = Some graph
    /\ reverseLookup graph !! "src/c.ts" = Some {[ "src/a.ts"; "src/b.ts" ]}.
Proof.
  destruct (reverseLookup_holds_every_resolved_import (H := posix)
              exampleReadFile exampleExports exampleFiles "/repo" 2)
    as (graph & Hgraph & _); [lia|].
  exists graph. split; [exact Hgraph|].
  vm_compute in Hgraph. injection Hgraph as <-. vm_compute. reflexivity.
Defined.

(** X16.  With a positive [maxConcurrency], the graph has a node exactly
    for the scanned files; the node of a file carries its path, its
    imports and its exports, and its dependents are, without repetition,
    the members of the set that the reverse lookup holds for the file
    (none when it holds no set). *)
Theorem nodes_of_scanned_files
    `{PathModule} (readFile : string -> option string)
    (extractExports : string -> string -> list string)
    (files : list string) (cwd : string) (maxConcurrency : Z) :
  0 < maxConcurrency ->
  exists graph,
    buildDependencyGraph readFile extractExports files cwd maxConcurrency
    = Some graph
    /\ (forall filepath, filepath ∉ files -> nodes graph !! filepath = None)
    /\ (forall filepath, filepath ∈ files ->
          exists node,
            nodes graph !! filepath = Some node
            /\ path node = filepath
            /\ imports node = extractImports readFile filepath cwd
            /\ exports node = extractExports filepath cwd
            /\ NoDup (dependents node)
            /\ forall dependent,
                 dependent ∈ dependents node
                 <-> exists importers,
                       reverseLookup graph !! filepath = Some importers
                       /\ dependent ∈ importers).
Proof.
  intros Hmc. exists (graphOf readFile extractExports files cwd).
  split; [apply buildDependencyGraph_graphOf, Hmc|]. split.
  - intros filepath Hnot. rewrite graphOf_nodes, decide_False by exact Hnot.
    reflexivity.
  - intros filepath Hin. rewrite graphOf_nodes, decide_True by exact Hin.
    eexists. split; [reflexivity|].
    destruct (reverseLookup _ !! filepath) as [importers|] eqn:Erl;
      cbn [withDependents scannedNode path imports exports dependents].
    + destruct (graphOf_dependents readFile extractExports files cwd
                  filepath importers Erl) as [Hnodup Hmembers].
      split; [reflexivity|]. split; [reflexivity|]. split; [reflexivity|].
      split; [exact Hnodup|].
      intros dependent. rewrite Hmembers. split.
      * intros Hd. exists importers. auto.
      * intros (importers' & [= <-] & Hd). exact Hd.
    + split; [reflexivity|]. split; [reflexivity|]. split; [reflexivity|].
      split; [constructor|].
      intros dependent. split; [intros Hd; inversion Hd|].
      intros (importers & Hl & _). discriminate.
Qed.

Lemma nodes_of_scanned_files_witness :
  exists graph,
    buildDependencyGraph (node_path := posix) exampleReadFile exampleExports
      exampleFiles "/repo" 2 = Some graph
    /\ nodes graph !! "src/d.ts" = None.
Proof.
  destruct (nodes_of_scanned_files (H := posix)
              exampleReadFile exampleExports exampleFiles "/repo" 2)
    as (graph & Hgraph & Hnone & _); [lia|].
  exists graph. split; [exact Hgraph|].
  apply Hnone. vm_compute. intros Hin.
  repeat (apply elem_of_cons in Hin as [Hin|Hin]; [discriminate|]).
  inversion Hin.
Defined.

(** X17.  With a [maxConcurrency] of zero or less and at least one file,
    the loop over the batches of [buildDependencyGraph] never ends: no
    number of iterations is enough. *)
Theorem buildDependencyGraph_needs_positive_batch
    `{PathModule} (readFile : string -> option string)
    (extractExports : string -> string -> list string)
    (files : list string) (cwd : string) (maxConcurrency : Z) (fuel : nat) :
  maxConcurrency <= 0 -> files <> [] ->
  buildDependencyGraphFuel readFile extractExports fuel files cwd maxConcurrency
  = None.
Proof.
  intros Hmc Hfiles. unfold buildDependencyGraphFuel.
  rewrite processBatches_stuck; [reflexivity|exact Hmc|lia|exact Hfiles].
Qed.

Lemma buildDependencyGraph_needs_positive_batch_witness :
  buildDependencyGraphFuel (node_path := posix) exampleReadFile exampleExports
    1000 exampleFiles "/repo" 0 = None.
Proof.
  apply (buildDependencyGraph_needs_positive_batch (H := posix)
           exampleReadFile exampleExports exampleFiles "/repo" 0 1000);
    [lia | discriminate].
Defined.

(** X18.  Composed with [buildDependencyGraph], [calculateImportRanks]
    ranks exactly the paths, other than the empty one, to which an import
    of a scanned file resolves; a scanned file that nothing imports has no
    rank. *)
Theorem ranked_files_are_imported_files
    `{PathModule} (readFile : string -> option string)
    (extractExports : string -> string -> list string)
    (files : list string) (cwd : string) (maxConcurrency : Z) :
  0 < maxConcurrency ->
  exists graph,
    buildDependencyGraph readFile extractExports files cwd maxConcurrency
    = Some graph
    /\ forall target,
         is_Some (calculateImportRanks graph !! target)
         <-> target <> EmptyString
             /\ exists importer imp,
                  importer ∈ files
                  /\ imp ∈ extractImports readFile importer cwd
                  /\ resolveImportPath (source imp) importer files cwd
                     = Some target.
Proof.
  intros Hmc. exists (graphOf readFile extractExports files cwd).
  split; [apply buildDependencyGraph_graphOf, Hmc|].
  intros target. rewrite calculateImportRanks_lookup, fmap_is_Some. split.
  - intros [importers Hl].
    destruct (set_choose_L importers) as [importer Hin].
    { exact (buildReverseLookup_inhabited readFile extractExports files cwd _
               target importers Hl). }
    destruct (proj1 (graphOf_reverseLookup readFile extractExports files cwd
                       target importer)) as (Hne & Hfile & imp & Himp & Hres).
    { exists importers. auto. }
    split; [exact Hne|]. exists importer, imp. auto.
  - intros (Hne & importer & imp & Hfile & Himp & Hres).
    destruct (proj2 (graphOf_reverseLookup readFile extractExports files cwd
                       target importer)) as (importers & Hl & _).
    { split; [exact Hne|]. split; [exact Hfile|]. exists imp. auto. }
    exists importers. exact Hl.
Qed.

Lemma ranked_files_are_imported_files_witness :
  exists graph,
    buildDependencyGraph (node_path := posix) exampleReadFile exampleExports
      exampleFiles "/repo" 2 = Some graph
    /\ calculateImportRanks graph !! "src/a.ts" = None.
Proof.
  destruct (ranked_files_are_imported_files (H := posix)
              exampleReadFile exampleExports exampleFiles "/repo" 2)
    as (graph & Hgraph & _); [lia|].
  exists graph. split; [exact Hgraph|].
  vm_compute in Hgraph. injection Hgraph as <-. vm_compute. reflexivity.
Defined.

End GraphExtra.

(** * The order of the candidates of [resolveImportPath] *)

Module ResolveExtra.
Import JS Regex NodePath DependencyGraph SortFacts GraphFacts.

(** The suffixes that [resolveImportPath] tries, in the order of its two
    loops. *)
Definition suffixes : list string :=
  [".ts"; ".tsx"; ".js"; ".jsx"; ".mjs"; ""; "/index.ts"; "/index.tsx";
   "/index.js"; "/index.jsx"].

Lemma existsb_eqb_iff (x : string) (l : list string) :
  existsb (String.eqb x) l = true <-> x ∈ l.
Proof.
  split; [apply existsb_eqb_elem|].
  intros Hin. apply existsb_exists. exists x.
  split; [apply list_elem_of_In, Hin | apply String.eqb_refl].
Qed.

Lemma probe_app candidatePath l1 l2 allFiles :
  probe candidatePath (l1 ++ l2)%list allFiles =
  match probe candidatePath l1 allFiles with
  | Some testPath => Some testPath
  | None => probe candidatePath l2 allFiles
  end.
Proof.
  induction l1 as [|suffix l1 IH]; [reflexivity|].
  cbn [app probe]. destruct (existsb _ allFiles); [reflexivity | exact IH].
Qed.

(** [probe] returns the first path, in the order of the suffixes, that
    is one of the files. *)
Lemma probe_first candidatePath l allFiles :
  match probe candidatePath l allFiles with
  | Some testPath =>
      exists k suffix,
        l !! k = Some suffix
        /\ testPath = (candidatePath ++ suffix)%string
        /\ testPath ∈ allFiles
        /\ forall j earlier, (j < k)%nat -> l !! j = Some earlier ->
             (candidatePath ++ earlier)%string ∉ allFiles
  | None => forall suffix, suffix ∈ l -> (candidatePath ++ suffix)%string ∉ allFiles
  end.
Proof.
  induction l as [|suffix l IH]; cbn [probe].
  - intros suffix Hin. inversion Hin.
  - destruct (existsb _ allFiles) eqn:E.
    + exists 0%nat, suffix. split; [reflexivity|]. split; [reflexivity|].
      split; [apply existsb_eqb_iff, E|]. intros j earlier Hj. lia.
    + assert ((candidatePath ++ suffix)%string ∉ allFiles) as Hnot.
      { intros Hin. apply existsb_eqb_iff in Hin. congruence. }
      destruct (probe candidatePath l allFiles) as [testPath|].
      * destruct IH as (k & suffix' & Hk & Heq & Hin & Hearlier).
        exists (S k), suffix'. split; [exact Hk|]. split; [exact Heq|].
        split; [exact Hin|]. intros [|j] earlier Hj Hl.
        -- injection Hl as <-. exact Hnot.
        -- apply (Hearlier j); [lia | exact Hl].
      * intros suffix' Hin. apply elem_of_cons in Hin as [->|Hin];
          [exact Hnot | apply IH, Hin].
Qed.

Section WithPath.
Context `{PathModule}.

(** [candidatePath] of [resolveImportPath], after the extension has been
    stripped. *)
Definition candidatePath (importSource importerPath : string) : string :=
  let resolvedSource :=
    if startsWith importSource "@/"
    then "src/" ++ String.substring 2 (String.length importSource - 2) importSource
    else importSource in
  let importerDir := dirname importerPath in
  let candidatePath := join importerDir resolvedSource in
  let currentExt := extname candidatePath in
  if negb (is_empty currentExt)
  then String.substring 0 (String.length candidatePath - String.length currentExt)
                        candidatePath
  else candidatePath.

Lemma resolveImportPath_probe importSource importerPath allFiles cwd :
  resolveImportPath importSource importerPath allFiles cwd =
  if isBare importSource then None
  else probe (candidatePath importSource importerPath) suffixes allFiles.
Proof.
  unfold resolveImportPath, isBare, candidatePath.
  destruct (negb (startsWith importSource ".") && negb (startsWith importSource "@/"));
    [reflexivity|].
  change suffixes
    with ([".ts"; ".tsx"; ".js"; ".jsx"; ".mjs"; ""]
          ++ ["/index.ts"; "/index.tsx"; "/index.js"; "/index.jsx"])%list.
  rewrite probe_app. reflexivity.
Qed.

End WithPath.

(** X19.  For a specifier that is relative or under the alias,
    [resolveImportPath] returns the first of the ten paths (the candidate
    path followed by .ts, .tsx, .js, .jsx, .mjs, nothing, /index.ts,
    /index.tsx, /index.js, /index.jsx, in this order) that is one of the
    files, and null when none is; the extension that the specifier itself
    carries has been stripped from the candidate, so that a TypeScript
    file is preferred to the file the specifier names. *)
Theorem resolveImportPath_first_candidate
    `{PathModule} (importSource importerPath : string)
    (allFiles : list string) (cwd : string) :
  isBare importSource = false ->
  match resolveImportPath importSource importerPath allFiles cwd with
  | Some testPath =>
      exists k suffix,
        suffixes !! k = Some suffix
        /\ testPath = (candidatePath importSource importerPath ++ suffix)%string
        /\ testPath ∈ allFiles
        /\ forall j earlier, (j < k)%nat -> suffixes !! j = Some earlier ->
             (candidatePath importSource importerPath ++ earlier)%string ∉ allFiles
  | None =>
      forall suffix, suffix ∈ suffixes ->
        (candidatePath importSource importerPath ++ suffix)%string ∉ allFiles
  end.
Proof.
  intros Hbare. rewrite resolveImportPath_probe, Hbare. apply probe_first.
Qed.

Lemma resolveImportPath_first_candidate_witness :
  resolveImportPath (node_path := posix) "./types.js" "src/a.ts"
    ["src/types.js"; "src/types.ts"] "/repo" = Some "src/types.ts".
Proof.
  generalize (resolveImportPath_first_candidate (H := posix) "./types.js" "src/a.ts"
                ["src/types.js"; "src/types.ts"] "/repo" eq_refl).
  destruct (resolveImportPath _ _ _ _) as [testPath|].
  - intros (k & suffix & Hk & Heq & Hin & Hearlier).
    destruct k as [|k].
    + injection Hk as <-. rewrite Heq. vm_compute. reflexivity.
    + exfalso. apply (Hearlier 0%nat ".ts"%string); [lia | reflexivity|].
      vm_compute. apply list_elem_of_further, list_elem_of_here.
  - intros Hnone. exfalso. apply (Hnone ".ts"%string).
    + apply list_elem_of_here.
    + vm_compute. apply list_elem_of_further, list_elem_of_here.
Defined.

End ResolveExtra.

(** * [getQuickImportRanks] *)

Module QuickRanksExtra.
Import JS Regex NodePath DependencyGraph QuickImportRanks SortFacts GraphFacts
       GraphExtra.

Section WithFiles.
Context `{PathModule}.
Variable readFile : string -> option string.
Variable files : list string.
Variable cwd : string.

(** The import [imp] of [filepath] resolves to [target]. *)
Definition resolvesTo (filepath target : string) (imp : ImportStatement) : bool :=
  match resolveImportPath (source imp) filepath files cwd with
  | Some resolved => String.eqb resolved target
  | None => false
  end.

(** The number of import statements of the files [scanned] that resolve
    to [target]. *)
Definition tally (target : string) (scanned : list string) : nat :=
  list_sum
    (map (fun filepath =>
            length (List.filter (resolvesTo filepath target)
                                (extractImports readFile filepath cwd)))
         scanned).

(** The counts are positive, those of [target] are [n] more than at the
    start, and the empty path has none. *)
Definition counted (target : string) (start : gmap string nat) (n : nat)
    (importCounts : gmap string nat) : Prop :=
  (target <> EmptyString ->
   default 0%nat (importCounts !! target)
   = (default 0%nat (start !! target) + n)%nat)
  /\ (forall t c, importCounts !! t = Some c -> (0 < c)%nat)
  /\ importCounts !! EmptyString = None.

Lemma countImport_counted target start n filepath importCounts imp :
  counted target start n importCounts ->
  counted target start
          (n + if resolvesTo filepath target imp then 1 else 0)
          (countImport files cwd filepath importCounts imp).
Proof.
  intros (Hval & Hpos & Hempty). unfold countImport, resolvesTo.
  destruct (resolveImportPath _ _ _ _) as [resolved|].
  2:{ rewrite Nat.add_0_r. split; [exact Hval|]. split; assumption. }
  destruct resolved as [|c resolved]; cbn [is_empty].
  { destruct target as [|d target].
    - split; [congruence|]. split; assumption.
    - cbn [String.eqb]. rewrite Nat.add_0_r. split; [exact Hval|].
      split; assumption. }
  split; [|split].
  - intros Hne. destruct (String.eqb_spec (String c resolved) target) as [<-|Hdiff].
    + rewrite lookup_insert, decide_True by reflexivity.
      rewrite (Hval Hne). cbn [default id]. lia.
    + rewrite lookup_insert_ne by exact Hdiff. rewrite (Hval Hne). lia.
  - intros t k. rewrite lookup_insert. case_decide as Hk.
    + intros [= <-]. lia.
    + apply Hpos.
  - rewrite lookup_insert_ne by discriminate. exact Hempty.
Qed.

Lemma countImports_counted target start filepath imps : forall n importCounts,
  counted target start n importCounts ->
  counted target start
          (n + length (List.filter (resolvesTo filepath target) imps))
          (fold_left (countImport files cwd filepath) imps importCounts).
Proof.
  induction imps as [|imp imps IH]; intros n importCounts Hc; cbn [fold_left].
  - cbn [List.filter length]. rewrite Nat.add_0_r. exact Hc.
  - apply (countImport_counted _ _ _ filepath _ imp) in Hc.
    apply IH in Hc. cbn [List.filter].
    destruct (resolvesTo filepath target imp); cbn [length].
    + replace (n + S (length (List.filter (resolvesTo filepath target) imps)))%nat
        with (n + 1 + length (List.filter (resolvesTo filepath target) imps))%nat
        by lia.
      exact Hc.
    + rewrite Nat.add_0_r in Hc. exact Hc.
Qed.

Lemma scan_counted target start scanned : forall n importCounts,
  counted target start n importCounts ->
  counted target start (n + tally target scanned)
    (fold_left
       (fun importCounts filepath =>
          fold_left (countImport files cwd filepath)
                    (extractImports readFile filepath cwd) importCounts)
       scanned importCounts).
Proof.
  unfold tally.
  induction scanned as [|filepath scanned IH]; intros n importCounts Hc;
    cbn [fold_left map list_sum fold_right].
  - rewrite Nat.add_0_r. exact Hc.
  - apply (countImports_counted _ _ filepath
             (extractImports readFile filepath cwd)) in Hc.
    apply IH in Hc. revert Hc.
    match goal with
    | |- counted _ _ ?a _ -> counted _ _ ?b _ =>
        replace b with a by (unfold list_sum; cbn [map fold_right]; lia)
    end.
    exact (fun Hc => Hc).
Qed.

Lemma importCountsOf_lookup target :
  importCountsOf readFile files cwd !! target =
  if String.eqb target EmptyString
     || Nat.eqb (tally target (filesToScan files)) 0
  then None
  else Some (tally target (filesToScan files)).
Proof.
  unfold importCountsOf.
  assert (counted target ∅ 0 ∅) as Hstart.
  { split; [intros _; rewrite lookup_empty; reflexivity|].
    split; [intros t c Hl; rewrite lookup_empty in Hl; discriminate|].
    apply lookup_empty. }
  apply (scan_counted target ∅ (filesToScan files)) in Hstart.
  destruct Hstart as (Hval & Hpos & Hempty). cbn [Nat.add] in Hval.
  destruct (String.eqb_spec target EmptyString) as [->|Hne]; cbn [orb];
    [exact Hempty|].
  specialize (Hval Hne). rewrite lookup_empty in Hval. cbn [default Nat.add] in Hval.
  destruct (fold_left _ _ _ !! target) as [c|] eqn:El; cbn [default] in Hval.
  - specialize (Hpos target c El). rewrite <- Hval.
    destruct c; [lia|]. reflexivity.
  - rewrite <- Hval. reflexivity.
Qed.

Lemma getQuickImportRanks_lookup target :
  getQuickImportRanks readFile files cwd !! target =
  (fun count =>
     normalizedRank count
       (maxCount (map snd (map_to_list (importCountsOf readFile files cwd)))))
  <$> importCountsOf readFile files cwd !! target.
Proof.
  unfold getQuickImportRanks.
  set (counts := importCountsOf readFile files cwd).
  set (mx := maxCount _).
  destruct (Nat.eqb (size counts) 0) eqn:Esize.
  - apply Nat.eqb_eq, map_size_empty_iff in Esize. rewrite Esize, !lookup_empty.
    reflexivity.
  - assert (forall l (init : gmap string float),
              fold_left (fun (ranks : gmap string float) '(filepath, count) =>
                           <[filepath := normalizedRank count mx]> ranks) l init
              = fold_left (fun m '(key, v) => <[key := v]> m)
                  (prod_map id (fun count : nat => normalizedRank count mx) <$> l)
                  init) as Hfold.
    { induction l as [|[k c] l IH]; intros init; [reflexivity|].
      cbn [fold_left fmap list_fmap prod_map id fst snd]. rewrite IH. reflexivity. }
    rewrite Hfold, fold_insert_lookup.
    + rewrite lookup_empty.
      rewrite <- (map_to_list_fmap (fun count : nat => normalizedRank count mx) counts).
      rewrite list_to_map_to_list, lookup_fmap.
      destruct (counts !! target); reflexivity.
    + rewrite <- (map_to_list_fmap (fun count : nat => normalizedRank count mx) counts).
      apply NoDup_fst_map_to_list.
Qed.

Lemma filesToScan_subseteq : filesToScan files ⊆ files.
Proof.
  unfold filesToScan. intros f Hf. apply slice_subseteq in Hf.
  apply list_elem_of_In, filter_In in Hf as [Hf _]. apply list_elem_of_In, Hf.
Qed.

Lemma tally_positive target scanned :
  (0 < tally target scanned)%nat ->
  exists importer imp,
    importer ∈ scanned
    /\ imp ∈ extractImports readFile importer cwd
    /\ resolveImportPath (source imp) importer files cwd = Some target.
Proof.
  unfold tally. induction scanned as [|f scanned IH]; cbn [map list_sum fold_right]; [lia|].
  intros Hpos.
  destruct (List.filter (resolvesTo f target) (extractImports readFile f cwd))
    as [|imp imps] eqn:Efilter.
  - cbn [length Nat.add] in Hpos. destruct (IH Hpos) as (importer & imp & Hin & Hrest).
    exists importer, imp. split; [apply list_elem_of_further, Hin | exact Hrest].
  - assert (In imp (List.filter (resolvesTo f target)
                                (extractImports readFile f cwd))) as Hin
      by (rewrite Efilter; left; reflexivity).
    apply filter_In in Hin as [Hin Hres]. unfold resolvesTo in Hres.
    destruct (resolveImportPath _ _ _ _) as [resolved|] eqn:E; [|discriminate].
    apply String.eqb_eq in Hres. subst resolved.
    exists f, imp. split; [apply list_elem_of_here|].
    split; [apply list_elem_of_In, Hin | exact E].
Qed.

End WithFiles.

(** X20.  [getQuickImportRanks] counts, for each path other than the empty
    one, the import statements of the scanned files (the first 1000 files
    with one of the five code extensions) that resolve to it: two imports
    of one file by the same importer count twice.  A path has a rank
    exactly when its count is positive, and the rank is [Math.round] of
    the double-precision product of 100 and the quotient of the count by
    the largest count: a count that no other count exceeds and that, as
    soon as one path has a positive count, is the count of a path. *)
Theorem getQuickImportRanks_counts_import_statements
    `{PathModule} (readFile : string -> option string)
    (files : list string) (cwd : string) :
  exists largest,
    (forall target,
       target <> EmptyString ->
       (tally readFile files cwd target (filesToScan files) <= largest)%nat)
    /\ ((exists target,
           target <> EmptyString
           /\ tally readFile files cwd target (filesToScan files) <> 0%nat) ->
        exists top,
          top <> EmptyString
          /\ tally readFile files cwd top (filesToScan files) = largest)
    /\ (forall target,
          getQuickImportRanks readFile files cwd !! target =
          if String.eqb target EmptyString
             || Nat.eqb (tally readFile files cwd target (filesToScan files)) 0
          then None
          else Some (normalizedRank
                       (tally readFile files cwd target (filesToScan files))
                       largest))
    /\ filesToScan files = take 1000 (List.filter isCodeFile files).
Proof.
  exists (maxCount (map snd (map_to_list (importCountsOf readFile files cwd)))).
  split; [|split; [|split]].
  - intros target Hne.
    pose proof (importCountsOf_lookup readFile files cwd target) as Hl.
    destruct (String.eqb_spec target EmptyString) as [->|_]; [congruence|].
    cbn [orb] in Hl. destruct (Nat.eqb _ 0) eqn:E0.
    + apply Nat.eqb_eq in E0. rewrite E0. lia.
    + apply maxCount_ge, list_elem_of_In, in_map_iff.
      exists (target, tally readFile files cwd target (filesToScan files)).
      split; [reflexivity|]. apply list_elem_of_In, elem_of_map_to_list, Hl.
  - intros (target & Hne & Hpos).
    pose proof (importCountsOf_lookup readFile files cwd target) as Hl.
    destruct (String.eqb_spec target EmptyString) as [->|_]; [congruence|].
    cbn [orb] in Hl. apply Nat.eqb_neq in Hpos. rewrite Hpos in Hl.
    set (counts := importCountsOf readFile files cwd) in *.
    assert (map snd (map_to_list counts) <> []) as Hcounts.
    { intros Hnil. apply map_eq_nil, map_to_list_empty_iff in Hnil.
      rewrite Hnil, lookup_empty in Hl. discriminate. }
    apply maxCount_elem, list_elem_of_In, in_map_iff in Hcounts
      as ([top count] & Hcount & Hin).
    cbn [snd] in Hcount. apply list_elem_of_In, elem_of_map_to_list in Hin.
    unfold counts in Hin. rewrite importCountsOf_lookup in Hin.
    exists top. destruct (String.eqb_spec top EmptyString) as [->|Htop];
      cbn [orb] in Hin; [discriminate|].
    split; [exact Htop|].
    destruct (Nat.eqb (tally readFile files cwd top (filesToScan files)) 0);
      [discriminate Hin|].
    injection Hin as Hin. rewrite Hin. exact Hcount.
  - intros target. rewrite getQuickImportRanks_lookup, importCountsOf_lookup.
    destruct (_ || _); reflexivity.
  - unfold filesToScan. rewrite slice_0_take by lia. reflexivity.
Qed.

(** X21.  Every path that [getQuickImportRanks] ranks is also ranked by
    [calculateImportRanks] on the graph that [buildDependencyGraph] builds
    from the same files. *)
Theorem quick_ranks_within_graph_ranks
    `{PathModule} (readFile : string -> option string)
    (extractExports : string -> string -> list string)
    (files : list string) (cwd : string) (maxConcurrency : Z) :
  0 < maxConcurrency ->
  exists graph,
    buildDependencyGraph readFile extractExports files cwd maxConcurrency
    = Some graph
    /\ forall target,
         is_Some (getQuickImportRanks readFile files cwd !! target) ->
         is_Some (calculateImportRanks graph !! target).
Proof.
  intros Hmc. exists (graphOf readFile extractExports files cwd).
  split; [apply buildDependencyGraph_graphOf, Hmc|].
  intros target. rewrite getQuickImportRanks_lookup, importCountsOf_lookup.
  destruct (String.eqb_spec target EmptyString) as [->|Hne]; cbn [orb];
    [intros [x Hx]; discriminate|].
  destruct (Nat.eqb _ 0) eqn:E0; [intros [x Hx]; discriminate|]. intros _.
  apply Nat.eqb_neq in E0.
  destruct (tally_positive readFile files cwd target (filesToScan files))
    as (importer & imp & Hin & Himp & Hres); [lia|].
  rewrite calculateImportRanks_lookup, fmap_is_Some.
  destruct (proj2 (graphOf_reverseLookup readFile extractExports files cwd
                     target importer)) as (importers & Hl & _).
  { split; [exact Hne|]. split; [apply filesToScan_subseteq, Hin|].
    exists imp. auto. }
  exists importers. exact Hl.
Qed.

Lemma quick_ranks_within_graph_ranks_witness :
  exists graph,
    buildDependencyGraph (node_path := posix) exampleReadFile exampleExports
      exampleFiles "/repo" 2 = Some graph
    /\ is_Some (calculateImportRanks graph !! "src/c.ts").
Proof.
  destruct (quick_ranks_within_graph_ranks (H := posix)
              exampleReadFile exampleExports exampleFiles "/repo" 2)
    as (graph & Hgraph & Hranks); [lia|].
  exists graph. split; [exact Hgraph|].
  apply Hranks. vm_compute. eexists. reflexivity.
Defined.

End QuickRanksExtra.

(** * The files around the working set *)

Module ContextIntelExtra.
Import JS Regex NodePath DependencyGraph ContextIntel SortFacts GraphFacts.

(** ** Sets in the order of insertion *)

Lemma set_add_elem x y set : y ∈ set_add x set <-> y = x \/ y ∈ set.
Proof.
  unfold set_add. destruct (existsb (String.eqb x) set) eqn:E.
  - apply existsb_eqb_elem in E. split; [auto|]. intros [->|Hy]; assumption.
  - rewrite elem_of_app, list_elem_of_singleton. tauto.
Qed.

Lemma set_add_NoDup x set : NoDup set -> NoDup (set_add x set).
Proof.
  unfold set_add. intros Hnd. destruct (existsb (String.eqb x) set) eqn:E;
    [exact Hnd|].
  apply NoDup_app. split; [exact Hnd|]. split; [|apply NoDup_singleton].
  intros y Hy Hx. apply list_elem_of_singleton in Hx. subst y.
  assert (existsb (String.eqb x) set = true) as Ht; [|congruence].
  apply existsb_exists. exists x.
  split; [apply list_elem_of_In, Hy | apply String.eqb_refl].
Qed.

Lemma set_add_length x set :
  (length set <= length (set_add x set) <= length set + 1)%nat.
Proof.
  unfold set_add. destruct (existsb _ set); [lia|].
  rewrite length_app. cbn [length]. lia.
Qed.

Lemma set_of_facts array :
  (forall x, x ∈ set_of array <-> x ∈ array)
  /\ NoDup (set_of array)
  /\ (length (set_of array) <= length array)%nat.
Proof.
  unfold set_of.
  assert (forall (start : list string),
            NoDup start ->
            (forall x, x ∈ fold_left (fun set x => set_add x set) array start
                       <-> x ∈ start \/ x ∈ array)
            /\ NoDup (fold_left (fun set x => set_add x set) array start)
            /\ (length (fold_left (fun set x => set_add x set) array start)
                <= length start + length array)%nat) as Hgen.
  { induction array as [|a array IH]; intros start Hnd; cbn [fold_left].
    - split; [|split; [exact Hnd | lia]].
      intros x. split; [auto|]. intros [Hx|Hx]; [exact Hx | inversion Hx].
    - destruct (IH (set_add a start) (set_add_NoDup a start Hnd))
        as (Helem & Hnodup & Hlen).
      split; [|split; [exact Hnodup|]].
      + intros x. rewrite Helem, set_add_elem, elem_of_cons. tauto.
      + pose proof (set_add_length a start). cbn [length]. lia. }
  destruct (Hgen [] (NoDup_nil_2)) as (Helem & Hnodup & Hlen).
  split; [|split; [exact Hnodup | exact Hlen]].
  intros x. rewrite Helem. split; [|auto].
  intros [Hx|Hx]; [inversion Hx | exact Hx].
Qed.

(** ** [getRelevantFilesForGraph] *)

Lemma addCandidates_facts normalizedDir allFiles : forall relevant,
  NoDup relevant ->
  let result := addCandidates normalizedDir allFiles relevant in
  (forall f, f ∈ relevant -> f ∈ result)
  /\ NoDup result
  /\ (forall f, f ∈ result ->
        f ∈ relevant
        \/ (f ∈ allFiles /\ includes f "node_modules" = false
            /\ inDirectory normalizedDir f = true))
  /\ (length result <= Nat.max (length relevant + 1) 501)%nat.
Proof.
  induction allFiles as [|candidate rest IH]; intros relevant Hnd;
    cbn [addCandidates]; cbn zeta.
  - split; [auto|]. split; [exact Hnd|]. split; [auto|]. lia.
  - destruct (inDirectory normalizedDir candidate) eqn:Edir; cbn [andb].
    2:{ destruct (IH relevant Hnd) as (H1 & H2 & H3 & H4).
        split; [exact H1|]. split; [exact H2|]. split; [|exact H4].
        intros f Hf. destruct (H3 f Hf) as [Hr|(Hin & Hrest)]; [auto|].
        right. split; [apply list_elem_of_further, Hin | exact Hrest]. }
    destruct (includes candidate "node_modules") eqn:Emod; cbn [negb].
    { destruct (IH relevant Hnd) as (H1 & H2 & H3 & H4).
      split; [exact H1|]. split; [exact H2|]. split; [|exact H4].
      intros f Hf. destruct (H3 f Hf) as [Hr|(Hin & Hrest)]; [auto|].
      right. split; [apply list_elem_of_further, Hin | exact Hrest]. }
    pose proof (set_add_length candidate relevant) as Hlen.
    pose proof (set_add_NoDup candidate relevant Hnd) as Hnd'.
    assert (forall f, f ∈ set_add candidate relevant ->
              f ∈ relevant
              \/ (f ∈ candidate :: rest /\ includes f "node_modules" = false
                  /\ inDirectory normalizedDir f = true)) as Hadded.
    { intros f Hf. apply set_add_elem in Hf as [->|Hf]; [|auto].
      right. split; [apply list_elem_of_here | auto]. }
    destruct (500 <? Z.of_nat (length (set_add candidate relevant))) eqn:Efull.
    + split; [intros f Hf; apply set_add_elem; auto|].
      split; [exact Hnd'|]. split; [exact Hadded|]. lia.
    + apply Z.ltb_ge in Efull.
      destruct (IH (set_add candidate relevant) Hnd') as (H1 & H2 & H3 & H4).
      split; [intros f Hf; apply H1, set_add_elem; auto|].
      split; [exact H2|]. split; [|lia].
      intros f Hf. destruct (H3 f Hf) as [Hr|(Hin & Hrest)]; [auto|].
      right. split; [apply list_elem_of_further, Hin | exact Hrest].
Qed.

(** The files [dir/x.ts], [dir/xx.ts], ... *)
Definition manyFiles (dir : string) (n : nat) : list string :=
  map (fun k => dir ++ "/" ++ String.concat "" (repeat "x" (S k)) ++ ".ts")
      (seq 0 n).

(** The limit is passed: the scan for the first file of the working set
    ends at 501 files, and the scan for the second one adds one more. *)
Lemma getRelevantFilesForGraph_over_500 :
  length (getRelevantFilesForGraph (node_path := posix)
            ["a/main.ts"; "b/main.ts"]
            (manyFiles "a" 600 ++ manyFiles "b" 3)%list) = 502%nat.
Proof. vm_compute. reflexivity. Qed.

(** X22.  [getRelevantFilesForGraph] returns every file of the working
    set, and otherwise only files of [allFiles] that lie at or below the
    directory of a file of the working set and have no [node_modules] in
    their path; no file is returned twice.  The limit of 500 ends only the
    scan for one file of the working set, so that each further file of the
    working set can add one file more: the number of files returned is at
    most the larger of 500 and the size of the working set, plus the size
    of the working set. *)
Theorem getRelevantFilesForGraph_scope
    `{PathModule} (workingSet allFiles : list string) :
  let relevant := getRelevantFilesForGraph workingSet allFiles in
  (forall f, f ∈ workingSet -> f ∈ relevant)
  /\ NoDup relevant
  /\ (forall f, f ∈ relevant ->
        f ∈ workingSet
        \/ (f ∈ allFiles /\ includes f "node_modules" = false
            /\ exists file, file ∈ workingSet
                 /\ inDirectory (forwardSlashes (dirname file)) f = true))
  /\ (length relevant
      <= Nat.max (length workingSet) 500 + length workingSet)%nat.
Proof.
  cbn zeta. unfold getRelevantFilesForGraph.
  destruct (set_of_facts workingSet) as (Hset & Hnodup & Hlen).
  assert (forall (scanned : list string) (start : list string),
            NoDup start ->
            let result :=
              fold_left
                (fun relevant file =>
                   addCandidates (forwardSlashes (dirname file)) allFiles relevant)
                scanned start in
            (forall f, f ∈ start -> f ∈ result)
            /\ NoDup result
            /\ (forall f, f ∈ result ->
                  f ∈ start
                  \/ (f ∈ allFiles /\ includes f "node_modules" = false
                      /\ exists file, file ∈ scanned
                           /\ inDirectory (forwardSlashes (dirname file)) f = true))
            /\ (length result
                <= Nat.max (length start) 500 + length scanned)%nat) as Hgen.
  { induction scanned as [|file scanned IH]; intros start Hnd; cbn [fold_left];
      cbn zeta.
    - split; [auto|]. split; [exact Hnd|]. split; [auto|]. cbn [length]. lia.
    - destruct (addCandidates_facts (forwardSlashes (dirname file)) allFiles
                  start Hnd) as (A1 & A2 & A3 & A4).
      destruct (IH _ A2) as (B1 & B2 & B3 & B4).
      split; [intros f Hf; apply B1, A1, Hf|]. split; [exact B2|].
      split.
      + intros f Hf. destruct (B3 f Hf) as [Hr|(Hin & Hmod & file' & Hfile & Hdir)].
        * destruct (A3 f Hr) as [Hs|(Hin & Hmod & Hdir)]; [auto|].
          right. split; [exact Hin|]. split; [exact Hmod|].
          exists file. split; [apply list_elem_of_here | exact Hdir].
        * right. split; [exact Hin|]. split; [exact Hmod|].
          exists file'. split; [apply list_elem_of_further, Hfile | exact Hdir].
      + cbn [length]. lia. }
  destruct (Hgen workingSet (set_of workingSet) Hnodup) as (G1 & G2 & G3 & G4).
  split; [intros f Hf; apply G1, Hset, Hf|]. split; [exact G2|].
  split.
  - intros f Hf. destruct (G3 f Hf) as [Hs|Hrest]; [left; apply Hset, Hs | auto].
  - lia.
Qed.

(** ** The two resolvers *)

(** X23.  The resolver of the class agrees with [resolveImportPath] where
    it resolves, provided that the joined path carries no extension and
    has no [.mjs] file beside it: [resolveImportPath] strips an extension
    before it probes, tries [.mjs] before the path itself, and tries the
    index files of a directory, none of which the class does. *)
Theorem resolveImport_agrees_with_resolveImportPath
    `{PathModule} (importSource importerPath : string)
    (allFiles : list string) (cwd resolved : string) :
  let resolvedSource :=
    if startsWith importSource "@/"
    then ("src/" ++ String.substring 2 (String.length importSource - 2)
                                     importSource)%string
    else importSource in
  let candidatePath := join (dirname importerPath) resolvedSource in
  extname candidatePath = EmptyString ->
  (candidatePath ++ ".mjs")%string ∉ allFiles ->
  resolveImport importSource importerPath allFiles = Some resolved ->
  resolveImportPath importSource importerPath allFiles cwd = Some resolved.
Proof.
  cbn zeta. unfold resolveImport, resolveImportPath. intros Hext Hmjs.
  destruct (negb (startsWith importSource ".") && negb (startsWith importSource "@/"));
    [discriminate|].
  rewrite Hext. cbn [is_empty negb].
  set (candidatePath := join _ _) in *.
  assert (existsb (String.eqb (candidatePath ++ ".mjs")) allFiles = false) as Emjs.
  { destruct (existsb _ allFiles) eqn:E; [|reflexivity].
    apply existsb_eqb_elem in E. contradiction. }
  cbn [probe]. rewrite Emjs.
  intros Hres. rewrite Hres. reflexivity.
Qed.

Lemma resolveImport_agrees_with_resolveImportPath_witness :
  resolveImportPath (node_path := posix) "./b" "src/a.ts"
    ["src/a.ts"; "src/b.tsx"] "/repo" = Some "src/b.tsx".
Proof.
  apply (resolveImport_agrees_with_resolveImportPath (H := posix)
           "./b" "src/a.ts" ["src/a.ts"; "src/b.tsx"] "/repo" "src/b.tsx").
  - reflexivity.
  - vm_compute. intros Hin.
    repeat (apply elem_of_cons in Hin as [Hin|Hin]; [discriminate|]).
    inversion Hin.
  - reflexivity.
Defined.

End ContextIntelExtra.

(** * [findRelatedFiles] *)

Module RelatedFilesExtra.
Import JS Regex NodePath DependencyGraph ContextIntel SortFacts SearchFacts
       GraphFacts GraphExtra SearchExtra.

Section WithPath.
Context `{PathModule}.
Variable basename : string -> string -> string.
Variable workingSet : list string.
Variable graph : Graph.
Variable allFiles : list string.

(** Why a file is related: it came from the node of a file of the working
    set, by the loop that its priority names. *)
Definition justified (file : RelatedFile) : Prop :=
  exists filepath node,
    filepath ∈ workingSet
    /\ nodes graph !! filepath = Some node
    /\ match rfPriority file with
       | critical =>
           rfPath file ∈ dependents node
           /\ rfReason file = ("imports " ++ basename filepath EmptyString)%string
           /\ rfLine file = None
       | high =>
           exists imp,
             imp ∈ imports node
             /\ resolveImport (source imp) filepath allFiles = Some (rfPath file)
             /\ rfReason file = "dependency"%string
             /\ rfLine file = Some (line imp)
       | medium =>
           rfPath file ∈ findTestFiles basename filepath allFiles
           /\ rfReason file = "tests"%string
           /\ rfLine file = None
       | low =>
           rfPath file ∈ findConfigFiles filepath allFiles
           /\ rfReason file = "configuration"%string
           /\ rfLine file = None
       end.

(** What the loops keep: [seen] holds the working set and the paths
    pushed, no path is pushed twice, and every file pushed is justified. *)
Definition kept (found : Found) : Prop :=
  (forall p, p ∈ found.2 <-> p ∈ workingSet \/ p ∈ map rfPath found.1)
  /\ NoDup (map rfPath found.1)
  /\ forall file, file ∈ found.1 -> (rfPath file ∉ workingSet) /\ justified file.

Lemma pushUnseen_kept file found :
  justified file -> kept found -> kept (pushUnseen file found).
Proof.
  intros Hj (Hseen & Hnodup & Hall). destruct found as [related seen].
  unfold pushUnseen. cbn [fst snd] in *.
  destruct (decide (rfPath file ∈ seen)) as [Hin|Hnot];
    [split; [exact Hseen|]; split; assumption|].
  split; [|split]; cbn [fst snd].
  - intros p. rewrite elem_of_union, elem_of_singleton, Hseen, map_app.
    rewrite elem_of_app. cbn [map]. rewrite list_elem_of_singleton. tauto.
  - rewrite map_app. apply NoDup_app. split; [exact Hnodup|].
    split; [|apply NoDup_singleton].
    intros p Hp Hq. cbn [map] in Hq. apply list_elem_of_singleton in Hq. subst p.
    apply Hnot, Hseen. right. exact Hp.
  - intros f Hf. apply elem_of_app in Hf as [Hf|Hf]; [apply Hall, Hf|].
    apply list_elem_of_singleton in Hf. subst f. split; [|exact Hj].
    intros Hw. apply Hnot, Hseen. left. exact Hw.
Qed.

Lemma relatedTo_no_node found filepath :
  nodes graph !! filepath = None ->
  relatedTo basename graph allFiles found filepath = found.
Proof. unfold relatedTo. intros ->. reflexivity. Qed.

Lemma fold_kept {X} (step : Found -> X -> Found) (items : list X) :
  (forall found x, x ∈ items -> kept found -> kept (step found x)) ->
  forall found, kept found -> kept (fold_left step items found).
Proof.
  induction items as [|x items IH]; intros Hstep found Hk; [exact Hk|].
  cbn [fold_left]. apply IH.
  - intros f y Hy. apply Hstep, list_elem_of_further, Hy.
  - apply Hstep; [apply list_elem_of_here | exact Hk].
Qed.

Lemma relatedTo_kept found filepath :
  filepath ∈ workingSet -> kept found ->
  kept (relatedTo basename graph allFiles found filepath).
Proof.
  intros Hfile Hk. unfold relatedTo.
  destruct (nodes graph !! filepath) as [node|] eqn:Enode; [|exact Hk].
  apply fold_kept.
  { intros f configFile Hin. apply pushUnseen_kept.
    exists filepath, node. split; [exact Hfile|]. split; [exact Enode|].
    cbn [rfPriority rfPath rfReason rfLine].
    split; [|split; reflexivity].
    apply (slice_subseteq (findConfigFiles filepath allFiles) 0 2), Hin. }
  apply fold_kept.
  { intros f testFile Hin. apply pushUnseen_kept.
    exists filepath, node. split; [exact Hfile|]. split; [exact Enode|].
    cbn [rfPriority rfPath rfReason rfLine].
    split; [exact Hin | split; reflexivity]. }
  apply fold_kept.
  { intros f imp Hin Hf.
    destruct (resolveImport (source imp) filepath allFiles) as [resolvedPath|] eqn:E;
      [|exact Hf].
    destruct (is_empty resolvedPath); [exact Hf|].
    apply pushUnseen_kept; [|exact Hf].
    exists filepath, node. split; [exact Hfile|]. split; [exact Enode|].
    cbn [rfPriority rfPath rfReason rfLine].
    exists imp. split; [apply (slice_subseteq (imports node) 0 5), Hin|].
    split; [exact E | split; reflexivity]. }
  apply fold_kept; [|exact Hk].
  intros f dependent Hin. apply pushUnseen_kept.
  exists filepath, node. split; [exact Hfile|]. split; [exact Enode|].
  cbn [rfPriority rfPath rfReason rfLine].
  split; [|split; reflexivity].
  apply (slice_subseteq (dependents node) 0 5), Hin.
Qed.

Lemma related_kept :
  kept (fold_left (relatedTo basename graph allFiles) workingSet
                  ([], list_to_set workingSet)).
Proof.
  apply fold_kept.
  - intros found filepath Hin. apply relatedTo_kept, Hin.
  - split; [|split]; cbn [fst snd map].
    + intros p. rewrite elem_of_list_to_set. split; [auto|].
      intros [Hp|Hp]; [exact Hp | inversion Hp].
    + constructor.
    + intros file Hf. inversion Hf.
Qed.

End WithPath.

Definition byPriority (a b : RelatedFile) : Z :=
  priorityOrder (rfPriority a) - priorityOrder (rfPriority b).

Lemma slice_sublist {A} (l : list A) (a b : Z) : slice l a b `sublist_of` l.
Proof.
  unfold slice. etransitivity; [apply sublist_take | apply sublist_drop].
Qed.

Lemma slice_0_length {A} (l : list A) (n : nat) :
  (length (slice l 0 (Z.of_nat n)) <= n)%nat.
Proof. rewrite slice_0_take by lia. rewrite length_take. lia. Qed.

(** Every file that [findRelatedFiles] returns was pushed by one of its
    loops. *)
Lemma findRelatedFiles_elem
    `{PathModule} (basename : string -> string -> string)
    (workingSet : list string) (graph : Graph) (allFiles : list string) file :
  file ∈ findRelatedFiles basename workingSet graph allFiles ->
  (rfPath file ∉ workingSet)
  /\ justified basename workingSet graph allFiles file.
Proof.
  unfold findRelatedFiles.
  pose proof (related_kept basename workingSet graph allFiles) as Hkept.
  destruct (fold_left _ workingSet _) as [related seen].
  destruct Hkept as (_ & _ & Hall). cbn [fst snd] in Hall.
  intros Hf. apply slice_subseteq in Hf. apply sort_elem_of in Hf.
  apply Hall, Hf.
Qed.

(** X24.  [findRelatedFiles] returns at most 10 files, the critical ones
    first, then the high, medium and low ones; no path is returned twice
    and none is a file of the working set; every file returned comes from
    the node of a file of the working set: as one of its dependents
    (critical), as the file one of its imports resolves to (high), as one
    of its test files (medium) or as one of its configuration files
    (low).  A file of the working set without a node in the graph
    contributes nothing, not even its test files. *)
Theorem findRelatedFiles_shape
    `{PathModule} (basename : string -> string -> string)
    (workingSet : list string) (graph : Graph) (allFiles : list string) :
  let related := findRelatedFiles basename workingSet graph allFiles in
  (length related <= 10)%nat
  /\ Sorted (fun a b => priorityOrder (rfPriority a) <= priorityOrder (rfPriority b))
            related
  /\ NoDup (map rfPath related)
  /\ (forall file, file ∈ related ->
        (rfPath file ∉ workingSet)
        /\ justified basename workingSet graph allFiles file)
  /\ ((forall filepath, filepath ∈ workingSet -> nodes graph !! filepath = None) ->
      related = []).
Proof.
  cbn zeta.
  pose proof (findRelatedFiles_elem basename workingSet graph allFiles) as Helem.
  unfold findRelatedFiles in Helem |- *.
  pose proof (related_kept basename workingSet graph allFiles) as Hkept.
  destruct (fold_left _ workingSet _) as [related seen] eqn:Efold.
  destruct Hkept as (Hseen & Hnodup & Hall). cbn [fst snd] in *.
  fold byPriority.
  split; [apply (slice_0_length _ 10)|]. split; [|split; [|split]].
  - apply slice_Sorted.
    apply (Sorted_impl (precedes byPriority)).
    + intros a b Hab. unfold precedes, byPriority in Hab. lia.
    + apply sort_Sorted; intros; unfold byPriority; lia.
  - assert (map rfPath (slice (sort byPriority related) 0 10)
            `sublist_of` map rfPath (sort byPriority related)) as Hsl.
    { apply (fmap_sublist rfPath), slice_sublist. }
    eapply sublist_NoDup; [|exact Hsl].
    assert (map rfPath (sort byPriority related) ≡ₚ map rfPath related) as ->.
    { apply (fmap_Permutation rfPath), sort_Permutation. }
    exact Hnodup.
  - exact Helem.
  - intros Hnone.
    assert (related = []) as ->; [|reflexivity].
    assert (forall (found : Found),
              fold_left (relatedTo basename graph allFiles) workingSet found
              = found) as Hfold.
    { revert Hnone. generalize workingSet. intros l.
      induction l as [|filepath l IH]; intros Hnone found; [reflexivity|].
      cbn [fold_left]. rewrite relatedTo_no_node by apply Hnone, list_elem_of_here.
      apply IH. intros f Hf. apply Hnone, list_elem_of_further, Hf. }
    rewrite Hfold in Efold. injection Efold as <- _. reflexivity.
Qed.

(** X25.  In [buildContext], where the graph is built from the files that
    [getRelevantFilesForGraph] returns, every critical related file is one
    of those files, is no file of the working set, and has an import that
    [resolveImportPath] resolves, among those files, to a file of the
    working set. *)
Theorem critical_related_files_import_the_working_set
    `{PathModule} (readFile : string -> option string)
    (extractExports : string -> string -> list string)
    (basename : string -> string -> string)
    (workingSet allFiles : list string) (projectRoot : string) :
  let relevantFiles := getRelevantFilesForGraph workingSet allFiles in
  exists graph,
    buildDependencyGraph readFile extractExports relevantFiles projectRoot 50
    = Some graph
    /\ forall file,
         file ∈ findRelatedFiles basename workingSet graph allFiles ->
         rfPriority file = critical ->
         rfPath file ∈ relevantFiles
         /\ (rfPath file ∉ workingSet)
         /\ exists filepath imp,
              filepath ∈ workingSet
              /\ imp ∈ extractImports readFile (rfPath file) projectRoot
              /\ resolveImportPath (source imp) (rfPath file) relevantFiles
                                   projectRoot = Some filepath.
Proof.
  cbn zeta. set (relevantFiles := getRelevantFilesForGraph workingSet allFiles).
  exists (graphOf readFile extractExports relevantFiles projectRoot).
  split; [apply buildDependencyGraph_graphOf; lia|].
  intros file Hin Hcritical.
  destruct (findRelatedFiles_elem basename workingSet
              (graphOf readFile extractExports relevantFiles projectRoot) allFiles
              file Hin) as (Hfresh & filepath & node & Hw & Hnode & Hwhy).
  rewrite Hcritical in Hwhy. destruct Hwhy as (Hdep & _).
  rewrite graphOf_nodes in Hnode.
  destruct (decide (filepath ∈ relevantFiles)) as [Hrel|]; [|discriminate].
  destruct (reverseLookup _ !! filepath) as [importers|] eqn:Erl;
    injection Hnode as <-; cbn [withDependents scannedNode dependents] in Hdep;
    [|inversion Hdep].
  apply (graphOf_dependents readFile extractExports relevantFiles projectRoot
           filepath importers Erl) in Hdep.
  destruct (proj1 (graphOf_reverseLookup readFile extractExports relevantFiles
                     projectRoot filepath (rfPath file)))
    as (_ & Himporter & imp & Himp & Hres).
  { exists importers. auto. }
  split; [exact Himporter|]. split; [exact Hfresh|].
  exists filepath, imp. auto.
Qed.

End RelatedFilesExtra.
